(** * readwise-to-remarkable: paced HTTP clients, export ledger, conversion

    A shallow embedding of the Python sources

      - [readwise_api.py]  (class [ReadwiseAPI])
      - [converter.py]     (classes [RateLimitedImageFetcher], [DocumentConverter])
      - [tracker.py]       (class [ExportTracker])
      - [uploader.py]      (class [RemarkableUploader])
      - [sync.py]          (class [ReadwiseRemarkableSync])
      - [config.py]        (class [Config])

    Conventions of the embedding.

      - A Python [str] is a [string]; its characters are the code points
        below 256.  [bytes] is [list byte].
      - Python sets of strings are [gset string].
      - Time is an integer number of milliseconds ([Z]).  The time that
        has passed never runs backwards, and [time.sleep d] returns no
        earlier than [d] after it was called; the system clock, which
        [time.time()] reads, can be set while the program runs.
      - Code that raises is embedded in a state-and-exception monad; the
        network, the [rmapi] subprocess and the EPUB writer are oracles
        bound as [Variable]s of a [Section]. *)

From stdpp Require Import base strings list gmap.
From Stdlib Require Import ZArith Lia DecimalString DecimalNat.
From Stdlib.Strings Require Import Ascii Byte.

Local Open Scope Z_scope.

(* ===================================================================== *)
(** * Python string primitives *)
(* ===================================================================== *)

Module Py.

(** Code point of a character. *)
Definition ord (c : ascii) : nat := Ascii.nat_of_ascii c.

(** [str.isspace] on one character, which is also the class [\s] of [re]
    for [str] patterns: TAB, LF, VT, FF, CR, FS, GS, RS, US, SPACE, NEL
    and NBSP are the white-space code points below 256. *)
Definition isspace (c : ascii) : bool :=
  let n := ord c in
  ((9 <=? n) && (n <=? 13) || (28 <=? n) && (n <=? 32)
   || (n =? 133) || (n =? 160))%nat.

(** [str.lower] on one character (ASCII and Latin-1 capitals). *)
Definition lower_char (c : ascii) : ascii :=
  let n := ord c in
  if ((65 <=? n) && (n <=? 90)
      || (192 <=? n) && (n <=? 222) && negb (n =? 215))%nat
  then Ascii.ascii_of_nat (n + 32) else c.

Fixpoint lower (s : string) : string :=
  match s with
  | "" => ""
  | String c r => String (lower_char c) (lower r)
  end.

(** [c in s] for a one-character needle. *)
Fixpoint contains_char (c : ascii) (s : string) : bool :=
  match s with
  | "" => false
  | String d r => Ascii.eqb d c || contains_char c r
  end.

(** [s.startswith(p)]. *)
Fixpoint startswith (p s : string) : bool :=
  match p, s with
  | "", _ => true
  | String a p', String b s' => Ascii.eqb a b && startswith p' s'
  | String _ _, "" => false
  end.

(** [s.lstrip()], [s.rstrip()], [s.strip()]. *)
Fixpoint lstrip (s : string) : string :=
  match s with
  | "" => ""
  | String c r => if isspace c then lstrip r else s
  end.

Fixpoint rstrip (s : string) : string :=
  match s with
  | "" => ""
  | String c r =>
      match rstrip r with
      | "" => if isspace c then "" else String c ""
      | r' => String c r'
      end
  end.

Definition strip (s : string) : string := rstrip (lstrip s).

(** [s.split(sep)] for a one-character separator: never empty, the
    pieces are the maximal runs between separators. *)
Fixpoint split (sep : ascii) (s : string) : list string :=
  match s with
  | "" => [""]
  | String c r =>
      if Ascii.eqb c sep then "" :: split sep r
      else match split sep r with
           | [] => [String c ""]
           | piece :: pieces => String c piece :: pieces
           end
  end.

(** [l[-1]] and [l[0]] on the result of [split], which has an element. *)
Definition last_piece (l : list string) : string := List.last l "".
Definition first_piece (l : list string) : string := List.hd "" l.

(** [re.sub("[...]", "", s)] for a character class: drop its members. *)
Fixpoint remove_class (cls : ascii -> bool) (s : string) : string :=
  match s with
  | "" => ""
  | String c r => if cls c then remove_class cls r
                  else String c (remove_class cls r)
  end.

(** [re.sub(r"\s+", " ", s)]: every maximal run of white space becomes
    one SPACE.  [in_run] records that the previous character was white
    space, whose run has already been replaced. *)
Fixpoint collapse_ws (in_run : bool) (s : string) : string :=
  match s with
  | "" => ""
  | String c r =>
      if isspace c
      then (if in_run then collapse_ws true r
            else String " " (collapse_ws true r))
      else String c (collapse_ws false r)
  end.

(** Truthiness of a [str]. *)
Definition nonempty (s : string) : bool :=
  match s with "" => false | _ => true end.

End Py.

(* ===================================================================== *)
(** * Exceptions and state *)
(* ===================================================================== *)

Module Eff.

(** The exception classes that the sources raise or catch.  All of them
    derive from [Exception]; [RequestException] stands for
    [requests.exceptions.RequestException] and its subclasses
    (time-outs, connection errors, [HTTPError], broken streams). *)
Inductive exn : Type :=
| Exception (msg : string)
| RequestException (msg : string)
| ValueError (msg : string)
| TypeError (msg : string)
| AttributeError (msg : string)
| KeyError (msg : string)
| OSError (msg : string)
| UnicodeDecodeError (msg : string)
| CalledProcessError (msg : string)
| OverflowError (msg : string).

Definition is_RequestException (e : exn) : bool :=
  match e with RequestException _ => true | _ => false end.

Definition is_CalledProcessError (e : exn) : bool :=
  match e with CalledProcessError _ => true | _ => false end.

(** [except Exception] catches every class above. *)
Definition is_Exception (e : exn) : bool := true.

Inductive outcome (A : Type) : Type :=
| Returned (a : A)
| Raised (e : exn).
Arguments Returned {A} a.
Arguments Raised {A} e.

(** A computation over a mutable state [S] that returns or raises. *)
Definition M (S A : Type) : Type := S -> outcome A * S.

Definition ret {S A} (a : A) : M S A := fun s => (Returned a, s).

Definition raise {S A} (e : exn) : M S A := fun s => (Raised e, s).

Definition bind {S A B} (m : M S A) (k : A -> M S B) : M S B :=
  fun s =>
    match m s with
    | (Returned a, s') => k a s'
    | (Raised e, s') => (Raised e, s')
    end.

(** [try: m except <class> as e: handler e]. *)
Definition try_except {S A}
    (m : M S A) (class : exn -> bool) (handler : exn -> M S A) : M S A :=
  fun s =>
    match m s with
    | (Raised e, s') =>
        if class e then handler e s' else (Raised e, s')
    | r => r
    end.

Definition get {S} : M S S := fun s => (Returned s, s).
Definition put {S} (s : S) : M S unit := fun _ => (Returned tt, s).
Definition modify {S} (f : S -> S) : M S unit := fun s => (Returned tt, f s).

(** [for x in l: body x], without [break]. *)
Fixpoint for_each {S A} (l : list A) (body : A -> M S unit) : M S unit :=
  match l with
  | [] => ret tt
  | x :: l' => bind (body x) (fun _ => for_each l' body)
  end.

(** Running a computation on one component of a larger state. *)
Definition zoom {W S A} (part : W -> S) (update : S -> W -> W)
    (m : M S A) : M W A :=
  fun w => let (r, s') := m (part w) in (r, update s' w).

(** Lifting a pure result that may be an exception. *)
Definition lift {S A} (o : outcome A) : M S A := fun s => (o, s).

(** The state a computation ends in, and what it returned or raised. *)
Definition exec {S A} (m : M S A) (s : S) : S := snd (m s).
Definition eval {S A} (m : M S A) (s : S) : outcome A := fst (m s).

End Eff.

Declare Scope eff_scope.
Delimit Scope eff_scope with eff.
Notation "'let*' x ':=' m 'in' k" :=
  (Eff.bind m (fun x => k))
  (at level 10, x name, m at level 100, k at level 200) : eff_scope.
Notation "m '>>' k" :=
  (Eff.bind m (fun _ => k))
  (at level 100, k at level 200, right associativity) : eff_scope.

(* ===================================================================== *)
(** * JSON values and HTTP exchanges *)
(* ===================================================================== *)

Module Json.

Import Eff.

(** A parsed JSON document, as [response.json()] returns it.  An object
    is the list of its members in document order, with distinct keys. *)
#[local] Set Warnings "-register-all".
Inductive json : Type :=
| JNull
| JBool (b : bool)
| JNumber (n : Z)
| JString (s : string)
| JArray (items : list json)
| JObject (members : list (string * json)).
#[local] Set Warnings "register-all".

(** Truthiness of a Python value. *)
Definition truthy (j : json) : bool :=
  match j with
  | JNull => false
  | JBool b => b
  | JNumber n => negb (n =? 0)
  | JString s => Py.nonempty s
  | JArray items => match items with [] => false | _ => true end
  | JObject members => match members with [] => false | _ => true end
  end.

(** [repr] of a [str]: in single quotes, or in double quotes (code 34)
    when the string holds a single quote and no double quote; the
    quote, the backslash, TAB, LF and CR are escaped with a backslash,
    and the other characters that cannot be printed are written as
    [\xhh]. *)
Definition double_quote : ascii := "034"%char.
Definition single_quote : ascii := "039"%char.

Definition printable (c : ascii) : bool :=
  let n := Py.ord c in
  ((32 <=? n) && (n <? 127) || (161 <=? n) && negb (n =? 173))%nat.

Definition hex_digit (n : nat) : ascii :=
  nth n (String.list_ascii_of_string "0123456789abcdef") "0"%char.

Definition escape (quote c : ascii) : string :=
  if Ascii.eqb c quote || Ascii.eqb c "\" then String "\" (String c "")
  else if Ascii.eqb c "009" then "\t"
  else if Ascii.eqb c "010" then "\n"
  else if Ascii.eqb c "013" then "\r"
  else if printable c then String c ""
  else
    String "\" (String "x"
      (String (hex_digit (Py.ord c / 16))
         (String (hex_digit (Py.ord c mod 16)) ""))).

Fixpoint escape_all (quote : ascii) (s : string) : string :=
  match s with
  | "" => ""
  | String c r => escape quote c +:+ escape_all quote r
  end.

Definition repr_str (s : string) : string :=
  let quote :=
    if Py.contains_char single_quote s
       && negb (Py.contains_char double_quote s)
    then double_quote else single_quote in
  String quote (escape_all quote s +:+ String quote "").

(** [str] of an [int]: its decimal digits, unless there are more than
    4300 of them, which is a [ValueError]. *)
Definition str_of_int (n : Z) : option string :=
  if 10 ^ 4300 <=? Z.abs n then None
  else Some (DecimalString.NilZero.string_of_int (Z.to_int n)).

(** [", ".join(parts)]. *)
Fixpoint join_comma (parts : list string) : string :=
  match parts with
  | [] => ""
  | [part] => part
  | part :: rest => part +:+ ", " +:+ join_comma rest
  end.

(** [repr] of a value; [None] when an [int] in it has too many
    digits. *)
Fixpoint py_repr (j : json) : option string :=
  match j with
  | JNull => Some "None"
  | JBool b => Some (if b then "True" else "False")
  | JNumber n => str_of_int n
  | JString s => Some (repr_str s)
  | JArray items =>
      match
        (fix each (l : list json) : option (list string) :=
           match l with
           | [] => Some []
           | x :: l' =>
               match py_repr x, each l' with
               | Some a, Some b => Some (a :: b)
               | _, _ => None
               end
           end) items
      with
      | Some parts => Some ("[" +:+ join_comma parts +:+ "]")
      | None => None
      end
  | JObject members =>
      match
        (fix each (l : list (string * json)) : option (list string) :=
           match l with
           | [] => Some []
           | (k, v) :: l' =>
               match py_repr v, each l' with
               | Some a, Some b => Some ((repr_str k +:+ ": " +:+ a) :: b)
               | _, _ => None
               end
           end) members
      with
      | Some parts => Some ("{" +:+ join_comma parts +:+ "}")
      | None => None
      end
  end.

(** [str(j)], which is what an f-string puts for [{j}]: a [str] as it
    is, any other value as its [repr]. *)
Definition py_str (j : json) : outcome string :=
  match j with
  | JString s => Returned s
  | _ =>
      match py_repr j with
      | Some text => Returned text
      | None =>
          Raised (ValueError
                    "Exceeds the limit (4300 digits) for integer string conversion")
      end
  end.

(** [d.get(key)] on the members of a [dict]. *)
Fixpoint lookup (key : string) (members : list (string * json))
  : option json :=
  match members with
  | [] => None
  | (k, v) :: rest => if String.eqb k key then Some v else lookup key rest
  end.

(** [d.get(key, default)]: a method of [dict] only. *)
Definition dict_get (d : json) (key : string) (default : json)
  : outcome json :=
  match d with
  | JObject members =>
      Returned (match lookup key members with
                | Some v => v
                | None => default
                end)
  | _ => Raised (AttributeError "object has no attribute get")
  end.

(** What [for x in j] goes through: the items of a list, the keys of a
    [dict], the characters of a [str]; other values are not iterable. *)
Definition iterate (j : json) : outcome (list json) :=
  match j with
  | JArray items => Returned items
  | JObject members => Returned (map (fun kv => JString (fst kv)) members)
  | JString s =>
      Returned (map (fun c => JString (String c ""))
                  (String.list_ascii_of_string s))
  | _ => Raised (TypeError "object is not iterable")
  end.

End Json.

Module Http.

Import Json Eff.

Record request : Type := {
  method : string;
  url : string;
  params : list (string * json);
}.

(** What a client reads of a response: the status code, the
    [Retry-After] header if there is one, and the body. *)
Record response (B : Type) : Type := {
  status_code : Z;
  retry_after : option string;
  body : B;
}.
Arguments status_code {B} _.
Arguments retry_after {B} _.
Arguments body {B} _.

(** One exchange: [session.request] raises a [RequestException]
    (time-out, connection error, ...) or returns a response. *)
Inductive reply (B : Type) : Type :=
| Fails (msg : string)
| Responds (resp : response B).
Arguments Fails {B} msg.
Arguments Responds {B} resp.

(** [response.raise_for_status()]: 4xx and 5xx raise [HTTPError]. *)
Definition is_error_status (status : Z) : bool :=
  (400 <=? status) && (status <? 600).

Definition raise_for_status {S B} (resp : response B) : M S unit :=
  if is_error_status (status_code resp)
  then raise (RequestException "HTTPError")
  else ret tt.

(** [int(s)] for a [str].  The white space that [int] skips around the
    number is TAB, LF, VT, FF, CR, SPACE, NEL and NBSP; the separators
    FS, GS, RS and US, which [str.strip] removes, are not part of it. *)
Definition int_space (c : ascii) : bool :=
  let n := Py.ord c in
  ((9 <=? n) && (n <=? 13) || (n =? 32) || (n =? 133) || (n =? 160))%nat.

Fixpoint skip_space (s : string) : string :=
  match s with
  | "" => ""
  | String c r => if int_space c then skip_space r else s
  end.

Definition digit_of (c : ascii) : option Z :=
  let n := Py.ord c in
  if ((48 <=? n) && (n <=? 57))%nat then Some (Z.of_nat (n - 48)) else None.

(** The run of digits at the head of [s], where single underscores may
    separate digits: its value, the number of its digits, and what
    follows it.  There is no such run when [s] begins with no digit, or
    when an underscore in it is not followed by a digit. *)
Fixpoint scan_digits (acc : Z) (count : nat) (after_digit : bool) (s : string)
  : option (Z * nat * string) :=
  match s with
  | "" => if after_digit then Some (acc, count, "") else None
  | String c r =>
      if Ascii.eqb c "_" then
        if after_digit then scan_digits acc count false r else None
      else
        match digit_of c with
        | Some d => scan_digits (10 * acc + d) (S count) true r
        | None => if after_digit then Some (acc, count, s) else None
        end
  end.

(** [sys.get_int_max_str_digits()], as the interpreter starts. *)
Definition max_str_digits : nat := 4300.

(** White space, an optional sign, the digits, white space.  The
    number of digits is checked as soon as the digits are read, before
    what follows them. *)
Definition py_int (s : string) : outcome Z :=
  let invalid := Raised (ValueError "invalid literal for int() with base 10") in
  let number (sign : Z) (r : string) :=
    match scan_digits 0 0 false r with
    | Some (n, count, rest) =>
        if (max_str_digits <? count)%nat then
          Raised (ValueError
                    "Exceeds the limit (4300 digits) for integer string conversion")
        else
          match skip_space rest with
          | "" => Returned (sign * n)
          | _ => invalid
          end
    | None => invalid
    end in
  match skip_space s with
  | String c r =>
      if Ascii.eqb c "+" then number 1 r
      else if Ascii.eqb c "-" then number (-1) r
      else number 1 (String c r)
  | "" => invalid
  end.

(** [int(response.headers.get("Retry-After", default))]: the header is
    a string when present; the default is already an integer. *)
Definition int_retry_after {B} (resp : response B) (default : Z)
  : outcome Z :=
  match retry_after resp with
  | Some header => py_int header
  | None => Returned default
  end.

End Http.

(* ===================================================================== *)
(** * The pacing state shared by both clients *)
(* ===================================================================== *)

Module Paced.

Import Eff Http.
Local Open Scope eff_scope.

(** One client instance together with the time it lives in.

    [clock] is the time that has passed, in milliseconds, and [ticks]
    counts the clock events so far.  [last_request_time] is the field
    of the instance.  [sent] counts the requests issued, and [stamps]
    lists, newest first, the values assigned to [last_request_time]:
    both are history kept for the statements, never read by the code. *)
Record paced : Type := {
  clock : Z;
  ticks : nat;
  last_request_time : Z;
  sent : nat;
  stamps : list Z;
}.

(** A client just constructed, at clock time [t]. *)
Definition fresh (t : Z) : paced :=
  {| clock := t; ticks := 0; last_request_time := 0; sent := 0; stamps := [] |}.

(** One clock event, as the world decides it: [late] is the time, in
    milliseconds, that the event takes beyond what was asked for, and
    [skew] is how far the system clock is then ahead of the time that
    has passed (behind it, when negative).  The system clock can be set
    at any moment, so the skew may move either way from one event to
    the next. *)
Record beat : Type := {
  late : N;
  skew : Z;
}.

(** Control flow out of the body of a [for] loop. *)
Inductive loop_exit (A : Type) : Type :=
| Continue
| Return (a : A).
Arguments Continue {A}.
Arguments Return {A} a.

Section World.

(** The world: [lag k] is what the [k]-th clock event brings, and
    [transport k r] is the answer to request [r] when it is the [k]-th
    one sent. *)
Context {B : Type}.
Variable lag : nat -> beat.
Variable transport : nat -> request -> reply B.

(** Time passes. *)
Definition tick (s : paced) : paced :=
  {| clock := clock s + Z.of_N (late (lag (ticks s)));
     ticks := S (ticks s);
     last_request_time := last_request_time s;
     sent := sent s;
     stamps := stamps s |}.

(** [time.time()], in milliseconds: what the system clock reads. *)
Definition time_time : M paced Z :=
  fun s => let s' := tick s in (Returned (clock s' + skew (lag (ticks s))), s').

(** [time.sleep(d)] for the [float] that [_rate_limit] computes, [d] in
    milliseconds: a negative length is a [ValueError]; otherwise at
    least [d] passes.  The length is below the interval plus the time
    by which the system clock was set back since the last request,
    which is taken to be within what [time.sleep] can hold. *)
Definition time_sleep (d : Z) : M paced unit :=
  fun s =>
    if d <? 0 then (Raised (ValueError "sleep length must be non-negative"), s)
    else (Returned tt,
          tick {| clock := clock s + d;
                  ticks := ticks s;
                  last_request_time := last_request_time s;
                  sent := sent s;
                  stamps := stamps s |}).

(** [time.sleep(n)] for an [int] number of seconds, as the retry loops
    call it.  The length is first turned into a count of nanoseconds in
    64 bits, which is an [OverflowError] when it does not fit: beyond
    9223372036 seconds either way.  What the operating system makes of
    a deadline that its own clock cannot hold is not part of the
    embedding. *)
Definition max_sleep_seconds : Z := 9223372036.

Definition sleep_seconds (n : Z) : M paced unit :=
  if (n <? - max_sleep_seconds) || (max_sleep_seconds <? n)
  then raise (OverflowError "timestamp too large to convert to C _PyTime_t")
  else time_sleep (1000 * n).

(** [self.session.request(...)]. *)
Definition session_request (r : request) : M paced (response B) :=
  fun s =>
    let s' := tick {| clock := clock s;
                      ticks := ticks s;
                      last_request_time := last_request_time s;
                      sent := S (sent s);
                      stamps := stamps s |} in
    match transport (sent s) r with
    | Fails msg => (Raised (RequestException msg), s')
    | Responds resp => (Returned resp, s')
    end.

(** [self.last_request_time = t]. *)
Definition set_last_request_time (t : Z) : M paced unit :=
  modify (fun s =>
    {| clock := clock s;
       ticks := ticks s;
       last_request_time := t;
       sent := sent s;
       stamps := t :: stamps s |}).

(** [_rate_limit], the same code in both classes. *)
Definition _rate_limit (min_interval : Z) : M paced unit :=
  let* current_time := time_time in
  let* s := get in
  let time_since_last := current_time - last_request_time s in
  (if time_since_last <? min_interval
   then let sleep_time := min_interval - time_since_last in
        time_sleep sleep_time
   else ret tt) >>
  let* t := time_time in
  set_last_request_time t.

End World.

End Paced.

(* ===================================================================== *)
(** * readwise_api.py: [ReadwiseAPI] *)
(* ===================================================================== *)

Module ReadwiseAPI.

Import Json Eff Http Paced.
Local Open Scope eff_scope.

(** 3.1 seconds. *)
Definition min_request_interval : Z := 3100.

Definition max_retries : nat := 5.
Definition base_delay : Z := 2.

Definition base_url : string := "https://readwise.io/api/v3".

(** [tag_list] as [get_documents] computes it from [doc_tags]. *)
Definition tag_list (doc_tags : json) : list json :=
  match doc_tags with
  | JObject members => map (fun kv => JString (fst kv)) members
  | JArray items => items
  | _ => []
  end.

(** [tag in tag_list]: a [str] equals only an equal [str]. *)
Definition tag_in (tag : string) (tags : list json) : bool :=
  existsb (fun j => match j with
                    | JString s => String.eqb tag s
                    | _ => false
                    end) tags.

(** The loop [for doc in results] with its [append]s. *)
Fixpoint keep_tagged (tag : string) (docs : list json)
    (all_documents : list json) : outcome (list json) :=
  match docs with
  | [] => Returned all_documents
  | doc :: rest =>
      match dict_get doc "tags" (JObject []) with
      | Raised e => Raised e
      | Returned doc_tags =>
          keep_tagged tag rest
            (if tag_in tag (tag_list doc_tags)
             then all_documents ++ [doc] else all_documents)
      end
  end.

(** [results[0]]: the first item of a list or the first character of a
    [str]; a [dict] is looked up at the key [0], which no JSON object
    has; other values cannot be subscripted.  An [IndexError] is raised
    as its base class. *)
Definition first_item (j : json) : outcome json :=
  match j with
  | JArray (x :: _) => Returned x
  | JArray [] => Raised (Exception "list index out of range")
  | JString (String c _) => Returned (JString (String c ""))
  | JString "" => Raised (Exception "string index out of range")
  | JObject _ => Raised (KeyError "0")
  | _ => Raised (TypeError "object is not subscriptable")
  end.

Section Client.

Variable lag : nat -> beat.
Variable transport : nat -> request -> reply json.

(** The [try] statement in the loop of [_make_request]. *)
Definition try_request (r : request) (attempt : nat)
  : M paced (loop_exit (response json)) :=
  try_except
    (let* response := session_request lag transport r in
     if status_code response =? 429 then
       let* retry_after :=
         lift (int_retry_after response (base_delay * 2 ^ Z.of_nat attempt)) in
       sleep_seconds lag retry_after >>
       ret Continue
     else
       raise_for_status response >>
       ret (Return response))
    is_RequestException
    (fun e =>
       if (attempt =? max_retries - 1)%nat then raise e
       else
         let delay := base_delay * 2 ^ Z.of_nat attempt in
         sleep_seconds lag delay >>
         ret Continue).

(** The body of the loop of [_make_request]. *)
Definition attempt_once (r : request) (attempt : nat)
  : M paced (loop_exit (response json)) :=
  _rate_limit lag min_request_interval >>
  try_request r attempt.

(** [for attempt in todo: ...], then the [raise] after the loop. *)
Fixpoint attempts (r : request) (todo : list nat)
  : M paced (response json) :=
  match todo with
  | [] => raise (Exception "Max retries exceeded for Readwise API")
  | attempt :: rest =>
      let* x := attempt_once r attempt in
      match x with
      | Continue => attempts r rest
      | Return response => ret response
      end
  end.

Definition _make_request (r : request) : M paced (response json) :=
  attempts r (seq 0 max_retries).

(** The request of one turn of the [while] loop of [get_documents]:
    the cursor is sent along when it is truthy. *)
Definition list_request (location : string) (page_cursor : json) : request :=
  {| method := "GET";
     url := base_url +:+ "/list/";
     params :=
       [("location", JString location); ("withHtmlContent", JString "true")]
       ++ (if truthy page_cursor then [("pageCursor", page_cursor)] else []) |}.

(** One turn of the [while True] loop, and the turns that follow it.
    [fuel] bounds the number of turns; [None] is returned when it runs
    out with the loop still going. *)
Fixpoint fetch_pages (fuel : nat) (location tag : string)
    (page_cursor : json) (all_documents : list json)
  : M paced (option (list json)) :=
  match fuel with
  | O => ret None
  | S fuel' =>
      let* response := _make_request (list_request location page_cursor) in
      let data := body response in
      let* results := lift (dict_get data "results" (JArray [])) in
      let* docs := lift (iterate results) in
      let* all_documents := lift (keep_tagged tag docs all_documents) in
      let* page_cursor := lift (dict_get data "nextPageCursor" JNull) in
      if negb (truthy page_cursor) then ret (Some all_documents)
      else fetch_pages fuel' location tag page_cursor all_documents
  end.

(** [for location in locations: ...]. *)
Fixpoint fetch_locations (fuel : nat) (locations : list string)
    (tag : string) (all_documents : list json)
  : M paced (option (list json)) :=
  match locations with
  | [] => ret (Some all_documents)
  | location :: rest =>
      let* fetched := fetch_pages fuel location tag JNull all_documents in
      match fetched with
      | None => ret None
      | Some all_documents => fetch_locations fuel rest tag all_documents
      end
  end.

Definition get_documents (fuel : nat) (locations : list string)
    (tag : string) : M paced (option (list json)) :=
  fetch_locations fuel locations tag [].

(** The request of [get_document_content]. *)
Definition content_request (doc_id : string) : request :=
  {| method := "GET";
     url := base_url +:+ "/list/";
     params := [("id", JString doc_id); ("withHtmlContent", JString "true")] |}.

(** [get_document_content]; where it reads [data["results"]], that is
    the value that [data.get("results")] has just returned. *)
Definition get_document_content (doc_id : string) : M paced json :=
  let* response := _make_request (content_request doc_id) in
  let data := body response in
  let* results := lift (dict_get data "results" JNull) in
  if truthy results then
    let* first := lift (first_item results) in
    lift (dict_get first "html_content" (JString ""))
  else ret (JString "").

End Client.

End ReadwiseAPI.

(* ===================================================================== *)
(** * converter.py: [RateLimitedImageFetcher] *)
(* ===================================================================== *)

Module RateLimitedImageFetcher.

Import Eff Http Paced.
Local Open Scope eff_scope.

(** A streamed body: [iter_content] delivers the chunks, or breaks with
    a [RequestException] on the way. *)
Inductive stream : Type :=
| Chunks (content : list byte)
| Broken (msg : string).

(** 1.0 second. *)
Definition min_interval : Z := 1000.

Definition max_retries : nat := 3.
Definition base_delay : Z := 2.

Section Client.

Variable lag : nat -> beat.
Variable transport : nat -> request -> reply stream.

(** [self.session.get(url, timeout=timeout, stream=True)]. *)
Definition session_get (url : string) : M paced (response stream) :=
  session_request lag transport {| method := "GET"; url := url; params := [] |}.

(** The loop over [response.iter_content(chunk_size=8192)]. *)
Definition read_content (resp : response stream) : M paced (list byte) :=
  match body resp with
  | Chunks content => ret content
  | Broken msg => raise (RequestException msg)
  end.

(** The [try] statement in the loop of [fetch_image]. *)
Definition try_fetch (url : string) (attempt : nat)
  : M paced (loop_exit (option (list byte))) :=
  try_except
    (let* response := session_get url in
     if status_code response =? 429 then
       let* retry_after :=
         lift (int_retry_after response (base_delay * 2 ^ Z.of_nat attempt)) in
       sleep_seconds lag retry_after >>
       ret Continue
     else if status_code response =? 403 then
       ret (Return None)
     else
       raise_for_status response >>
       let* content := read_content response in
       ret (Return (Some content)))
    is_RequestException
    (fun e =>
       if (attempt =? max_retries - 1)%nat then ret (Return None)
       else
         let delay := base_delay * 2 ^ Z.of_nat attempt in
         sleep_seconds lag delay >>
         ret Continue).

(** The body of the loop of [fetch_image]. *)
Definition attempt_once (url : string) (attempt : nat)
  : M paced (loop_exit (option (list byte))) :=
  _rate_limit lag min_interval >>
  try_fetch url attempt.

(** [for attempt in todo: ...], then the [return None] after the loop. *)
Fixpoint attempts (url : string) (todo : list nat)
  : M paced (option (list byte)) :=
  match todo with
  | [] => ret None
  | attempt :: rest =>
      let* x := attempt_once url attempt in
      match x with
      | Continue => attempts url rest
      | Return result => ret result
      end
  end.

Definition fetch_image (url : string) : M paced (option (list byte)) :=
  attempts url (seq 0 max_retries).

End Client.

End RateLimitedImageFetcher.

(* ===================================================================== *)
(** * converter.py: [DocumentConverter] *)
(* ===================================================================== *)

Module DocumentConverter.

(** The character class of the first [re.sub]: the nine characters
    less-than, greater-than, colon, double quote (code 34), slash,
    backslash, bar, question mark and star. *)
Definition invalid_char (c : ascii) : bool :=
  existsb (Ascii.eqb c)
    ["<"; ">"; ":"; "034"; "/"; "\"; "|"; "?"; "*"]%char.

Definition clean_filename (title : string) : string :=
  let cleaned := Py.remove_class invalid_char title in
  let cleaned := Py.strip (Py.collapse_ws false cleaned) in
  if Py.nonempty cleaned then cleaned else "Untitled".

(** [bytes.startswith] and [needle in bytes]. *)
Fixpoint bytes_startswith (p s : list byte) : bool :=
  match p, s with
  | [], _ => true
  | a :: p', b :: s' => Byte.eqb a b && bytes_startswith p' s'
  | _ :: _, [] => false
  end.

Fixpoint bytes_contains (needle hay : list byte) : bool :=
  bytes_startswith needle hay
  || match hay with
     | [] => false
     | _ :: hay' => bytes_contains needle hay'
     end.

(** The byte-string literals of [_determine_image_extension]. *)
Definition magic_png : list byte := x89 :: String.list_byte_of_string "PNG".
Definition magic_jpeg : list byte := [xff; xd8; xff].
Definition magic_gif : list byte := String.list_byte_of_string "GIF".
Definition magic_riff : list byte := String.list_byte_of_string "RIFF".
Definition magic_webp : list byte := String.list_byte_of_string "WEBP".
Definition magic_svg : list byte := String.list_byte_of_string "<svg".

Definition known_extensions : list string :=
  ["png"; "gif"; "webp"; "svg"; "jpeg"; "bmp"].

Definition _determine_image_extension
    (url : string) (content : list byte) : string :=
  if bytes_startswith magic_png content then "png"
  else if bytes_startswith magic_jpeg content then "jpg"
  else if bytes_startswith magic_gif content then "gif"
  else if bytes_startswith magic_riff content
          && bytes_contains magic_webp (take 12 content) then "webp"
  else if bytes_startswith magic_svg content
          || bytes_contains magic_svg (take 100 content) then "svg"
  else
    let by_url :=
      if Py.contains_char "." url then
        let url_ext :=
          Py.lower (Py.first_piece (Py.split "?"
                      (Py.last_piece (Py.split "." url)))) in
        if existsb (String.eqb url_ext) known_extensions
        then Some (if String.eqb url_ext "jpeg" then "jpg" else url_ext)
        else None
      else None in
    match by_url with
    | Some ext => ext
    | None => "jpg"
    end.

(** The [author] argument of [html_to_epub]: a [str], or a value of
    another type that is true.  No argument, [None] and the other
    values that are false are [None] here. *)
Inductive author_value : Type :=
| Named (a : string)
| Other (j : Json.json).

(** An [img] element, as far as its attributes are read or written. *)
Record img : Type := {
  src : option string;
  style : option string;
}.

(** What [html_to_epub] hands to [epub.write_epub]: the metadata (the
    author when it is a [str] to be named), the embedded images, and
    the chapter (its heading, its byline, and the
    [img] elements of its body; [None] when there was no content). *)
Record book : Type := {
  book_title : string;
  book_authors : list string;
  book_images : list (string * list byte);
  chapter_heading : string;
  chapter_byline : option string;
  chapter_imgs : option (list img);
}.

(** A [DocumentConverter]: its image fetcher, and the files written. *)
Record converter : Type := {
  image_fetcher : Paced.paced;
  written : list (string * book);
}.

Import Eff.
Local Open Scope eff_scope.

(** [str(n)] for a counter. *)
Definition str_of_nat (n : nat) : string :=
  DecimalString.NilEmpty.string_of_uint (Nat.to_uint n).

Section Convert.

Variable lag : nat -> Paced.beat.
Variable transport :
  nat -> Http.request -> Http.reply RateLimitedImageFetcher.stream.

(** [BeautifulSoup(html_content, "html.parser").find_all("img")]. *)
Variable find_all_img : string -> list img.

(** Whether the file cannot be written at a path. *)
Variable write_fails : string -> bool.

Definition on_fetcher {A} (m : M Paced.paced A) : M converter A :=
  zoom image_fetcher
    (fun f c => {| image_fetcher := f; written := written c |}) m.

(** [src and src.startswith(("http://", "https://"))]. *)
Definition is_remote (i : img) : option string :=
  match src i with
  | Some s =>
      if Py.nonempty s
         && (Py.startswith "http://" s || Py.startswith "https://" s)
      then Some s else None
  | None => None
  end.

(** The loop [for img in soup.find_all("img")]: the elements as they
    are left, and the images added to the book.  Nothing in the inner
    [try] raises here, so its [except] is left out. *)
Fixpoint embed_images (imgs : list img) (img_counter : nat)
    (images : list (string * list byte))
  : M Paced.paced (list img * list (string * list byte)) :=
  match imgs with
  | [] => ret ([], images)
  | i :: rest =>
      match is_remote i with
      | Some s =>
          let* content := RateLimitedImageFetcher.fetch_image lag transport s in
          match content with
          | Some (b :: bs) =>
              let ext := _determine_image_extension s (b :: bs) in
              let img_name := "img_" +:+ str_of_nat img_counter +:+ "." +:+ ext in
              let* done :=
                embed_images rest (S img_counter)
                  (images ++ [(img_name, b :: bs)]) in
              ret ({| src := Some img_name;
                      style := Some "max-width: 100%; height: auto;" |}
                   :: fst done, snd done)
          | _ =>
              let* done := embed_images rest img_counter images in
              ret (i :: fst done, snd done)
          end
      | None =>
          let* done := embed_images rest img_counter images in
          ret (i :: fst done, snd done)
      end
  end.

(** [epub.write_epub(str(output_path), book, {})].  The library
    catches the [OSError] of a write that fails and returns all the
    same, with no book at the path; an author that is not a [str]
    cannot be put into the metadata, which is a [TypeError]. *)
Definition write_epub (output_path : string) (b : book)
    (author : option author_value) : M converter unit :=
  match author with
  | Some (Other _) => raise (TypeError "Argument must be bytes or unicode")
  | _ =>
      if write_fails output_path then ret tt
      else modify (fun c => {| image_fetcher := image_fetcher c;
                               written := written c ++ [(output_path, b)] |})
  end.

(** The f-string of the byline, which has the [str] of the author. *)
Definition format_byline (author : option author_value) : M converter unit :=
  match author with
  | Some (Other j) => lift (Json.py_str j) >> ret tt
  | _ => ret tt
  end.

Definition html_to_epub (html_content title : string)
    (author : option author_value) (output_path : option string)
  : M converter string :=
  let output_path :=
    match output_path with
    | Some p => p
    | None => clean_filename title +:+ ".epub"
    end in
  let named_author :=
    match author with
    | Some (Named a) =>
        if Py.nonempty a && negb (String.eqb a "Unknown") then Some a else None
    | _ => None
    end in
  let* chapter :=
    if Py.nonempty html_content then
      let* done := on_fetcher (embed_images (find_all_img html_content) 0 []) in
      format_byline author >>
      ret (Some (fst done), snd done)
    else ret (None, []) in
  write_epub output_path
    {| book_title := title;
       book_authors := match named_author with Some a => [a] | None => [] end;
       book_images := snd chapter;
       chapter_heading := title;
       chapter_byline :=
         match fst chapter with
         | Some _ => named_author
         | None => None
         end;
       chapter_imgs := fst chapter |} author >>
  ret output_path.

End Convert.

End DocumentConverter.

(* ===================================================================== *)
(** * tracker.py: [ExportTracker] *)
(* ===================================================================== *)

Module ExportTracker.

Import Eff.
Local Open Scope eff_scope.

Definition LF : ascii := "010"%char.
Definition CR : ascii := "013"%char.

(** What is on disk at [tracker_file]. *)
Inductive ledger_file : Type :=
| Missing                          (* no such file *)
| Text (content : string)          (* UTF-8 text *)
| Undecodable (decoded tail : string) (reads : string -> nat).
    (* text, then bytes that are not UTF-8, then what has been appended
       since.  The file is read and decoded by blocks of 8192 bytes, and
       a block that cannot be decoded delivers nothing: iterating the
       file yields the first [reads tail] lines of [decoded], as the
       blocks fall, and then raises *)

(** An [ExportTracker].  The set [self.exported_docs] is held in two
    parts: [exported_docs] has its members that are [str], and
    [exported_others] the others, which are [None] or a number ([True]
    and [False] are the numbers 1 and 0 as members of a set). *)
Record tracker : Type := {
  tracker_file : ledger_file;
  exported_docs : gset string;
  exported_others : gset (option Z);
}.

(** [Path.exists]. *)
Definition file_exists (f : ledger_file) : bool :=
  match f with Missing => false | _ => true end.

(** The lines that iterating a text file yields (universal newlines:
    LF, CR and CR LF all end a line and are delivered as LF). *)
Fixpoint file_lines (s : string) : list string :=
  match s with
  | "" => []
  | String c r =>
      if Ascii.eqb c LF then String LF "" :: file_lines r
      else if Ascii.eqb c CR then
        match r with
        | String d r' =>
            if Ascii.eqb d LF then String LF "" :: file_lines r'
            else String LF "" :: file_lines r
        | "" => String LF "" :: file_lines r
        end
      else
        match file_lines r with
        | [] => [String c ""]
        | line :: lines => String c line :: lines
        end
  end.

(** [with Path.open(file) as f: for line in f: body line]. *)
Definition for_each_line {S}
    (f : ledger_file) (body : string -> M S unit) : M S unit :=
  match f with
  | Missing => raise (OSError "No such file or directory")
  | Text content => for_each (file_lines content) body
  | Undecodable decoded tail reads =>
      for_each (take (reads tail) (file_lines decoded)) body >>
      raise (UnicodeDecodeError "invalid start byte")
  end.

(** The longest prefix of [s] without a closing parenthesis, and what
    follows it. *)
Fixpoint span_group (s : string) : string * string :=
  match s with
  | "" => ("", "")
  | String c r =>
      if Ascii.eqb c ")" then ("", s)
      else let (body, rest) := span_group r in (String c body, rest)
  end.

(** [$] without [re.MULTILINE]: the end of the string, or just before a
    line feed that ends the string. *)
Definition at_end (s : string) : bool :=
  String.eqb s "" || String.eqb s (String LF "").

(** An anchored match of the pattern: an opening parenthesis, one or
    more characters other than a closing parenthesis (the group), a
    closing parenthesis, the end.  The greedy group takes the whole run
    up to the first closing parenthesis; giving characters back cannot
    help, as the next pattern item would face one of them. *)
Definition match_here (s : string) : option string :=
  match s with
  | String c r =>
      if Ascii.eqb c "(" then
        match span_group r with
        | (String g body, String _ rest) =>
            if at_end rest then Some (String g body) else None
        | _ => None
        end
      else None
  | "" => None
  end.

(** [re.search(pattern, s)] followed by [match.group(1)]: the leftmost
    position with an anchored match wins. *)
Fixpoint re_search_group (s : string) : option string :=
  match match_here s with
  | Some g => Some g
  | None =>
      match s with
      | "" => None
      | String _ r => re_search_group r
      end
  end.

(** The body of the loop of [load_exported_docs]. *)
Definition load_line (line : string) : M tracker unit :=
  let line := Py.strip line in
  if Py.nonempty line && negb (Py.startswith "#" line) then
    match re_search_group line with
    | Some doc_id =>
        modify (fun t => {| tracker_file := tracker_file t;
                            exported_docs := {[doc_id]} ∪ exported_docs t;
                            exported_others := exported_others t |})
    | None => ret tt
    end
  else ret tt.

Definition load_exported_docs : M tracker unit :=
  let* t := get in
  if negb (file_exists (tracker_file t)) then ret tt
  else
    try_except
      (for_each_line (tracker_file t) load_line)
      is_Exception
      (fun e => ret tt).

(** [ExportTracker(tracker_file)]. *)
Definition __init__ (file : ledger_file) : outcome unit * tracker :=
  load_exported_docs
    {| tracker_file := file; exported_docs := ∅; exported_others := ∅ |}.

Definition is_exported (doc_id : string) (t : tracker) : bool :=
  bool_decide (doc_id ∈ exported_docs t).

(** Opening in mode [a] and writing [entry]. *)
Definition append (f : ledger_file) (entry : string) : ledger_file :=
  match f with
  | Missing => Text entry
  | Text content => Text (content +:+ entry)
  | Undecodable decoded tail reads =>
      Undecodable decoded (tail +:+ entry) reads
  end.

(** [mark_exported] with a [str] for the identifier; [timestamp] is
    [datetime.now(tz=UTC).isoformat()]. *)
Definition mark_exported
    (timestamp : string) (doc_id title : string) : M tracker unit :=
  let entry :=
    timestamp +:+ " - " +:+ title +:+ " (" +:+ doc_id +:+ ")"
    +:+ String LF "" in
  modify (fun t => {| tracker_file := append (tracker_file t) entry;
                      exported_docs := exported_docs t;
                      exported_others := exported_others t |}) >>
  modify (fun t => {| tracker_file := tracker_file t;
                      exported_docs := {[doc_id]} ∪ exported_docs t;
                      exported_others := exported_others t |}).

(** A value that is not a [str], as a member of a set: lists and
    dictionaries cannot be hashed. *)
Definition set_member (j : Json.json) : option (option Z) :=
  match j with
  | Json.JNull => Some None
  | Json.JBool b => Some (Some (if b then 1 else 0))
  | Json.JNumber n => Some (Some n)
  | _ => None
  end.

(** [is_exported] and [mark_exported] with any value for the
    identifier, as [sync] calls them with [doc["id"]].  The entry has
    the [str] of the identifier; it is written before the identifier
    is added to the set, which is where a list or a dictionary
    raises. *)
Definition is_exported_any (doc_id : Json.json) (t : tracker) : outcome bool :=
  match doc_id with
  | Json.JString s => Returned (is_exported s t)
  | _ =>
      match set_member doc_id with
      | Some k => Returned (bool_decide (k ∈ exported_others t))
      | None => Raised (TypeError "unhashable type")
      end
  end.

Definition mark_exported_any
    (timestamp : string) (doc_id : Json.json) (title : string)
  : M tracker unit :=
  match doc_id with
  | Json.JString s => mark_exported timestamp s title
  | _ =>
      let* shown := lift (Json.py_str doc_id) in
      let entry :=
        timestamp +:+ " - " +:+ title +:+ " (" +:+ shown +:+ ")"
        +:+ String LF "" in
      modify (fun t => {| tracker_file := append (tracker_file t) entry;
                          exported_docs := exported_docs t;
                          exported_others := exported_others t |}) >>
      match set_member doc_id with
      | Some k =>
          modify (fun t => {| tracker_file := tracker_file t;
                              exported_docs := exported_docs t;
                              exported_others := {[k]} ∪ exported_others t |})
      | None => raise (TypeError "unhashable type")
      end
  end.

End ExportTracker.

(* ===================================================================== *)
(** * uploader.py: [RemarkableUploader] *)
(* ===================================================================== *)

Module RemarkableUploader.

Import Eff.
Local Open Scope eff_scope.

(** How [subprocess.run(cmd, check=True)] ends: exit status zero, a
    non-zero exit status ([CalledProcessError]), or no process at all
    ([FileNotFoundError] and other [OSError]s). *)
Inductive run_result : Type :=
| Exit0
| ExitNonzero
| NotRun.

(** The tablet: the files put there, as (folder, name), oldest first;
    and the number of [rmapi] runs so far. *)
Record uploader : Type := {
  folder : string;
  device : list (string * string);
  runs : nat;
}.

Section Upload.

(** [rmapi k cmd]: the [k]-th run of [rmapi], with arguments [cmd]. *)
Variable rmapi : nat -> list string -> run_result.

(** [subprocess.run([rmapi_path, "put", name, folder], check=True)]. *)
Definition run_put (name : string) : M uploader unit :=
  fun u =>
    let counted d := {| folder := folder u; device := d; runs := S (runs u) |} in
    match rmapi (runs u) ["put"; name; folder u] with
    | Exit0 => (Returned tt, counted (device u ++ [(folder u, name)]))
    | ExitNonzero =>
        (Raised (CalledProcessError "non-zero exit status"), counted (device u))
    | NotRun => (Raised (OSError "No such file or directory"), counted (device u))
    end.

(** [upload_file(file_path)], given [file_path.name]. *)
Definition upload_file (name : string) : M uploader bool :=
  try_except
    (run_put name >> ret true)
    is_CalledProcessError
    (fun e => ret false).

End Upload.

End RemarkableUploader.

(* ===================================================================== *)
(** * sync.py: [ReadwiseRemarkableSync] *)
(* ===================================================================== *)

Module ReadwiseRemarkableSync.

Import Json Eff.
Local Open Scope eff_scope.

(** The orchestrator with its collaborators; [downloads] counts the PDF
    downloads and [exports] the ledger entries, for the oracles. *)
Record sync_state : Type := {
  tracker : ExportTracker.tracker;
  readwise : Paced.paced;
  converter : DocumentConverter.converter;
  uploader : RemarkableUploader.uploader;
  downloads : nat;
}.

Definition on_tracker {A} (m : M ExportTracker.tracker A) : M sync_state A :=
  zoom tracker
    (fun t w => {| tracker := t; readwise := readwise w;
                   converter := converter w; uploader := uploader w;
                   downloads := downloads w |}) m.

Definition on_readwise {A} (m : M Paced.paced A) : M sync_state A :=
  zoom readwise
    (fun r w => {| tracker := tracker w; readwise := r;
                   converter := converter w; uploader := uploader w;
                   downloads := downloads w |}) m.

Definition on_converter {A} (m : M DocumentConverter.converter A)
  : M sync_state A :=
  zoom converter
    (fun c w => {| tracker := tracker w; readwise := readwise w;
                   converter := c; uploader := uploader w;
                   downloads := downloads w |}) m.

Definition on_uploader {A} (m : M RemarkableUploader.uploader A)
  : M sync_state A :=
  zoom uploader
    (fun u w => {| tracker := tracker w; readwise := readwise w;
                   converter := converter w; uploader := u;
                   downloads := downloads w |}) m.

(** [doc[key]]. *)
Definition subscript (doc : json) (key : string) : outcome json :=
  match doc with
  | JObject members =>
      match lookup key members with
      | Some v => Returned v
      | None => Raised (KeyError key)
      end
  | _ => Raised (TypeError "object is not subscriptable")
  end.

(** A value used where the code needs a [str] (a pattern substitution,
    markup to parse). *)
Definition expect_str (j : json) : outcome string :=
  match j with
  | JString s => Returned s
  | _ => Raised (TypeError "expected string")
  end.

(** [author] as [html_to_epub] receives it. *)
Definition author_of (j : json) : option DocumentConverter.author_value :=
  match j with
  | JString s => Some (DocumentConverter.Named s)
  | _ => if truthy j then Some (DocumentConverter.Other j) else None
  end.

Definition is_pdf (category : json) : bool :=
  match category with
  | JString s => String.eqb s "pdf"
  | _ => false
  end.

Section Sync.

Variable lag_api : nat -> Paced.beat.
Variable transport_api : nat -> Http.request -> Http.reply json.
Variable lag_img : nat -> Paced.beat.
Variable transport_img :
  nat -> Http.request -> Http.reply RateLimitedImageFetcher.stream.
Variable find_all_img : string -> list DocumentConverter.img.
Variable write_fails : string -> bool.
Variable rmapi : nat -> list string -> RemarkableUploader.run_result.

(** Whether the [k]-th PDF download (request, status check and writing
    the file) goes through. *)
Variable download_ok : nat -> json -> bool.

(** [datetime.now(tz=UTC).isoformat()] when the ledger has [k] lines
    in memory. *)
Variable timestamp : nat -> string.

(** The loop bound of [get_documents]. *)
Variable fuel : nat.

(** The configuration. *)
Variable locations : list string.
Variable tag : string.

Definition temp (name : string) : string := "temp/" +:+ name.

Definition download_pdf (source_url : json) : M sync_state unit :=
  fun w =>
    let w' := {| tracker := tracker w; readwise := readwise w;
                 converter := converter w; uploader := uploader w;
                 downloads := S (downloads w) |} in
    if download_ok (downloads w) source_url then (Returned tt, w')
    else (Raised (RequestException "download failed"), w').

(** [self.tracker.mark_exported(doc_id, title)], where the title is the
    [str] that [clean_filename] has accepted. *)
Definition mark_exported (doc_id : json) (title : string)
  : M sync_state unit :=
  on_tracker
    (let* t := get in
     ExportTracker.mark_exported_any
       (timestamp (size (ExportTracker.exported_docs t))) doc_id title).

Definition _process_document (doc : json) : M sync_state unit :=
  let* doc_id := lift (subscript doc "id") in
  let* title := lift (subscript doc "title") in
  let* author := lift (Json.dict_get doc "author" (JString "Unknown")) in
  let* category :=
    lift (Json.dict_get doc "category" (JString "article")) in
  let* title_str := lift (expect_str title) in
  let clean_title := DocumentConverter.clean_filename title_str in
  if is_pdf category then
    let* source_url := lift (Json.dict_get doc "source_url" JNull) in
    if negb (truthy source_url) then ret tt
    else
      let pdf_name := clean_title +:+ ".pdf" in
      try_except
        (download_pdf source_url >>
         let* upload_success :=
           on_uploader (RemarkableUploader.upload_file rmapi pdf_name) in
         if upload_success then mark_exported doc_id title_str
         else ret tt)
        is_Exception
        (fun e => ret tt)
  else
    let* html_content :=
      lift (Json.dict_get doc "html_content" (JString "")) in
    if negb (truthy html_content) then ret tt
    else
      let epub_name := clean_title +:+ ".epub" in
      let* converted :=
        try_except
          (let* html := lift (expect_str html_content) in
           on_converter
             (DocumentConverter.html_to_epub lag_img transport_img
                find_all_img write_fails html title_str (author_of author)
                (Some (temp epub_name))) >>
           ret true)
          is_Exception
          (fun e => ret false) in
      if negb converted then ret tt
      else
        let* upload_success :=
          on_uploader (RemarkableUploader.upload_file rmapi epub_name) in
        if upload_success then mark_exported doc_id title_str
        else ret tt.

(** [_cleanup_temp_files]. *)
Definition _cleanup_temp_files : M sync_state unit :=
  on_converter
    (modify (fun c =>
       {| DocumentConverter.image_fetcher := DocumentConverter.image_fetcher c;
          DocumentConverter.written := [] |})).

(** The list comprehension that drops the exported documents. *)
Fixpoint new_documents (documents : list json) : M sync_state (list json) :=
  match documents with
  | [] => ret []
  | doc :: rest =>
      let* doc_id := lift (subscript doc "id") in
      let* t := get in
      let* exported :=
        lift (ExportTracker.is_exported_any doc_id (tracker t)) in
      let* others := new_documents rest in
      ret (if exported then others else doc :: others)
  end.

(** The loop over the new documents: the title is read for the
    progress message, outside the [try]; a document that fails inside
    it is passed over. *)
Definition process_all (docs : list json) : M sync_state unit :=
  for_each docs
    (fun doc =>
       lift (subscript doc "title") >>
       try_except (_process_document doc) is_Exception (fun e => ret tt)).

(** [sync], which returns [None] when [get_documents] has not ended
    within [fuel] pages. *)
Definition sync : M sync_state (option unit) :=
  fun w =>
    let body :=
      let* fetched :=
        on_readwise
          (ReadwiseAPI.get_documents lag_api transport_api fuel locations tag) in
      match fetched with
      | None => ret None
      | Some documents =>
          if negb (truthy (JArray documents)) then ret (Some tt)
          else
            let* todo := new_documents documents in
            if negb (truthy (JArray todo)) then ret (Some tt)
            else process_all todo >> ret (Some tt)
      end in
    let (r, w') := body w in
    (r, exec _cleanup_temp_files w').

End Sync.

End ReadwiseRemarkableSync.

(* ===================================================================== *)
(** * config.py: [Config] *)
(* ===================================================================== *)

Module Config.

Import Eff.

(** What the parsed file gives for an option of a section: nothing
    (the section or the option is missing), the value after
    interpolation, or a value that the interpolation of
    [ConfigParser.get] rejects. *)
Inductive held : Type :=
| Absent
| Value (v : string)
| Malformed.

Section Parsed.

(** The file as [ConfigParser.read] has parsed it. *)
Variable parsed : string -> string -> held.

(** [self.config.get(section, option)]: the errors of [configparser]
    are raised as their base class. *)
Definition config_get (section option : string) : outcome string :=
  match parsed section option with
  | Value v => Returned v
  | Absent => Raised (Exception "No section or no option")
  | Malformed => Raised (Exception "Bad value substitution")
  end.

(** [self.config.get(section, option, fallback=fallback)]. *)
Definition config_get_fallback (section option fallback : string)
  : outcome string :=
  match parsed section option with
  | Value v => Returned v
  | Absent => Returned fallback
  | Malformed => Raised (Exception "Bad value substitution")
  end.

Definition readwise_token : outcome string :=
  config_get "readwise" "access_token".

Definition rmapi_path : outcome string :=
  config_get_fallback "remarkable" "rmapi_path" "rmapi".

Definition remarkable_folder : outcome string :=
  config_get_fallback "remarkable" "folder" "Readwise".

Definition locations : outcome (list string) :=
  match config_get_fallback "sync" "locations" "new,later,shortlist" with
  | Returned locations_str =>
      Returned (map Py.strip (Py.split "," locations_str))
  | Raised e => Raised e
  end.

Definition tag : outcome string :=
  config_get_fallback "sync" "tag" "remarkable".

End Parsed.

End Config.

(* ===================================================================== *)
(** * Histories of a paced client *)
(* ===================================================================== *)

Module History.

Import Eff Http Paced.





(** How one exchange ends for [ReadwiseAPI._make_request]: with a
    [RequestException] (raised by the session or by [raise_for_status]),
    or with a response to return.  A 429 is neither. *)
Definition api_failure (rep : reply Json.json) : option string :=
  match rep with
  | Fails msg => Some msg
  | Responds resp =>
      if status_code resp =? 429 then None
      else if is_error_status (status_code resp) then Some "HTTPError"
      else None
  end.

Definition api_success (rep : reply Json.json)
  : option (response Json.json) :=
  match rep with
  | Fails _ => None
  | Responds resp =>
      if (status_code resp =? 429) || is_error_status (status_code resp)
      then None else Some resp
  end.

(** The same for [RateLimitedImageFetcher.fetch_image], where a 403 is
    not retried and a body may break while it is read. *)
Definition fetch_failure (rep : reply RateLimitedImageFetcher.stream)
  : option string :=
  match rep with
  | Fails msg => Some msg
  | Responds resp =>
      if status_code resp =? 429 then None
      else if status_code resp =? 403 then None
      else if is_error_status (status_code resp) then Some "HTTPError"
      else match body resp with
           | RateLimitedImageFetcher.Broken msg => Some msg
           | RateLimitedImageFetcher.Chunks _ => None
           end
  end.

Definition fetch_success (rep : reply RateLimitedImageFetcher.stream)
  : option (list byte) :=
  match rep with
  | Fails _ => None
  | Responds resp =>
      if (status_code resp =? 429) || (status_code resp =? 403)
         || is_error_status (status_code resp)
      then None
      else match body resp with
           | RateLimitedImageFetcher.Broken _ => None
           | RateLimitedImageFetcher.Chunks content => Some content
           end
  end.

(** [time.sleep(d)] returns, for a whole number [d] of seconds. *)
Definition sleep_returns (d : Z) : Prop :=
  forall lag s, eval (sleep_seconds lag d) s = Returned tt.

(** A 429 whose wait, read as the code reads it at this attempt, is a
    number of seconds [d] with which [time.sleep] returns. *)
Definition rate_limited {B} (base_delay : Z) (attempt : nat)
    (rep : reply B) (d : Z) : Prop :=
  exists resp,
    rep = Responds resp /\ status_code resp = 429
    /\ int_retry_after resp (base_delay * 2 ^ Z.of_nat attempt) = Returned d
    /\ sleep_returns d.

(** A reply on which [fetch_image] does not trip at this attempt: if
    it is a 429, its wait is a number of seconds with which
    [time.sleep] returns. *)
Definition waits_well {B} (base_delay : Z) (attempt : nat) (rep : reply B)
  : Prop :=
  forall resp,
    rep = Responds resp -> status_code resp = 429 ->
    exists d,
      int_retry_after resp (base_delay * 2 ^ Z.of_nat attempt) = Returned d
      /\ sleep_returns d.


(** A scripted transport: the [k]-th request gets the [k]-th reply of
    the script, and a connection error once the script is used up. *)
Definition scripted {B} (script : list (reply B))
  : nat -> request -> reply B :=
  fun k _ => nth k script (Fails "connection refused").

(** No lag at all, and a system clock that is never set. *)
Definition prompt : nat -> beat := fun _ => {| late := 0; skew := 0 |}.

(** The system clock is never set back: from one clock event to a
    later one it gains on the time that has passed, or keeps pace. *)
Definition never_set_back (lag : nat -> beat) : Prop :=
  forall i j, (i <= j)%nat -> skew (lag i) <= skew (lag j).



(** That a 429 costs no attempt, as a property of runs: putting one 429
    (without a [Retry-After] header) in front of the replies does not
    change how [_make_request] ends. *)
Definition budget_kept_after_429 : Prop :=
  forall lag (script : list (reply Json.json)) resp r t,
    status_code resp = 429 -> retry_after resp = None ->
    eval (ReadwiseAPI._make_request lag
            (scripted (Responds resp :: script)) r) (fresh t)
    = eval (ReadwiseAPI._make_request lag (scripted script) r) (fresh t).

(** Replies used in examples. *)
Definition too_many_requests {B} (b : B) : reply B :=
  Responds {| status_code := 429; retry_after := None; body := b |}.
Definition ok {B} (b : B) : reply B :=
  Responds {| status_code := 200; retry_after := None; body := b |}.
Definition timed_out {B} : reply B := Fails "timed out".

(** A 429 whose [Retry-After] is a date, and one whose [Retry-After]
    is negative. *)
Definition retry_at_date {B} (b : B) : reply B :=
  Responds {| status_code := 429;
              retry_after := Some "Wed, 21 Oct 2015 07:28:00 GMT";
              body := b |}.
Definition retry_in_the_past {B} (b : B) : reply B :=
  Responds {| status_code := 429; retry_after := Some "-1"; body := b |}.

(** A request for the listing endpoint, and an image address. *)
Definition sample_request : request :=
  {| method := "GET"; url := "https://readwise.io/api/v3/list/"; params := [] |}.
Definition sample_image : string := "https://example.com/figure.png".

End History.

(* ===================================================================== *)
(** * The listing endpoint, for the statements about [get_documents] *)
(* ===================================================================== *)

Module Listing.

Import Json Http.

(** A server that answers every request at once with status 200. *)
Definition reliable (server : request -> json)
  : nat -> request -> reply json :=
  fun _ r => History.ok (server r).

(** The listing client gets, to every request [r] and from every
    state, a response with the page [server r], after whatever retries
    that takes. *)
Definition answers (lag : nat -> Paced.beat)
    (transport : nat -> request -> reply json)
    (server : request -> json) : Prop :=
  forall r s,
    exists resp s',
      ReadwiseAPI._make_request lag transport r s = (Eff.Returned resp, s')
      /\ body resp = server r.

(** The cursor that a page hands on; none is [JNull]. *)
Definition next_cursor (data : json) : json :=
  match data with
  | JObject members =>
      match lookup "nextPageCursor" members with
      | Some c => c
      | None => JNull
      end
  | _ => JNull
  end.

(** The documents of a well-formed page: an object whose [results], if
    any, is a list of objects. *)
Definition is_object (j : json) : bool :=
  match j with JObject _ => true | _ => false end.

Definition page_documents (data : json) : option (list json) :=
  match data with
  | JObject members =>
      match lookup "results" members with
      | Some (JArray docs) => if forallb is_object docs then Some docs else None
      | Some _ => None
      | None => Some []
      end
  | _ => None
  end.

(** The pages of one location, in the order in which the server hands
    them out when each request carries the cursor of the page before:
    the chain ends at the first page without a truthy cursor. *)
Inductive page_chain (server : request -> json) (location : string)
  : json -> list json -> Prop :=
| chain_end cursor :
    truthy (next_cursor
              (server (ReadwiseAPI.list_request location cursor))) = false ->
    page_chain server location cursor
      [server (ReadwiseAPI.list_request location cursor)]
| chain_next cursor pages :
    truthy (next_cursor
              (server (ReadwiseAPI.list_request location cursor))) = true ->
    page_chain server location
      (next_cursor (server (ReadwiseAPI.list_request location cursor)))
      pages ->
    page_chain server location cursor
      (server (ReadwiseAPI.list_request location cursor) :: pages).

(** A document carries [tag]: its [tags] is a mapping with that key, or
    a sequence with that string. *)
Definition carries_tag (tag : string) (doc : json) : bool :=
  match doc with
  | JObject members =>
      match lookup "tags" members with
      | Some (JObject tags) => existsb (fun kv => String.eqb tag (fst kv)) tags
      | Some (JArray tags) =>
          existsb (fun j => match j with
                            | JString s => String.eqb tag s
                            | _ => false
                            end) tags
      | _ => false
      end
  | _ => false
  end.

(** The tagged documents of one page, in page order. *)
Definition tagged (tag : string) (data : json) : list json :=
  match page_documents data with
  | Some docs => filter (fun doc => carries_tag tag doc = true) docs
  | None => []
  end.

(** The scenario: location [new] has a first page with cursor [abc],
    two documents tagged [remarkable] (one by a mapping, one by a
    sequence) and one that is not, and a second page without cursor with
    one tagged document. *)
Definition doc (id : string) (tags : json) : json :=
  JObject [("id", JString id); ("tags", tags)].

Definition doc_a : json := doc "a" (JObject [("remarkable", JObject [])]).
Definition doc_b : json := doc "b" (JArray [JString "remarkable"]).
Definition doc_x : json := doc "x" (JArray [JString "other"]).
Definition doc_c : json := doc "c" (JObject [("remarkable", JObject [])]).

Definition page_1 : json :=
  JObject [("results", JArray [doc_a; doc_x; doc_b]);
           ("nextPageCursor", JString "abc")].
Definition page_2 : json :=
  JObject [("results", JArray [doc_c])].

Definition two_pages (r : request) : json :=
  match lookup "pageCursor" (params r) with
  | Some (JString "abc") => page_2
  | Some _ => JObject []
  | None => page_1
  end.

(** A server whose every page hands on a cursor, and one whose page
    holds something that is not a document. *)
Definition looping (r : request) : json := page_1.

Definition page_with_stray : json :=
  JObject [("results", JArray [doc_a; JString "stray"])].

(** The answer to [get_document_content] for a document with markup. *)
Definition one_document : json :=
  JObject [("results",
            JArray [JObject [("id", JString "doc1");
                             ("html_content", JString "<p>text</p>")];
                    doc_a])].

End Listing.

(* ===================================================================== *)
(** * Ledger and tablet, for the statements about the orchestration *)
(* ===================================================================== *)

Module Run.

Import Json Eff ReadwiseRemarkableSync.

(** Nothing was put on the tablet and nothing was written to the
    ledger between [w] and [w']. *)
Definition untouched (w w' : sync_state) : Prop :=
  tracker w' = tracker w
  /\ RemarkableUploader.device (uploader w')
     = RemarkableUploader.device (uploader w)
  /\ RemarkableUploader.folder (uploader w')
     = RemarkableUploader.folder (uploader w).

(** Between [w] and [w'] one file was put on the tablet by a run of
    [rmapi] that exited with status zero, and after it [mark_exported]
    was called once, for what [doc] has at [id]. *)
Definition exported_after_upload
    (rmapi : nat -> list string -> RemarkableUploader.run_result)
    (doc : json) (w w' : sync_state) : Prop :=
  exists name doc_id title ts,
    rmapi (RemarkableUploader.runs (uploader w))
      ["put"; name; RemarkableUploader.folder (uploader w)]
    = RemarkableUploader.Exit0
    /\ RemarkableUploader.device (uploader w')
       = RemarkableUploader.device (uploader w)
         ++ [(RemarkableUploader.folder (uploader w), name)]
    /\ RemarkableUploader.folder (uploader w')
       = RemarkableUploader.folder (uploader w)
    /\ subscript doc "id" = Returned doc_id
    /\ tracker w'
       = exec (ExportTracker.mark_exported_any ts doc_id title) (tracker w).

(** The fields that [_process_document] reads first. *)
Definition reads (doc : json) (title : string) (author category : json)
  : Prop :=
  (exists doc_id, subscript doc "id" = Returned doc_id)
  /\ subscript doc "title" = Returned (JString title)
  /\ Json.dict_get doc "author" (JString "Unknown") = Returned author
  /\ Json.dict_get doc "category" (JString "article")
     = Returned category.

(** An orchestrator just constructed, with no ledger yet. *)
Definition initial : sync_state :=
  {| tracker := {| ExportTracker.tracker_file := ExportTracker.Missing;
                   ExportTracker.exported_docs := ∅;
                   ExportTracker.exported_others := ∅ |};
     readwise := Paced.fresh 0;
     converter := {| DocumentConverter.image_fetcher := Paced.fresh 0;
                     DocumentConverter.written := [] |};
     uploader := {| RemarkableUploader.folder := "Readwise";
                    RemarkableUploader.device := [];
                    RemarkableUploader.runs := 0 |};
     downloads := 0 |}.

(** An article with one remote image. *)
Definition article : json :=
  JObject [("id", JString "doc1"); ("title", JString "An article");
           ("html_content", JString "<p><img src=https://example.com/figure.png></p>")].

Definition article_imgs (html : string) : list DocumentConverter.img :=
  [{| DocumentConverter.src := Some History.sample_image;
      DocumentConverter.style := None |}].

Definition at_noon : nat -> string := fun _ => "2024-01-01T12:00:00+00:00".

(** Whether the tracker of [w] holds the identifier of [doc]. *)
Definition already_exported (w : sync_state) (doc : json) : bool :=
  match subscript doc "id" with
  | Eff.Returned (JString doc_id) =>
      ExportTracker.is_exported doc_id (tracker w)
  | _ => false
  end.

(** A document has a string at [id]. *)
Definition identified (doc : json) : Prop :=
  exists doc_id, subscript doc "id" = Eff.Returned (JString doc_id).

(** The tracker [t'] against an earlier [t]: every identifier of [t]
    is still in the set, and the ledger file is the one of [t], with
    text appended if anything. *)
Definition grown (t t' : ExportTracker.tracker) : Prop :=
  ExportTracker.exported_docs t ⊆ ExportTracker.exported_docs t'
  /\ (ExportTracker.tracker_file t' = ExportTracker.tracker_file t
      \/ exists more,
           ExportTracker.tracker_file t'
           = ExportTracker.append (ExportTracker.tracker_file t) more).

(** An orchestrator whose ledger holds the documents [a], [b] and [c]
    of the listing scenario. *)
Definition caught_up : sync_state :=
  {| tracker :=
       snd (ExportTracker.__init__
              (ExportTracker.Text
                 ("2024-01-01T12:00:00+00:00 - First (a)"
                  +:+ String ExportTracker.LF ""
                  +:+ "2024-01-01T12:00:05+00:00 - Second (b)"
                  +:+ String ExportTracker.LF ""
                  +:+ "2024-01-01T12:00:09+00:00 - Third (c)"
                  +:+ String ExportTracker.LF "")));
     readwise := readwise initial;
     converter := converter initial;
     uploader := uploader initial;
     downloads := downloads initial |}.

End Run.

(* ===================================================================== *)
(** * Shapes of strings used in the statements *)
(* ===================================================================== *)

Module Shape.

(** Every character of [s] satisfies [P]. *)
Fixpoint all_chars (P : ascii -> bool) (s : string) : bool :=
  match s with
  | "" => true
  | String c r => P c && all_chars P r
  end.

(** [s] does not begin with white space. *)
Definition headed (s : string) : bool :=
  match s with
  | "" => true
  | String c _ => negb (Py.isspace c)
  end.

(** The only white space in [s] is a SPACE, and no white-space character
    follows another; [after_ws] says that [s] is preceded by one. *)
Fixpoint single_spaced (after_ws : bool) (s : string) : bool :=
  match s with
  | "" => true
  | String c r =>
      if Py.isspace c
      then negb after_ws && Ascii.eqb c " " && single_spaced true r
      else single_spaced false r
  end.

(** The content carries one of the signatures that
    [_determine_image_extension] looks for, the inline [<svg] marker in
    the first 100 bytes included. *)
Definition sniffable (content : list byte) : bool :=
  let sw := DocumentConverter.bytes_startswith in
  let has := DocumentConverter.bytes_contains in
  sw DocumentConverter.magic_png content
  || sw DocumentConverter.magic_jpeg content
  || sw DocumentConverter.magic_gif content
  || sw DocumentConverter.magic_riff content
     && has DocumentConverter.magic_webp (take 12 content)
  || sw DocumentConverter.magic_svg content
  || has DocumentConverter.magic_svg (take 100 content).

(** The stripped line [l] ends in [(doc_id)], where the identifier is
    not empty and holds no closing parenthesis. *)
Definition parenthesized_id (l doc_id : string) : Prop :=
  exists pre,
    l = pre +:+ "(" +:+ doc_id +:+ ")"
    /\ doc_id <> "" /\ Py.contains_char ")" doc_id = false.

(** The lines that iterating the ledger yields before it ends or raises. *)
Definition ledger_lines (f : ExportTracker.ledger_file) : list string :=
  match f with
  | ExportTracker.Missing => []
  | ExportTracker.Text content => ExportTracker.file_lines content
  | ExportTracker.Undecodable decoded tail reads =>
      take (reads tail) (ExportTracker.file_lines decoded)
  end.

(** A ledger with one export record, one comment and one stray line. *)
Definition ledger_example : string :=
  "2024-01-01T00:00:00 - Some Title (doc123)" +:+ String ExportTracker.LF ""
  +:+ "# comment" +:+ String ExportTracker.LF ""
  +:+ "garbage line" +:+ String ExportTracker.LF "".

(** Every opening parenthesis of [s] has a closing one after it. *)
Fixpoint closed_parens (s : string) : bool :=
  match s with
  | "" => true
  | String c r =>
      (if Ascii.eqb c "(" then Py.contains_char ")" r else true)
      && closed_parens r
  end.

(** [s] holds no line break. *)
Definition one_line (s : string) : bool :=
  negb (Py.contains_char ExportTracker.LF s)
  && negb (Py.contains_char ExportTracker.CR s).

(** [s] is empty or ends with a line feed. *)
Fixpoint complete_lines (s : string) : bool :=
  match s with
  | "" => true
  | String c r =>
      match r with
      | "" => Ascii.eqb c ExportTracker.LF
      | _ => complete_lines r
      end
  end.

(** A ledger that [mark_exported] can extend by a whole line: no file
    yet, or text whose last line is ended. *)
Definition appendable (f : ExportTracker.ledger_file) : bool :=
  match f with
  | ExportTracker.Missing => true
  | ExportTracker.Text content => complete_lines content
  | ExportTracker.Undecodable _ _ _ => false
  end.

(** The characters of [datetime.isoformat()]: digits and [-T:.+]. *)
Definition iso_char (c : ascii) : bool :=
  let n := Py.ord c in
  ((48 <=? n) && (n <=? 57))%nat
  || existsb (Ascii.eqb c) ["-"; "T"; ":"; "."; "+"]%char.

Definition iso_timestamp (s : string) : bool :=
  Py.nonempty s && all_chars iso_char s.

(** The pieces with a comma between each two. *)
Fixpoint comma_separated (pieces : list string) : string :=
  match pieces with
  | [] => ""
  | [piece] => piece
  | piece :: rest => piece +:+ "," +:+ comma_separated rest
  end.

(** The name that [html_to_epub] gives the [k]-th image it embeds. *)
Definition embedded_name (k : nat) (name : string) : Prop :=
  exists ext,
    name = "img_" +:+ DocumentConverter.str_of_nat k +:+ "." +:+ ext
    /\ In ext ["png"; "jpg"; "gif"; "webp"; "svg"; "bmp"].

(** An [img] element [i'] after the loop of [html_to_epub], against the
    element [i] before it and the images [added] to the book: it is as
    it was, or [i] was a remote image and [i'] points, with the style
    set, at one of the images added. *)
Definition placed (added : list (string * list byte))
    (i i' : DocumentConverter.img) : Prop :=
  i' = i
  \/ (is_Some (DocumentConverter.is_remote i)
      /\ exists name content,
           i' = {| DocumentConverter.src := Some name;
                   DocumentConverter.style :=
                     Some "max-width: 100%; height: auto;" |}
           /\ (name, content) ∈ added).

(** One call of [mark_exported]: the time stamp it takes, the
    identifier and the title.  The ledger can hold the record and give
    it back when the time stamp is an ISO one, the title is one line
    whose parentheses are closed, and the identifier is one line, not
    empty and without a closing parenthesis. *)
Definition recordable (r : string * string * string) : bool :=
  let '(ts, doc_id, title) := r in
  iso_timestamp ts && one_line title && closed_parens title
  && Py.nonempty doc_id && negb (Py.contains_char ")" doc_id)
  && one_line doc_id.

(** [mark_exported] called for each record in turn. *)
Definition mark_all (records : list (string * string * string))
  : Eff.M ExportTracker.tracker unit :=
  Eff.for_each records
    (fun '(ts, doc_id, title) => ExportTracker.mark_exported ts doc_id title).

End Shape.

(* ===================================================================== *)
(** * Facts about the string primitives *)
(* ===================================================================== *)

#[local] Arguments String.append !_ _ / : simpl nomatch.
#[local] Arguments Ascii.eqb : simpl never.
#[local] Arguments Byte.eqb : simpl never.

Section PyFacts.

Import Py Shape.

Lemma all_chars_remove_class cls s :
  all_chars (fun c => negb (cls c)) (remove_class cls s) = true.
Proof.
  induction s as [|c r IH]; simpl; [reflexivity|].
  destruct (cls c) eqn:E; simpl; [assumption|].
  now rewrite E, IH.
Qed.

Lemma all_chars_collapse_ws P b s :
  P " "%char = true ->
  all_chars P s = true -> all_chars P (collapse_ws b s) = true.
Proof.
  intros Hsp. revert b.
  induction s as [|c r IH]; intros b H; simpl in *; [reflexivity|].
  apply andb_prop in H as [Hc Hr].
  destruct (isspace c).
  - destruct b; simpl; [auto|]. rewrite Hsp. simpl. auto.
  - simpl. rewrite Hc. simpl. auto.
Qed.

Lemma all_chars_lstrip P s :
  all_chars P s = true -> all_chars P (lstrip s) = true.
Proof.
  induction s as [|c r IH]; simpl; intros H; [reflexivity|].
  destruct (isspace c); [|exact H].
  apply andb_prop in H as [_ Hr]. auto.
Qed.

Lemma all_chars_rstrip P s :
  all_chars P s = true -> all_chars P (rstrip s) = true.
Proof.
  induction s as [|c r IH]; simpl; intros H; [reflexivity|].
  apply andb_prop in H as [Hc Hr]. specialize (IH Hr).
  destruct (rstrip r) as [|d r'].
  - destruct (isspace c); simpl; [reflexivity|]. now rewrite Hc.
  - simpl in *. now rewrite Hc, IH.
Qed.

Lemma headed_lstrip s : headed (lstrip s) = true.
Proof.
  induction s as [|c r IH]; simpl; [reflexivity|].
  destruct (isspace c) eqn:E; [assumption|]. simpl. now rewrite E.
Qed.

Lemma lstrip_headed s : headed s = true -> lstrip s = s.
Proof.
  destruct s as [|c r]; simpl; [reflexivity|].
  now destruct (isspace c).
Qed.

Lemma headed_rstrip s : headed s = true -> headed (rstrip s) = true.
Proof.
  destruct s as [|c r]; simpl; [reflexivity|]. intros H.
  destruct (rstrip r); [|exact H].
  destruct (isspace c) eqn:E; [discriminate|].
  simpl. now rewrite E.
Qed.

Lemma rstrip_idem s : rstrip (rstrip s) = rstrip s.
Proof.
  induction s as [|c r IH]; simpl; [reflexivity|].
  destruct (rstrip r) as [|d r'] eqn:E.
  - destruct (isspace c) eqn:Ec; simpl; [reflexivity|]. now rewrite Ec.
  - simpl in *. now rewrite IH.
Qed.

Lemma strip_idem s : strip (strip s) = strip s.
Proof.
  unfold strip.
  rewrite (lstrip_headed (rstrip (lstrip s))).
  - apply rstrip_idem.
  - apply headed_rstrip, headed_lstrip.
Qed.

Lemma single_spaced_weaken s :
  single_spaced true s = true -> single_spaced false s = true.
Proof.
  destruct s as [|c r]; simpl; [reflexivity|].
  destruct (isspace c); [discriminate | auto].
Qed.

Lemma single_spaced_collapse_ws b s :
  single_spaced b (collapse_ws b s) = true.
Proof.
  revert b. induction s as [|c r IH]; intros b; simpl; [reflexivity|].
  destruct (isspace c) eqn:E.
  - destruct b; [apply IH|]. simpl. apply IH.
  - simpl. rewrite E. apply IH.
Qed.

Lemma single_spaced_lstrip s :
  single_spaced false s = true -> single_spaced false (lstrip s) = true.
Proof.
  induction s as [|c r IH]; simpl; [reflexivity|].
  destruct (isspace c) eqn:E; intros H.
  - apply IH, single_spaced_weaken.
    apply andb_prop in H as [_ H]. exact H.
  - simpl. now rewrite E.
Qed.

Lemma single_spaced_rstrip b s :
  single_spaced b s = true -> single_spaced b (rstrip s) = true.
Proof.
  revert b. induction s as [|c r IH]; intros b; simpl; [reflexivity|].
  destruct (isspace c) eqn:E; intros H.
  - apply andb_prop in H as [H1 H2]. specialize (IH _ H2).
    destruct (rstrip r) as [|d r']; [reflexivity|].
    simpl in *. rewrite E, H1. exact IH.
  - specialize (IH _ H).
    destruct (rstrip r) as [|d r']; simpl in *; now rewrite E.
Qed.

Lemma remove_ws_collapse_ws b s :
  remove_class isspace (collapse_ws b s) = remove_class isspace s.
Proof.
  revert b. induction s as [|c r IH]; intros b; simpl; [reflexivity|].
  destruct (isspace c) eqn:E.
  - destruct b; simpl; apply IH.
  - simpl. rewrite E. f_equal. apply IH.
Qed.

Lemma remove_ws_lstrip s :
  remove_class isspace (lstrip s) = remove_class isspace s.
Proof.
  induction s as [|c r IH]; simpl; [reflexivity|].
  destruct (isspace c) eqn:E; [exact IH|]. simpl. now rewrite E.
Qed.

Lemma remove_class_cons cls c r :
  remove_class cls (String c r)
  = if cls c then remove_class cls r else String c (remove_class cls r).
Proof. reflexivity. Qed.

Lemma remove_ws_rstrip s :
  remove_class isspace (rstrip s) = remove_class isspace s.
Proof.
  induction s as [|c r IH]; simpl; [reflexivity|].
  destruct (rstrip r) as [|d r'] eqn:Er.
  - destruct (isspace c) eqn:E; simpl in *; [exact IH|].
    rewrite E. now rewrite <- IH.
  - rewrite (remove_class_cons _ c (String d r')).
    now rewrite IH.
Qed.

Lemma remove_class_twice f g s :
  remove_class g (remove_class f s)
  = remove_class (fun c => f c || g c) s.
Proof.
  induction s as [|c r IH]; simpl; [reflexivity|].
  destruct (f c); simpl; [exact IH|].
  destruct (g c); [exact IH | now rewrite IH].
Qed.

End PyFacts.

(* ===================================================================== *)
(** * [DocumentConverter.clean_filename] *)
(* ===================================================================== *)

Section CleanFilename.

Import Py Shape DocumentConverter.

(** C10.  For every title, [clean_filename] returns a non-empty string.
    The result holds none of the nine removed characters, neither begins
    nor ends with white space, has single SPACEs as its only white space,
    and is either the sentinel (exactly when nothing is left of the
    title) or keeps, in order, the characters of the title that are
    neither removed nor white space. *)
Theorem clean_filename_usable (title : string) :
  let name := clean_filename title in
  let cleaned := strip (collapse_ws false (remove_class invalid_char title)) in
  name <> ""
  /\ all_chars (fun c => negb (invalid_char c)) name = true
  /\ strip name = name
  /\ single_spaced false name = true
  /\ (cleaned = "" -> name = "Untitled")
  /\ (cleaned <> "" ->
      name = cleaned
      /\ remove_class isspace name
         = remove_class (fun c => invalid_char c || isspace c) title).
Proof.
  cbv zeta. unfold clean_filename.
  set (cleaned := strip (collapse_ws false (remove_class invalid_char title))).
  assert (Hchars : all_chars (fun c => negb (invalid_char c)) cleaned = true).
  { apply all_chars_rstrip, all_chars_lstrip, all_chars_collapse_ws;
      [reflexivity | apply all_chars_remove_class]. }
  assert (Hstrip : strip cleaned = cleaned) by apply strip_idem.
  assert (Hsp : single_spaced false cleaned = true).
  { apply single_spaced_rstrip, single_spaced_lstrip,
      single_spaced_collapse_ws. }
  assert (Hkeep : remove_class isspace cleaned
                  = remove_class (fun c => invalid_char c || isspace c) title).
  { unfold cleaned, strip.
    rewrite remove_ws_rstrip, remove_ws_lstrip, remove_ws_collapse_ws.
    apply remove_class_twice. }
  destruct cleaned as [|c r] eqn:E; simpl nonempty; cbv iota.
  - repeat split; try reflexivity; try discriminate; congruence.
  - repeat split; try assumption; try discriminate.
Qed.

Lemma clean_filename_usable_witness :
  clean_filename "?*?" = "Untitled"
  /\ clean_filename " Notes:  draft? " = "Notes draft".
Proof.
  split.
  - exact (proj1 (proj2 (proj2 (proj2 (proj2 (clean_filename_usable "?*?")))))
             eq_refl).
  - refine (proj1 (proj2 (proj2 (proj2 (proj2 (proj2
             (clean_filename_usable " Notes:  draft? "))))) _)).
    discriminate.
Defined.

End CleanFilename.

(* ===================================================================== *)
(** * [DocumentConverter._determine_image_extension] *)
(* ===================================================================== *)

Section ImageExtension.

Import Py Shape DocumentConverter.

Lemma split_no_sep sep t :
  contains_char sep t = false -> split sep t = [t].
Proof.
  induction t as [|c r IH]; simpl; [reflexivity|].
  destruct (Ascii.eqb c sep); simpl; [discriminate|].
  intros H. now rewrite (IH H).
Qed.

Lemma split_suffix sep p t :
  contains_char sep t = false ->
  exists a l, split sep (p +:+ String sep t) = a :: l ++ [t].
Proof.
  intros Ht. induction p as [|c r (a & l & IH)]; simpl.
  - rewrite Ascii.eqb_refl, (split_no_sep _ _ Ht). now exists "", [].
  - destruct (Ascii.eqb c sep).
    + exists "", (a :: l). now rewrite IH.
    + rewrite IH. now exists (String c a), l.
Qed.

Lemma last_piece_split_suffix sep p t :
  contains_char sep t = false ->
  last_piece (split sep (p +:+ String sep t)) = t.
Proof.
  intros Ht. destruct (split_suffix sep p t Ht) as (a & l & ->).
  unfold last_piece. rewrite app_comm_cons. apply last_last.
Qed.

Lemma contains_char_suffix sep p t :
  contains_char sep (p +:+ String sep t) = true.
Proof.
  induction p as [|c r IH]; simpl.
  - now rewrite Ascii.eqb_refl.
  - rewrite IH. apply orb_true_r.
Qed.

Lemma sniffable_false content :
  sniffable content = false ->
  bytes_startswith magic_png content = false
  /\ bytes_startswith magic_jpeg content = false
  /\ bytes_startswith magic_gif content = false
  /\ bytes_startswith magic_riff content
      && bytes_contains magic_webp (take 12 content) = false
  /\ bytes_startswith magic_svg content
      || bytes_contains magic_svg (take 100 content) = false.
Proof.
  unfold sniffable. cbv zeta. intros H.
  repeat (apply orb_false_elim in H as [H ?]).
  repeat split; try assumption.
  apply orb_false_intro; assumption.
Qed.

(** C6 (as amended).  Signatures are looked for before the URL is
    consulted: content that begins with the PNG signature is [png] and
    content that begins with the JPEG signature is [jpg], whatever the
    URL (one ending in [.png] included).  For a URL ending in [.svg]
    whose bytes carry no signature and no [<svg] marker in the first 100
    bytes, the result is [svg], the URL's own extension, which is on the
    allow-list. *)
Theorem determine_image_extension_sniffs_first :
  (forall url rest,
      _determine_image_extension url (magic_png ++ rest) = "png")
  /\ (forall url rest,
      _determine_image_extension url (magic_jpeg ++ rest) = "jpg")
  /\ (forall p content,
      sniffable content = false ->
      _determine_image_extension (p +:+ ".svg") content = "svg").
Proof.
  split; [|split].
  - intros url rest. reflexivity.
  - intros url rest. reflexivity.
  - intros p content H.
    apply sniffable_false in H as (H1 & H2 & H3 & H4 & H5).
    unfold _determine_image_extension.
    rewrite H1, H2, H3, H4, H5.
    rewrite contains_char_suffix.
    rewrite last_piece_split_suffix by reflexivity.
    reflexivity.
Qed.

Lemma determine_image_extension_sniffs_first_witness :
  sniffable (String.list_byte_of_string "hello") = false
  /\ _determine_image_extension ("https://example.com/logo" +:+ ".svg")
       (String.list_byte_of_string "hello") = "svg".
Proof.
  split; [reflexivity|].
  apply (proj2 (proj2 determine_image_extension_sniffs_first)).
  reflexivity.
Defined.

(** C6 as stated fails: a [.svg] URL with unrecognised bytes is
    classified [svg], not [jpg]. *)
Lemma determine_image_extension_svg_url_not_jpg :
  sniffable (String.list_byte_of_string "hello") = false
  /\ _determine_image_extension "https://example.com/logo.svg"
       (String.list_byte_of_string "hello") = "svg"
  /\ ~ (forall p content,
          sniffable content = false ->
          _determine_image_extension (p +:+ ".svg") content = "jpg").
Proof.
  split; [reflexivity|]. split; [reflexivity|].
  intros H.
  specialize (H "https://example.com/logo"
                (String.list_byte_of_string "hello") eq_refl).
  vm_compute in H. discriminate H.
Qed.

End ImageExtension.

(* ===================================================================== *)
(** * [ExportTracker]: parsing ledger lines *)
(* ===================================================================== *)

Section StringAppend.

Lemma sapp_nil_r (s : string) : s +:+ "" = s.
Proof. induction s as [|c r IH]; simpl; [reflexivity | now rewrite IH]. Qed.

Lemma sapp_assoc (a b c : string) : (a +:+ b) +:+ c = a +:+ b +:+ c.
Proof. induction a as [|x r IH]; simpl; [reflexivity | now rewrite IH]. Qed.

Lemma sapp_cons (c : ascii) (r s : string) :
  String c r +:+ s = String c (r +:+ s).
Proof. reflexivity. Qed.

Lemma contains_char_app c a b :
  Py.contains_char c (a +:+ b)
  = Py.contains_char c a || Py.contains_char c b.
Proof.
  induction a as [|x r IH]; simpl; [reflexivity|].
  rewrite IH. apply orb_assoc.
Qed.

Lemma all_chars_app P a b :
  Shape.all_chars P (a +:+ b)
  = Shape.all_chars P a && Shape.all_chars P b.
Proof.
  induction a as [|x r IH]; simpl; [reflexivity|].
  rewrite IH. apply andb_assoc.
Qed.

End StringAppend.

Section LedgerLines.

Import Py Shape Eff ExportTracker.

Lemma span_group_spec s :
  let (body, rest) := span_group s in
  s = body +:+ rest
  /\ contains_char ")" body = false
  /\ (rest = "" \/ exists rest', rest = String ")" rest').
Proof.
  induction s as [|c r IH]; simpl.
  - auto.
  - destruct (Ascii.eqb_spec c ")") as [->|Hc].
    + simpl. eauto.
    + destruct (span_group r) as [body rest].
      destruct IH as (-> & Hb & Hr).
      split; [reflexivity|]. split; [|exact Hr].
      simpl. rewrite Hb. apply Ascii.eqb_neq in Hc.
      rewrite Hc. reflexivity.
Qed.

Lemma span_group_closed g rest :
  contains_char ")" g = false ->
  span_group (g +:+ String ")" rest) = (g, String ")" rest).
Proof.
  induction g as [|c r IH]; simpl; intros H.
  - reflexivity.
  - apply orb_false_elim in H as [Hc Hr].
    rewrite Hc. now rewrite (IH Hr).
Qed.

Lemma match_here_sound s g :
  match_here s = Some g ->
  exists rest,
    s = "(" +:+ g +:+ ")" +:+ rest
    /\ at_end rest = true /\ g <> "" /\ contains_char ")" g = false.
Proof.
  destruct s as [|c r]; simpl; [discriminate|].
  destruct (Ascii.eqb_spec c "(") as [->|]; [|discriminate].
  pose proof (span_group_spec r) as Hs.
  destruct (span_group r) as [body rest].
  destruct Hs as (-> & Hb & Hr).
  destruct body as [|b body]; [discriminate|].
  destruct rest as [|x rest]; [discriminate|].
  destruct (at_end rest) eqn:He; [|discriminate].
  intros [= <-]. exists rest.
  destruct Hr as [|(rest' & [= -> ->])]; [discriminate|].
  repeat split; auto; discriminate.
Qed.

Lemma match_here_complete g rest :
  g <> "" -> contains_char ")" g = false ->
  match_here ("(" +:+ g +:+ ")" +:+ rest)
  = if at_end rest then Some g else None.
Proof.
  intros Hg Hc.
  change ("(" +:+ g +:+ ")" +:+ rest)
    with (String "(" (g +:+ String ")" rest)).
  unfold match_here. rewrite Ascii.eqb_refl.
  rewrite (span_group_closed g rest Hc).
  destruct g; [congruence | reflexivity].
Qed.

Lemma re_search_group_cons c r :
  re_search_group (String c r)
  = match match_here (String c r) with
    | Some g => Some g
    | None => re_search_group r
    end.
Proof. reflexivity. Qed.

Lemma re_search_group_sound s g :
  re_search_group s = Some g ->
  exists pre rest,
    s = pre +:+ "(" +:+ g +:+ ")" +:+ rest
    /\ at_end rest = true /\ g <> "" /\ contains_char ")" g = false.
Proof.
  induction s as [|c r IH].
  - simpl. discriminate.
  - cbn [re_search_group]. destruct (match_here (String c r)) eqn:E.
    + intros [= ->]. apply match_here_sound in E as (rest & ? & ?).
      now exists "", rest.
    + intros H. destruct (IH H) as (pre & rest & -> & ?).
      now exists (String c pre), rest.
Qed.

Lemma re_search_group_found pre x :
  match_here x <> None -> re_search_group (pre +:+ x) <> None.
Proof.
  intros Hx. induction pre as [|c r IH].
  - change ("" +:+ x) with x.
    destruct x as [|c r]; [now contradiction Hx|].
    rewrite re_search_group_cons.
    destruct (match_here (String c r)); [discriminate | congruence].
  - rewrite sapp_cons, re_search_group_cons.
    destruct (match_here (String c (r +:+ x))); [discriminate | exact IH].
Qed.

Lemma rstrip_last s a c :
  rstrip s = a +:+ String c "" -> isspace c = false.
Proof.
  revert a. induction s as [|x r IH]; intros a; simpl.
  - destruct a; discriminate.
  - destruct (rstrip r) as [|d r'] eqn:E.
    + destruct (isspace x) eqn:Ex.
      * destruct a; discriminate.
      * destruct a as [|y a']; simpl.
        -- now intros [= <-].
        -- intros [= _ H]. destruct a'; discriminate.
    + destruct a as [|y a']; simpl; [discriminate|].
      intros [= _ H]. exact (IH a' H).
Qed.

Lemma re_search_group_strip line g :
  re_search_group (strip line) = Some g ->
  parenthesized_id (strip line) g.
Proof.
  intros H.
  destruct (re_search_group_sound _ _ H) as (pre & rest & E & He & Hg & Hc).
  exists pre. split; [|auto].
  unfold at_end in He. apply orb_prop in He as [He|He];
    apply String.eqb_eq in He; subst rest.
  - now rewrite E.
  - exfalso. unfold strip in E.
    replace (pre +:+ "(" +:+ g +:+ ")" +:+ String LF "")
      with ((pre +:+ "(" +:+ g +:+ ")") +:+ String LF "") in E
      by now rewrite !sapp_assoc.
    apply rstrip_last in E. discriminate E.
Qed.

Lemma parenthesized_id_found l doc_id :
  parenthesized_id l doc_id -> re_search_group l <> None.
Proof.
  intros (pre & -> & Hg & Hc).
  apply re_search_group_found.
  replace ("(" +:+ doc_id +:+ ")") with ("(" +:+ doc_id +:+ ")" +:+ "")
    by reflexivity.
  rewrite (match_here_complete doc_id "" Hg Hc). discriminate.
Qed.

(** One line either leaves the tracker alone or adds the identifier it
    ends with. *)
Lemma load_line_spec line t :
  load_line line t = (Returned tt, t)
  \/ exists doc_id,
       parenthesized_id (strip line) doc_id
       /\ startswith "#" (strip line) = false
       /\ load_line line t
          = (Returned tt, {| tracker_file := tracker_file t;
                             exported_docs := {[doc_id]} ∪ exported_docs t;
       exported_others := exported_others t |}).
Proof.
  unfold load_line.
  destruct (nonempty (strip line)); cbn [andb]; [|now left].
  destruct (startswith "#" (strip line)) eqn:Hc; cbn [negb]; [now left|].
  destruct (re_search_group (strip line)) as [g|] eqn:Hs; [|now left].
  right. exists g. split; [now apply re_search_group_strip|]. now split.
Qed.

Lemma for_each_load_line lines t :
  exists t',
    for_each lines load_line t = (Returned tt, t')
    /\ tracker_file t' = tracker_file t
    /\ forall doc_id,
         doc_id ∈ exported_docs t' ->
         doc_id ∈ exported_docs t
         \/ exists line,
              line ∈ lines /\ parenthesized_id (strip line) doc_id
              /\ startswith "#" (strip line) = false.
Proof.
  revert t. induction lines as [|line lines IH]; intros t.
  - exists t. simpl. auto.
  - cbn [for_each]. unfold bind at 1.
    destruct (load_line_spec line t) as [E|(g & Hg & Hc & E)]; rewrite E.
    + destruct (IH t) as (t' & E' & Hf & Hd).
      exists t'. split; [exact E'|]. split; [exact Hf|].
      intros d Hin. destruct (Hd d Hin) as [|(l & Hl & ?)]; [now left|].
      right. exists l. split; [now apply list_elem_of_further | assumption].
    + match goal with |- context [for_each lines load_line ?s] =>
        destruct (IH s) as (t' & E' & Hf & Hd) end.
      exists t'. split; [exact E'|]. split; [exact Hf|].
      intros d Hin. destruct (Hd d Hin) as [Hold|(l & Hl & ?)].
      * simpl in Hold. apply elem_of_union in Hold as [Hold|Hold]; [|now left].
        apply elem_of_singleton in Hold as ->.
        right. exists line. split; [apply list_elem_of_here | now split].
      * right. exists l. split; [now apply list_elem_of_further | assumption].
Qed.

(** C9.  Loading the ledger never raises, whatever is on disk.  On the
    ledger with a record for [doc123], a comment line and a stray line,
    [doc123] is exported and [doc999] is not.  In general an identifier
    is in the loaded set only if some line of the file, once stripped, is
    not a comment and ends with that identifier in parentheses; lines
    that begin with [#] and lines on which the pattern finds nothing
    leave the set as it is, and the pattern finds something on every
    line that ends with a parenthesised identifier. *)
Theorem load_exported_docs_tolerant :
  (forall t, eval load_exported_docs t = Returned tt)
  /\ (fst (__init__ (Text ledger_example)) = Returned tt
      /\ is_exported "doc123" (snd (__init__ (Text ledger_example))) = true
      /\ is_exported "doc999" (snd (__init__ (Text ledger_example))) = false)
  /\ (forall file doc_id,
        doc_id ∈ exported_docs (snd (__init__ file)) ->
        exists line,
          line ∈ ledger_lines file
          /\ parenthesized_id (strip line) doc_id
          /\ startswith "#" (strip line) = false)
  /\ (forall line t,
        startswith "#" (strip line) = true ->
        load_line line t = (Returned tt, t))
  /\ (forall line t,
        re_search_group (strip line) = None ->
        load_line line t = (Returned tt, t))
  /\ (forall l doc_id,
        parenthesized_id l doc_id -> re_search_group l <> None).
Proof.
  split; [|split; [|split; [|split; [|split]]]].
  - intros t. unfold eval, load_exported_docs, bind, get.
    destruct (tracker_file t) as [|c|c tl rd] eqn:Ef; simpl; [reflexivity| |].
    + unfold try_except, for_each_line.
      destruct (for_each_load_line (file_lines c) t) as (t' & -> & _).
      reflexivity.
    + unfold try_except, for_each_line, bind.
      destruct (for_each_load_line (take (rd tl) (file_lines c)) t)
        as (t' & -> & _).
      reflexivity.
  - vm_compute. auto.
  - intros file d. unfold __init__, load_exported_docs, bind, get.
    set (t0 := {| tracker_file := file; exported_docs := ∅;
       exported_others := ∅ |}).
    destruct file as [|c|c tl rd]; simpl.
    + intros H. now apply not_elem_of_empty in H.
    + unfold try_except, for_each_line.
      destruct (for_each_load_line (file_lines c) t0) as (t' & -> & _ & Hd).
      simpl. intros H. destruct (Hd d H) as [Hin|?]; [|assumption].
      now apply not_elem_of_empty in Hin.
    + unfold try_except, for_each_line, bind.
      destruct (for_each_load_line (take (rd tl) (file_lines c)) t0)
        as (t' & -> & _ & Hd).
      simpl. intros H. destruct (Hd d H) as [Hin|?]; [|assumption].
      now apply not_elem_of_empty in Hin.
  - intros line t H. unfold load_line. rewrite H.
    now rewrite andb_false_r.
  - intros line t H. unfold load_line. rewrite H.
    now destruct (_ && _).
  - exact parenthesized_id_found.
Qed.

Lemma load_exported_docs_tolerant_witness :
  "doc123" ∈ exported_docs (snd (__init__ (Text ledger_example)))
  /\ exists line,
       line ∈ ledger_lines (Text ledger_example)
       /\ parenthesized_id (strip line) "doc123"
       /\ startswith "#" (strip line) = false.
Proof.
  assert (H : "doc123" ∈ exported_docs (snd (__init__ (Text ledger_example)))).
  { apply (bool_decide_eq_true_1 _). vm_compute. reflexivity. }
  split; [exact H|].
  exact (proj1 (proj2 (proj2 load_exported_docs_tolerant)) _ _ H).
Defined.

End LedgerLines.

(* ===================================================================== *)
(** * [ExportTracker]: marking and reloading *)
(* ===================================================================== *)

Section LedgerRoundTrip.

Import Py Shape Eff ExportTracker.

(** C3, at a title with an unclosed parenthesis.  Starting from no
    ledger, [doc1] is not exported; after [mark_exported] it is; but a
    fresh tracker over the file just written does not know [doc1]: the
    pattern matches from the parenthesis of the title, and the set holds
    that longer text instead. *)
Theorem mark_exported_reload_loses_id :
  let t0 := snd (__init__ Missing) in
  let t1 := exec (mark_exported "2024-01-01T00:00:00+00:00" "doc1" "Sad :(") t0 in
  let t2 := snd (__init__ (tracker_file t1)) in
  is_exported "doc1" t0 = false
  /\ is_exported "doc1" t1 = true
  /\ tracker_file t1
     = Text ("2024-01-01T00:00:00+00:00 - Sad :( (doc1)" +:+ String LF "")
  /\ fst (__init__ (tracker_file t1)) = Returned tt
  /\ is_exported "doc1" t2 = false
  /\ elements (exported_docs t2) = [" (doc1"].
Proof. vm_compute. repeat split; reflexivity. Qed.

Lemma file_lines_nonempty c r : file_lines (String c r) <> [].
Proof.
  simpl. destruct (Ascii.eqb c LF); [discriminate|].
  destruct (Ascii.eqb c CR).
  - destruct r as [|d r']; [discriminate|].
    destruct (Ascii.eqb d LF); discriminate.
  - destruct (file_lines r); discriminate.
Qed.

Lemma file_lines_cons c r :
  file_lines (String c r)
  = if Ascii.eqb c LF then String LF "" :: file_lines r
    else if Ascii.eqb c CR then
      match r with
      | String d r' =>
          if Ascii.eqb d LF then String LF "" :: file_lines r'
          else String LF "" :: file_lines r
      | "" => String LF "" :: file_lines r
      end
    else
      match file_lines r with
      | [] => [String c ""]
      | line :: lines => String c line :: lines
      end.
Proof. reflexivity. Qed.

Lemma complete_lines_tail c d r :
  complete_lines (String c (String d r)) = complete_lines (String d r).
Proof. reflexivity. Qed.

Lemma file_lines_app_bounded n a b :
  (String.length a <= n)%nat ->
  complete_lines a = true ->
  file_lines (a +:+ b) = file_lines a ++ file_lines b.
Proof.
  revert a. induction n as [|n IH]; intros a Hn Ha.
  - destruct a; [reflexivity | simpl in Hn; lia].
  - destruct a as [|c r]; [reflexivity|].
    simpl in Hn.
    destruct r as [|d r'].
    + simpl in Ha. apply Ascii.eqb_eq in Ha as ->.
      reflexivity.
    + rewrite complete_lines_tail in Ha.
      assert (IHr : file_lines (String d r' +:+ b)
                    = file_lines (String d r') ++ file_lines b).
      { apply IH; [simpl in *; lia | exact Ha]. }
      rewrite sapp_cons.
      rewrite (file_lines_cons c (String d r' +:+ b)).
      rewrite (file_lines_cons c (String d r')).
      destruct (Ascii.eqb c LF); [now rewrite IHr|].
      destruct (Ascii.eqb c CR).
      * rewrite sapp_cons. destruct (Ascii.eqb d LF).
        -- assert (Hr' : complete_lines r' = true).
           { destruct r' as [|e r'']; [reflexivity|].
             now rewrite complete_lines_tail in Ha. }
           rewrite (IH r' ltac:(simpl in *; lia) Hr'). reflexivity.
        -- rewrite <- sapp_cons. now rewrite IHr.
      * rewrite IHr.
        pose proof (file_lines_nonempty d r') as Hne.
        destruct (file_lines (String d r')); [congruence | reflexivity].
Qed.

Lemma file_lines_app a b :
  complete_lines a = true ->
  file_lines (a +:+ b) = file_lines a ++ file_lines b.
Proof. apply (file_lines_app_bounded (String.length a)). lia. Qed.

Lemma file_lines_one_line body :
  one_line body = true ->
  file_lines (body +:+ String LF "") = [body +:+ String LF ""].
Proof.
  unfold one_line. induction body as [|c r IH]; [reflexivity|].
  intros H. apply andb_prop in H as [H1 H2].
  apply negb_true_iff in H1, H2. simpl in H1, H2.
  apply orb_false_elim in H1 as [Hc1 Hr1].
  apply orb_false_elim in H2 as [Hc2 Hr2].
  rewrite sapp_cons, file_lines_cons, Hc1, Hc2, IH; [reflexivity|].
  now rewrite Hr1, Hr2.
Qed.

Lemma rstrip_app y s :
  rstrip s <> "" -> rstrip (y +:+ s) = y +:+ rstrip s.
Proof.
  intros Hs. induction y as [|c r IH]; [reflexivity|].
  rewrite sapp_cons. simpl. rewrite IH.
  destruct (r +:+ rstrip s) eqn:E; [|reflexivity].
  destruct r; simpl in E; [congruence | discriminate].
Qed.

Lemma contains_char_split c r :
  contains_char c r = true ->
  exists body r2,
    r = body +:+ String c r2 /\ contains_char c body = false.
Proof.
  induction r as [|x r IH]; simpl; [discriminate|].
  destruct (Ascii.eqb_spec x c) as [->|Hx]; simpl.
  - intros _. now exists "", r.
  - intros H. destruct (IH H) as (body & r2 & -> & Hb).
    exists (String x body), r2. split; [reflexivity|].
    simpl. rewrite Hb. apply Ascii.eqb_neq in Hx. now rewrite Hx.
Qed.

Lemma at_end_before_group r2 g :
  at_end (r2 +:+ "(" +:+ g +:+ ")") = false.
Proof.
  unfold at_end. apply orb_false_intro; apply String.eqb_neq.
  - destruct r2; discriminate.
  - destruct r2 as [|x [|y r2]]; simpl; discriminate.
Qed.

Lemma re_search_group_closed_prefix pre g :
  closed_parens pre = true ->
  g <> "" -> contains_char ")" g = false ->
  re_search_group (pre +:+ "(" +:+ g +:+ ")") = Some g.
Proof.
  intros Hp Hg Hc. induction pre as [|c r IH].
  - change ("" +:+ "(" +:+ g +:+ ")") with ("(" +:+ g +:+ ")" +:+ "").
    change ("(" +:+ g +:+ ")" +:+ "")
      with (String "(" (g +:+ ")" +:+ "")).
    rewrite re_search_group_cons.
    change (String "(" (g +:+ ")" +:+ "")) with ("(" +:+ g +:+ ")" +:+ "").
    now rewrite (match_here_complete g "" Hg Hc).
  - simpl in Hp. apply andb_prop in Hp as [Hc1 Hr].
    rewrite sapp_cons, re_search_group_cons.
    replace (match_here (String c (r +:+ "(" +:+ g +:+ ")"))) with (@None string);
      [now apply IH|].
    unfold match_here.
    destruct (Ascii.eqb c "("); [|reflexivity].
    destruct (contains_char_split _ _ Hc1) as (body & r2 & -> & Hb).
    rewrite sapp_assoc, sapp_cons.
    rewrite (span_group_closed body _ Hb).
    rewrite at_end_before_group.
    now destruct body.
Qed.

Lemma closed_parens_app a b :
  closed_parens a = true -> closed_parens b = true ->
  closed_parens (a +:+ b) = true.
Proof.
  intros Ha Hb. induction a as [|c r IH]; [exact Hb|].
  simpl in Ha. apply andb_prop in Ha as [Hc Hr].
  rewrite sapp_cons. simpl. rewrite (IH Hr), andb_true_r.
  destruct (Ascii.eqb c "("); [|reflexivity].
  rewrite contains_char_app, Hc. reflexivity.
Qed.

Lemma iso_char_plain c :
  iso_char c = true ->
  isspace c = false
  /\ Ascii.eqb c "(" = false /\ Ascii.eqb c "#" = false
  /\ Ascii.eqb c LF = false /\ Ascii.eqb c CR = false.
Proof.
  destruct c as [[] [] [] [] [] [] [] []]; vm_compute;
    intros H; try discriminate H; repeat split.
Qed.

Lemma iso_chars_plain ts :
  all_chars iso_char ts = true ->
  closed_parens ts = true /\ one_line ts = true.
Proof.
  unfold one_line. induction ts as [|c r IH]; [now split|].
  simpl. intros H. apply andb_prop in H as [Hc Hr].
  destruct (iso_char_plain c Hc) as (_ & H1 & _ & H2 & H3).
  destruct (IH Hr) as [IH1 IH2]. apply andb_prop in IH2 as [I2 I3].
  rewrite H1, H2, H3, IH1. simpl. split; [reflexivity|].
  now rewrite I2, I3.
Qed.

Lemma one_line_app a b :
  one_line a = true -> one_line b = true -> one_line (a +:+ b) = true.
Proof.
  unfold one_line. intros Ha Hb.
  apply andb_prop in Ha as [A1 A2]. apply andb_prop in Hb as [B1 B2].
  apply negb_true_iff in A1, A2, B1, B2.
  now rewrite !contains_char_app, A1, A2, B1, B2.
Qed.

Lemma for_each_app {S A} (l1 l2 : list A) (body : A -> M S unit) s :
  for_each (l1 ++ l2) body s
  = (for_each l1 body >> for_each l2 body)%eff s.
Proof.
  revert s. induction l1 as [|x l1 IH]; intros s; simpl.
  - reflexivity.
  - unfold bind. destruct (body x s) as [[[]|e] s']; [|reflexivity].
    rewrite IH. reflexivity.
Qed.

(** The identifiers loaded from some lines depend on the set so far,
    not on the file field. *)
Lemma for_each_load_line_docs lines t t' :
  exported_docs t = exported_docs t' ->
  exported_docs (exec (for_each lines load_line) t)
  = exported_docs (exec (for_each lines load_line) t').
Proof.
  revert t t'. induction lines as [|line lines IH]; intros t t' E.
  - exact E.
  - unfold exec in *. cbn [for_each]. unfold bind.
    unfold load_line at 1 3.
    destruct (nonempty (strip line) && negb (startswith "#" (strip line)));
      [|now apply IH].
    destruct (re_search_group (strip line)); [|now apply IH].
    apply IH. simpl. now rewrite E.
Qed.

(** The line that [mark_exported] writes, as [load_line] sees it. *)
Lemma load_line_entry ts title doc_id t :
  iso_timestamp ts = true ->
  closed_parens title = true ->
  doc_id <> "" -> contains_char ")" doc_id = false ->
  load_line (ts +:+ " - " +:+ title +:+ " (" +:+ doc_id +:+ ")"
             +:+ String LF "") t
  = (Returned tt, {| tracker_file := tracker_file t;
                     exported_docs := {[doc_id]} ∪ exported_docs t;
       exported_others := exported_others t |}).
Proof.
  intros Hts Htitle Hid Hrp.
  apply andb_prop in Hts as [Hne Hiso].
  destruct ts as [|c ts]; [discriminate|]. clear Hne.
  pose proof (iso_chars_plain _ Hiso) as [Hcl _].
  simpl in Hiso. apply andb_prop in Hiso as [Hc _].
  destruct (iso_char_plain c Hc) as (Hsp & _ & Hhash & _).
  set (pre := String c ts +:+ " - " +:+ title +:+ " ").
  assert (Estrip : strip (String c ts +:+ " - " +:+ title +:+ " (" +:+ doc_id
                          +:+ ")" +:+ String LF "")
                   = pre +:+ "(" +:+ doc_id +:+ ")").
  { unfold strip. rewrite lstrip_headed by (simpl; now rewrite Hsp).
    replace (String c ts +:+ " - " +:+ title +:+ " (" +:+ doc_id
             +:+ ")" +:+ String LF "")
      with ((pre +:+ "(" +:+ doc_id) +:+ ")" +:+ String LF "")
      by (unfold pre; now rewrite !sapp_assoc).
    rewrite rstrip_app by discriminate.
    now rewrite sapp_assoc, sapp_assoc. }
  unfold load_line. rewrite Estrip.
  assert (Hpre : closed_parens pre = true).
  { unfold pre. repeat apply closed_parens_app; auto. }
  rewrite (re_search_group_closed_prefix pre doc_id Hpre Hid Hrp).
  unfold pre. rewrite !sapp_cons. cbn [nonempty startswith].
  rewrite Ascii.eqb_sym, Hhash. reflexivity.
Qed.

Lemma exec_mark_exported ts doc_id title t :
  exec (mark_exported ts doc_id title) t
  = {| tracker_file :=
         append (tracker_file t)
           (ts +:+ " - " +:+ title +:+ " (" +:+ doc_id +:+ ")"
            +:+ String LF "");
       exported_docs := {[doc_id]} ∪ exported_docs t;
       exported_others := exported_others t |}.
Proof. reflexivity. Qed.

Lemma init_text c :
  __init__ (Text c)
  = for_each (file_lines c) load_line
      {| tracker_file := Text c; exported_docs := ∅;
       exported_others := ∅ |}.
Proof.
  unfold __init__, load_exported_docs, bind, get, try_except, for_each_line.
  cbn [tracker_file file_exists negb].
  set (e0 := {| tracker_file := Text c; exported_docs := ∅;
       exported_others := ∅ |}).
  destruct (for_each_load_line (file_lines c) e0) as (t' & -> & _).
  reflexivity.
Qed.

(** The round trip, where it holds: on a ledger whose last line is
    ended, with an ISO time stamp, a one-line title whose parentheses
    are closed and a one-line, non-empty identifier without a closing
    parenthesis, a fresh tracker over the file written by
    [mark_exported] holds exactly the identifiers of the old one. *)
Lemma mark_exported_roundtrip file ts title doc_id :
  appendable file = true ->
  iso_timestamp ts = true ->
  one_line title = true -> closed_parens title = true ->
  doc_id <> "" -> contains_char ")" doc_id = false ->
  one_line doc_id = true ->
  let t0 := snd (__init__ file) in
  let t1 := exec (mark_exported ts doc_id title) t0 in
  let t2 := snd (__init__ (tracker_file t1)) in
  is_exported doc_id t1 = true
  /\ fst (__init__ (tracker_file t1)) = Returned tt
  /\ exported_docs t2 = exported_docs t1
  /\ is_exported doc_id t2 = true.
Proof.
  intros Hfile Hts Hl1 Hcl Hid Hrp Hl2. cbv zeta.
  set (entry := ts +:+ " - " +:+ title +:+ " (" +:+ doc_id +:+ ")"
                +:+ String LF "").
  assert (Hlines : file_lines entry = [entry]).
  { unfold entry.
    replace (ts +:+ " - " +:+ title +:+ " (" +:+ doc_id +:+ ")"
             +:+ String LF "")
      with ((ts +:+ " - " +:+ title +:+ " (" +:+ doc_id +:+ ")")
            +:+ String LF "") by now rewrite !sapp_assoc.
    apply file_lines_one_line.
    apply andb_prop in Hts as [_ Hiso].
    destruct (iso_chars_plain _ Hiso) as [_ Hl0].
    repeat apply one_line_app; auto. }
  assert (Hentry : forall t,
    load_line entry t
    = (Returned tt, {| tracker_file := tracker_file t;
                       exported_docs := {[doc_id]} ∪ exported_docs t;
       exported_others := exported_others t |})).
  { intros t. now apply load_line_entry. }
  assert (Hin : forall D : gset string,
             bool_decide (doc_id ∈ {[doc_id]} ∪ D) = true).
  { intros D. apply bool_decide_eq_true_2. set_solver. }
  rewrite exec_mark_exported. fold entry.
  destruct file as [|c|c tl]; [| |discriminate].
  - (* no ledger yet *)
    change (snd (__init__ Missing))
      with {| tracker_file := Missing; exported_docs := ∅;
       exported_others := ∅ |}.
    cbn [tracker_file exported_docs append].
    rewrite init_text, Hlines. cbn [for_each]. unfold bind.
    rewrite Hentry. unfold ret, is_exported.
    cbn [fst snd exported_docs tracker_file]. rewrite Hin. auto.
  - (* an existing ledger *)
    simpl in Hfile. rewrite init_text.
    set (e0 := {| tracker_file := Text c; exported_docs := ∅;
       exported_others := ∅ |}).
    destruct (for_each_load_line (file_lines c) e0) as (t0 & E0 & Hf0 & _).
    rewrite E0. cbn [fst snd]. unfold e0 in Hf0. cbn in Hf0. rewrite Hf0.
    cbn [tracker_file exported_docs append].
    rewrite init_text.
    set (e1 := {| tracker_file := Text (c +:+ entry); exported_docs := ∅;
       exported_others := ∅ |}).
    rewrite (file_lines_app c entry Hfile), Hlines, for_each_app.
    unfold bind.
    destruct (for_each_load_line (file_lines c) e1) as (t1 & E1 & Hf1 & _).
    rewrite E1. cbn [for_each]. unfold bind. rewrite Hentry.
    unfold ret, is_exported.
    cbn [fst snd exported_docs tracker_file].
    assert (Ed : exported_docs t1 = exported_docs t0).
    { pose proof (for_each_load_line_docs (file_lines c) e1 e0 eq_refl) as H.
      unfold exec in H. now rewrite E0, E1 in H. }
    rewrite Ed, Hin. auto.
Qed.

End LedgerRoundTrip.

(* ===================================================================== *)
(** * Pacing *)
(* ===================================================================== *)

Section PacingFacts.

Import Eff Http Paced History.

Context {B : Type}.
Variable lag : nat -> Paced.beat.
Variable transport : nat -> request -> reply B.

(** [_rate_limit] always returns and records the start time it reads;
    time does not run backwards meanwhile; and when the system clock is
    not set back, the start time is at least the interval after the
    previous one. *)
Lemma rate_limit_spec min_interval s :
  exists c t k,
    _rate_limit lag min_interval s
    = (Returned tt,
       {| clock := c; ticks := k; last_request_time := t;
          sent := sent s; stamps := t :: stamps s |})
    /\ clock s <= c
    /\ (never_set_back lag -> last_request_time s + min_interval <= t).
Proof.
  unfold _rate_limit, bind, time_time, get, time_sleep,
    set_last_request_time, modify, ret, tick. cbn.
  pose proof (N2Z.is_nonneg (late (lag (ticks s)))) as L0.
  pose proof (N2Z.is_nonneg (late (lag (S (ticks s))))) as L1.
  pose proof (N2Z.is_nonneg (late (lag (S (S (ticks s)))))) as L2.
  destruct (Z.ltb_spec
              (clock s + Z.of_N (late (lag (ticks s))) + skew (lag (ticks s))
               - last_request_time s)
              min_interval) as [Hlt|Hge].
  - destruct (Z.ltb_spec
                (min_interval
                 - (clock s + Z.of_N (late (lag (ticks s)))
                    + skew (lag (ticks s)) - last_request_time s))
                0) as [Hneg|_]; [lia|].
    cbn. eexists _, _, _. split; [reflexivity|]. split; [lia|].
    intros Hs.
    pose proof (Hs (ticks s) (S (S (ticks s))) ltac:(lia)). lia.
  - cbn. eexists _, _, _. split; [reflexivity|]. split; [lia|].
    intros Hs.
    pose proof (Hs (ticks s) (S (ticks s)) ltac:(lia)). lia.
Qed.

(** Sleeping and sending leave the recorded start times alone. *)
Lemma time_sleep_frame d s :
  let s' := snd (time_sleep lag d s) in
  last_request_time s' = last_request_time s
  /\ stamps s' = stamps s /\ sent s' = sent s.
Proof. unfold time_sleep. destruct (d <? 0); cbn; auto. Qed.

Lemma sleep_seconds_frame n s :
  let s' := snd (sleep_seconds lag n s) in
  last_request_time s' = last_request_time s
  /\ stamps s' = stamps s /\ sent s' = sent s.
Proof.
  unfold sleep_seconds. destruct (_ || _); [cbn; auto|].
  apply time_sleep_frame.
Qed.

Lemma session_request_frame r s :
  let s' := snd (session_request lag transport r s) in
  last_request_time s' = last_request_time s
  /\ stamps s' = stamps s /\ sent s' = S (sent s).
Proof.
  unfold session_request. destruct (transport (sent s) r); cbn; auto.
Qed.



End PacingFacts.

Section SleepFacts.

Import Eff Http Paced History.

(** The lengths with which [time.sleep] returns. *)
Lemma sleep_returns_range d :
  sleep_returns d <-> 0 <= d <= max_sleep_seconds.
Proof.
  unfold sleep_returns, eval, sleep_seconds, time_sleep, raise.
  split.
  - intros H. specialize (H prompt (fresh 0)). revert H.
    destruct (Z.ltb_spec d (- max_sleep_seconds)); [cbn; discriminate|].
    destruct (Z.ltb_spec max_sleep_seconds d); [cbn; discriminate|].
    cbn [orb].
    destruct (Z.ltb_spec (1000 * d) 0); [cbn; discriminate|].
    unfold max_sleep_seconds in *. lia.
  - intros H lag s.
    destruct (Z.ltb_spec d (- max_sleep_seconds));
      [unfold max_sleep_seconds in *; lia|].
    destruct (Z.ltb_spec max_sleep_seconds d); [lia|]. cbn [orb].
    destruct (Z.ltb_spec (1000 * d) 0); [lia|]. reflexivity.
Qed.

Lemma sleep_seconds_accepted lag d s :
  0 <= d <= max_sleep_seconds ->
  sleep_seconds lag d s = time_sleep lag (1000 * d) s
  /\ exists s', time_sleep lag (1000 * d) s = (Returned tt, s')
                /\ sent s' = sent s /\ clock s + 1000 * d <= clock s'.
Proof.
  intros H. unfold sleep_seconds.
  destruct (Z.ltb_spec d (- max_sleep_seconds));
    [unfold max_sleep_seconds in *; lia|].
  destruct (Z.ltb_spec max_sleep_seconds d); [lia|]. cbn [orb].
  split; [reflexivity|]. unfold time_sleep, tick.
  destruct (Z.ltb_spec (1000 * d) 0); [lia|].
  eexists. split; [reflexivity|]. cbn. split; [reflexivity | lia].
Qed.

(** The waits of the backoff are among them. *)
Lemma backoff_accepted attempt :
  (attempt <= 32)%nat -> 0 <= 2 * 2 ^ Z.of_nat attempt <= max_sleep_seconds.
Proof.
  intros Ha. unfold max_sleep_seconds.
  assert (0 < 2 ^ Z.of_nat attempt) by (apply Z.pow_pos_nonneg; lia).
  assert (2 ^ Z.of_nat attempt <= 2 ^ 32)
    by (apply Z.pow_le_mono_r; lia).
  change (2 ^ 32) with 4294967296 in *. lia.
Qed.

End SleepFacts.

Section AttemptHistory.

Import Eff Http Paced History.

(** Follow every branch of a computation that has been unfolded down to
    the primitives. *)
Ltac each_path :=
  repeat (cbn;
          match goal with
          | |- context [match ?x with _ => _ end] =>
              lazymatch x with
              | context [match _ with _ => _ end] => fail
              | _ => destruct x
              end
          end);
  cbn.

Lemma api_try_request_frame lag transport r attempt s :
  let s' := snd (ReadwiseAPI.try_request lag transport r attempt s) in
  last_request_time s' = last_request_time s
  /\ stamps s' = stamps s /\ sent s' = S (sent s).
Proof.
  unfold ReadwiseAPI.try_request, try_except, bind, session_request, lift,
    raise_for_status, int_retry_after, raise, ret, sleep_seconds, time_sleep,
    tick.
  each_path; auto.
Qed.

Lemma fetcher_try_fetch_frame lag transport url attempt s :
  let s' := snd (RateLimitedImageFetcher.try_fetch lag transport url attempt s) in
  last_request_time s' = last_request_time s
  /\ stamps s' = stamps s /\ sent s' = S (sent s).
Proof.
  unfold RateLimitedImageFetcher.try_fetch, try_except, bind,
    RateLimitedImageFetcher.session_get,
    RateLimitedImageFetcher.read_content, session_request, lift,
    raise_for_status, int_retry_after, raise, ret, sleep_seconds, time_sleep,
    tick.
  each_path; auto.
Qed.

(** Every attempt, however it ends, records one start time and sends
    one request; when the system clock is not set back, the start time
    is at least the interval after the previous one. *)
Lemma api_attempt_history lag transport r attempt s :
  let s' := exec (ReadwiseAPI.attempt_once lag transport r attempt) s in
  exists t,
    stamps s' = t :: stamps s
    /\ last_request_time s' = t
    /\ (never_set_back lag ->
        last_request_time s + ReadwiseAPI.min_request_interval <= t)
    /\ sent s' = S (sent s).
Proof.
  cbv zeta. unfold exec, ReadwiseAPI.attempt_once, bind.
  destruct (rate_limit_spec lag ReadwiseAPI.min_request_interval s)
    as (c & t & k & -> & _ & Ht).
  exists t.
  match goal with |- context [ReadwiseAPI.try_request _ _ _ _ ?s1] =>
    destruct (api_try_request_frame lag transport r attempt s1)
      as (H1 & H2 & H3) end.
  rewrite H1, H2, H3. auto.
Qed.

Lemma fetcher_attempt_history lag transport url attempt s :
  let s' :=
    exec (RateLimitedImageFetcher.attempt_once lag transport url attempt) s in
  exists t,
    stamps s' = t :: stamps s
    /\ last_request_time s' = t
    /\ (never_set_back lag ->
        last_request_time s + RateLimitedImageFetcher.min_interval <= t)
    /\ sent s' = S (sent s).
Proof.
  cbv zeta. unfold exec, RateLimitedImageFetcher.attempt_once, bind.
  destruct (rate_limit_spec lag RateLimitedImageFetcher.min_interval s)
    as (c & t & k & -> & _ & Ht).
  exists t.
  match goal with
  | |- context [RateLimitedImageFetcher.try_fetch _ _ _ _ ?s1] =>
    destruct (fetcher_try_fetch_frame lag transport url attempt s1)
      as (H1 & H2 & H3) end.
  rewrite H1, H2, H3. auto.
Qed.

End AttemptHistory.

Section PacingInvariant.

Import Eff Http Paced History.











Lemma prompt_never_set_back : never_set_back prompt.
Proof. intros i j _. reflexivity. Qed.




End PacingInvariant.

(* ===================================================================== *)
(** * Retries *)
(* ===================================================================== *)

Section RetrySteps.

Import Eff Http Paced History.

Lemma rate_limit_sent lag min_interval s :
  exists s1,
    _rate_limit lag min_interval s = (Returned tt, s1)
    /\ sent s1 = sent s.
Proof.
  destruct (rate_limit_spec lag min_interval s) as (c & t & k & E & _).
  eexists. split; [exact E | reflexivity].
Qed.

(** A wait with which [time.sleep] returns is slept as it is. *)
Lemma sleep_seconds_eq lag d :
  0 <= d <= max_sleep_seconds ->
  sleep_seconds lag d = time_sleep lag (1000 * d).
Proof.
  intros H. unfold sleep_seconds.
  destruct (Z.ltb_spec d (- max_sleep_seconds));
    [unfold max_sleep_seconds in *; lia|].
  now destruct (Z.ltb_spec max_sleep_seconds d); [lia|].
Qed.

Lemma backoff_slept lag attempt :
  (attempt <= 32)%nat ->
  sleep_seconds lag (2 * 2 ^ Z.of_nat attempt)
  = time_sleep lag (1000 * (2 * 2 ^ Z.of_nat attempt))
  /\ (1000 * (2 * 2 ^ Z.of_nat attempt) <? 0) = false.
Proof.
  intros Ha. pose proof (backoff_accepted attempt Ha) as H.
  split; [now apply sleep_seconds_eq|]. apply Z.ltb_ge. lia.
Qed.

(** ** [ReadwiseAPI] *)

Lemma api_try_failure lag transport r attempt s msg :
  (attempt <= 32)%nat ->
  api_failure (transport (sent s) r) = Some msg ->
  exists s',
    ReadwiseAPI.try_request lag transport r attempt s
    = (if (attempt =? 4)%nat
       then Raised (RequestException msg) else Returned Continue, s')
    /\ sent s' = S (sent s).
Proof.
  intros Ha Hf.
  destruct (backoff_slept lag attempt Ha) as [Hsec Hsleep].
  unfold ReadwiseAPI.try_request, ReadwiseAPI.base_delay. rewrite Hsec.
  unfold try_except, bind, session_request,
    raise_for_status, raise, ret, time_sleep.
  change (ReadwiseAPI.max_retries - 1)%nat with 4%nat.
  unfold api_failure in Hf.
  destruct (transport (sent s) r) as [m|resp].
  - injection Hf as ->. cbn.
    destruct (attempt =? 4)%nat; cbn.
    + eexists; split; reflexivity.
    + rewrite Hsleep. eexists; split; reflexivity.
  - cbn. destruct (status_code resp =? 429); [discriminate|].
    destruct (is_error_status (status_code resp)); [|discriminate].
    injection Hf as <-. cbn.
    destruct (attempt =? 4)%nat; cbn.
    + eexists; split; reflexivity.
    + rewrite Hsleep. eexists; split; reflexivity.
Qed.

Lemma api_try_success lag transport r attempt s resp :
  api_success (transport (sent s) r) = Some resp ->
  exists s',
    ReadwiseAPI.try_request lag transport r attempt s
    = (Returned (Return resp), s')
    /\ sent s' = S (sent s).
Proof.
  intros Hf.
  unfold ReadwiseAPI.try_request, try_except, bind, session_request,
    raise_for_status, raise, ret.
  unfold api_success in Hf.
  destruct (transport (sent s) r) as [m|resp']; [discriminate|].
  cbn. destruct (status_code resp' =? 429); [discriminate|].
  destruct (is_error_status (status_code resp')); [discriminate|].
  injection Hf as ->. cbn. eexists; split; reflexivity.
Qed.

Lemma api_try_rate_limited lag transport r attempt s d :
  rate_limited ReadwiseAPI.base_delay attempt (transport (sent s) r) d ->
  ReadwiseAPI.try_request lag transport r attempt s
  = (Returned Continue,
     exec (sleep_seconds lag d) (exec (session_request lag transport r) s)).
Proof.
  intros (resp & Hr & Hst & Hd & Hpos).
  apply sleep_returns_range in Hpos.
  unfold ReadwiseAPI.try_request, try_except, bind, session_request, lift,
    exec, ret.
  rewrite Hr. cbn. rewrite Hst. cbn. rewrite Hd. cbn.
  rewrite (sleep_seconds_eq lag d Hpos).
  unfold time_sleep. destruct (Z.ltb_spec (1000 * d) 0); [lia|]. reflexivity.
Qed.

(** Failed attempts before the last one are passed over. *)
Lemma api_attempts_skip_failures lag transport r n :
  forall a todo s,
    (a + n <= 4)%nat ->
    (forall i, (i < n)%nat ->
               is_Some (api_failure (transport (sent s + i)%nat r))) ->
    exists s',
      ReadwiseAPI.attempts lag transport r (seq a n ++ todo) s
      = ReadwiseAPI.attempts lag transport r todo s'
      /\ sent s' = (sent s + n)%nat.
Proof.
  induction n as [|n IH]; intros a todo s Ha Hf.
  - exists s. split; [reflexivity | lia].
  - cbn [seq app ReadwiseAPI.attempts].
    unfold bind at 1. unfold ReadwiseAPI.attempt_once, bind at 1.
    destruct (rate_limit_sent lag ReadwiseAPI.min_request_interval s)
      as (s1 & -> & Hs1).
    destruct (Hf 0%nat ltac:(lia)) as [msg Hmsg].
    rewrite Nat.add_0_r, <- Hs1 in Hmsg.
    destruct (api_try_failure lag transport r a s1 msg ltac:(lia) Hmsg)
      as (s2 & -> & Hs2).
    replace (a =? 4)%nat with false by (symmetry; apply Nat.eqb_neq; lia).
    destruct (IH (S a) todo s2 ltac:(lia)) as (s' & -> & Hs').
    { intros i Hi. replace (sent s2 + i)%nat with (sent s + S i)%nat by lia.
      apply Hf. lia. }
    exists s'. split; [reflexivity | lia].
Qed.

(** Rate-limited attempts are passed over too, each at the cost of its
    place in the loop. *)
Lemma api_attempts_skip_rate_limited lag transport r n :
  forall a todo s,
    (forall i, (i < n)%nat ->
               exists d, rate_limited ReadwiseAPI.base_delay (a + i)
                           (transport (sent s + i)%nat r) d) ->
    exists s',
      ReadwiseAPI.attempts lag transport r (seq a n ++ todo) s
      = ReadwiseAPI.attempts lag transport r todo s'
      /\ sent s' = (sent s + n)%nat.
Proof.
  induction n as [|n IH]; intros a todo s Hf.
  - exists s. split; [reflexivity | lia].
  - cbn [seq app ReadwiseAPI.attempts].
    unfold bind at 1. unfold ReadwiseAPI.attempt_once, bind at 1.
    destruct (rate_limit_sent lag ReadwiseAPI.min_request_interval s)
      as (s1 & -> & Hs1).
    destruct (Hf 0%nat ltac:(lia)) as [d Hd].
    rewrite !Nat.add_0_r, <- Hs1 in Hd.
    rewrite (api_try_rate_limited lag transport r a s1 d Hd).
    set (s2 := exec (sleep_seconds lag d)
                 (exec (session_request lag transport r) s1)).
    assert (Hs2 : sent s2 = S (sent s)).
    { unfold s2, exec.
      destruct (sleep_seconds_frame lag d
                  (snd (session_request lag transport r s1))) as (_ & _ & ->).
      destruct (session_request_frame lag transport r s1) as (_ & _ & ->).
      now rewrite Hs1. }
    destruct (IH (S a) todo s2) as (s' & -> & Hs').
    { intros i Hi.
      replace (sent s2 + i)%nat with (sent s + S i)%nat by lia.
      replace (S a + i)%nat with (a + S i)%nat by lia.
      apply Hf. lia. }
    exists s'. split; [reflexivity | lia].
Qed.

(** ** [RateLimitedImageFetcher] *)

Lemma fetch_try_failure lag transport url attempt s msg :
  (attempt <= 32)%nat ->
  fetch_failure
    (transport (sent s) {| method := "GET"; url := url; params := [] |})
  = Some msg ->
  exists s',
    RateLimitedImageFetcher.try_fetch lag transport url attempt s
    = (if (attempt =? 2)%nat
       then Returned (Return None) else Returned Continue, s')
    /\ sent s' = S (sent s).
Proof.
  intros Ha Hf.
  destruct (backoff_slept lag attempt Ha) as [Hsec Hsleep].
  unfold RateLimitedImageFetcher.try_fetch,
    RateLimitedImageFetcher.base_delay. rewrite Hsec.
  unfold try_except, bind,
    RateLimitedImageFetcher.session_get,
    RateLimitedImageFetcher.read_content, session_request,
    raise_for_status, raise, ret, time_sleep.
  change (RateLimitedImageFetcher.max_retries - 1)%nat with 2%nat.
  unfold fetch_failure in Hf.
  destruct (transport (sent s) _) as [m|resp].
  - cbn. destruct (attempt =? 2)%nat; cbn.
    + eexists; split; reflexivity.
    + rewrite Hsleep. eexists; split; reflexivity.
  - cbn. destruct (status_code resp =? 429); [discriminate|].
    destruct (status_code resp =? 403); [discriminate|].
    destruct (is_error_status (status_code resp)); cbn.
    + destruct (attempt =? 2)%nat; cbn.
      * eexists; split; reflexivity.
      * rewrite Hsleep. eexists; split; reflexivity.
    + destruct (body resp); [discriminate|]. cbn.
      destruct (attempt =? 2)%nat; cbn.
      * eexists; split; reflexivity.
      * rewrite Hsleep. eexists; split; reflexivity.
Qed.

Lemma fetch_try_success lag transport url attempt s content :
  fetch_success
    (transport (sent s) {| method := "GET"; url := url; params := [] |})
  = Some content ->
  exists s',
    RateLimitedImageFetcher.try_fetch lag transport url attempt s
    = (Returned (Return (Some content)), s')
    /\ sent s' = S (sent s).
Proof.
  intros Hf.
  unfold RateLimitedImageFetcher.try_fetch, try_except, bind,
    RateLimitedImageFetcher.session_get,
    RateLimitedImageFetcher.read_content, session_request,
    raise_for_status, raise, ret.
  unfold fetch_success in Hf.
  destruct (transport (sent s) _) as [m|resp]; [discriminate|].
  cbn. destruct (status_code resp =? 429); [discriminate|].
  destruct (status_code resp =? 403); [discriminate|].
  destruct (is_error_status (status_code resp)); [discriminate|].
  cbn in *. destruct (body resp); [|discriminate].
  injection Hf as ->. cbn. eexists; split; reflexivity.
Qed.

Lemma fetch_try_rate_limited lag transport url attempt s d :
  rate_limited RateLimitedImageFetcher.base_delay attempt
    (transport (sent s) {| method := "GET"; url := url; params := [] |}) d ->
  RateLimitedImageFetcher.try_fetch lag transport url attempt s
  = (Returned Continue,
     exec (sleep_seconds lag d)
       (exec (RateLimitedImageFetcher.session_get lag transport url) s)).
Proof.
  intros (resp & Hr & Hst & Hd & Hpos).
  apply sleep_returns_range in Hpos.
  unfold RateLimitedImageFetcher.try_fetch, try_except, bind,
    RateLimitedImageFetcher.session_get, session_request, lift, exec, ret.
  rewrite Hr. cbn. rewrite Hst. cbn. rewrite Hd. cbn.
  rewrite (sleep_seconds_eq lag d Hpos).
  unfold time_sleep. destruct (Z.ltb_spec (1000 * d) 0); [lia|]. reflexivity.
Qed.

Lemma fetch_attempts_skip_failures lag transport url n :
  forall a todo s,
    (a + n <= 2)%nat ->
    (forall i, (i < n)%nat ->
       is_Some (fetch_failure
                  (transport (sent s + i)%nat
                     {| method := "GET"; url := url; params := [] |}))) ->
    exists s',
      RateLimitedImageFetcher.attempts lag transport url (seq a n ++ todo) s
      = RateLimitedImageFetcher.attempts lag transport url todo s'
      /\ sent s' = (sent s + n)%nat.
Proof.
  induction n as [|n IH]; intros a todo s Ha Hf.
  - exists s. split; [reflexivity | lia].
  - cbn [seq app RateLimitedImageFetcher.attempts].
    unfold bind at 1. unfold RateLimitedImageFetcher.attempt_once, bind at 1.
    destruct (rate_limit_sent lag RateLimitedImageFetcher.min_interval s)
      as (s1 & -> & Hs1).
    destruct (Hf 0%nat ltac:(lia)) as [msg Hmsg].
    rewrite Nat.add_0_r, <- Hs1 in Hmsg.
    destruct (fetch_try_failure lag transport url a s1 msg ltac:(lia) Hmsg)
      as (s2 & -> & Hs2).
    replace (a =? 2)%nat with false by (symmetry; apply Nat.eqb_neq; lia).
    destruct (IH (S a) todo s2 ltac:(lia)) as (s' & -> & Hs').
    { intros i Hi. replace (sent s2 + i)%nat with (sent s + S i)%nat by lia.
      apply Hf. lia. }
    exists s'. split; [reflexivity | lia].
Qed.

Lemma fetch_attempts_skip_rate_limited lag transport url n :
  forall a todo s,
    (forall i, (i < n)%nat ->
       exists d, rate_limited RateLimitedImageFetcher.base_delay (a + i)
                   (transport (sent s + i)%nat
                      {| method := "GET"; url := url; params := [] |}) d) ->
    exists s',
      RateLimitedImageFetcher.attempts lag transport url (seq a n ++ todo) s
      = RateLimitedImageFetcher.attempts lag transport url todo s'
      /\ sent s' = (sent s + n)%nat.
Proof.
  induction n as [|n IH]; intros a todo s Hf.
  - exists s. split; [reflexivity | lia].
  - cbn [seq app RateLimitedImageFetcher.attempts].
    unfold bind at 1. unfold RateLimitedImageFetcher.attempt_once, bind at 1.
    destruct (rate_limit_sent lag RateLimitedImageFetcher.min_interval s)
      as (s1 & -> & Hs1).
    destruct (Hf 0%nat ltac:(lia)) as [d Hd].
    rewrite !Nat.add_0_r, <- Hs1 in Hd.
    rewrite (fetch_try_rate_limited lag transport url a s1 d Hd).
    set (s2 := exec (sleep_seconds lag d)
                 (exec (RateLimitedImageFetcher.session_get lag transport url)
                    s1)).
    assert (Hs2 : sent s2 = S (sent s)).
    { unfold s2, exec, RateLimitedImageFetcher.session_get.
      destruct (sleep_seconds_frame lag d
                  (snd (session_request lag transport
                          {| method := "GET"; url := url; params := [] |} s1)))
        as (_ & _ & ->).
      destruct (session_request_frame lag transport
                  {| method := "GET"; url := url; params := [] |} s1)
        as (_ & _ & ->).
      now rewrite Hs1. }
    destruct (IH (S a) todo s2) as (s' & -> & Hs').
    { intros i Hi.
      replace (sent s2 + i)%nat with (sent s + S i)%nat by lia.
      replace (S a + i)%nat with (a + S i)%nat by lia.
      apply Hf. lia. }
    exists s'. split; [reflexivity | lia].
Qed.

End RetrySteps.

Section RetryCap.

Import Eff Http Paced History.

(** C7.  When the five replies to [_make_request] are all failures, it
    sends exactly five requests and re-raises the last failure; when
    four failures are followed by a success, it returns that response,
    again after exactly five requests.  [fetch_image] does the same with
    three, except that on exhaustion it returns [None]. *)
Theorem retry_cap :
  (forall lag transport r s,
      (forall i, (i < 5)%nat ->
                 is_Some (api_failure (transport (sent s + i)%nat r))) ->
      exists msg s',
        ReadwiseAPI._make_request lag transport r s
        = (Raised (RequestException msg), s')
        /\ api_failure (transport (sent s + 4)%nat r) = Some msg
        /\ sent s' = (sent s + 5)%nat)
  /\ (forall lag transport r s resp,
      (forall i, (i < 4)%nat ->
                 is_Some (api_failure (transport (sent s + i)%nat r))) ->
      api_success (transport (sent s + 4)%nat r) = Some resp ->
      exists s',
        ReadwiseAPI._make_request lag transport r s = (Returned resp, s')
        /\ sent s' = (sent s + 5)%nat)
  /\ (forall lag transport url s,
      (forall i, (i < 3)%nat ->
         is_Some (fetch_failure
                    (transport (sent s + i)%nat
                       {| method := "GET"; url := url; params := [] |}))) ->
      exists s',
        RateLimitedImageFetcher.fetch_image lag transport url s
        = (Returned None, s')
        /\ sent s' = (sent s + 3)%nat)
  /\ (forall lag transport url s content,
      (forall i, (i < 2)%nat ->
         is_Some (fetch_failure
                    (transport (sent s + i)%nat
                       {| method := "GET"; url := url; params := [] |}))) ->
      fetch_success
        (transport (sent s + 2)%nat
           {| method := "GET"; url := url; params := [] |})
      = Some content ->
      exists s',
        RateLimitedImageFetcher.fetch_image lag transport url s
        = (Returned (Some content), s')
        /\ sent s' = (sent s + 3)%nat).
Proof.
  split; [|split; [|split]].
  - intros lag transport r s Hf.
    unfold ReadwiseAPI._make_request.
    change (seq 0 ReadwiseAPI.max_retries) with (seq 0 4 ++ [4%nat]).
    destruct (api_attempts_skip_failures lag transport r 4 0 [4%nat] s
                ltac:(lia)) as (s4 & -> & Hs4).
    { intros i Hi. apply Hf. lia. }
    cbn [ReadwiseAPI.attempts]. unfold bind at 1.
    unfold ReadwiseAPI.attempt_once, bind at 1.
    destruct (rate_limit_sent lag ReadwiseAPI.min_request_interval s4)
      as (s5 & -> & Hs5).
    destruct (Hf 4%nat ltac:(lia)) as [msg Hmsg].
    assert (Hmsg' : api_failure (transport (sent s5) r) = Some msg)
      by now rewrite Hs5, Hs4.
    destruct (api_try_failure lag transport r 4 s5 msg ltac:(lia) Hmsg')
      as (s6 & -> & Hs6).
    exists msg, s6. cbn. split; [reflexivity|]. split; [exact Hmsg | lia].
  - intros lag transport r s resp Hf Hok.
    unfold ReadwiseAPI._make_request.
    change (seq 0 ReadwiseAPI.max_retries) with (seq 0 4 ++ [4%nat]).
    destruct (api_attempts_skip_failures lag transport r 4 0 [4%nat] s
                ltac:(lia) Hf) as (s4 & -> & Hs4).
    cbn [ReadwiseAPI.attempts]. unfold bind at 1.
    unfold ReadwiseAPI.attempt_once, bind at 1.
    destruct (rate_limit_sent lag ReadwiseAPI.min_request_interval s4)
      as (s5 & -> & Hs5).
    assert (Hok' : api_success (transport (sent s5) r) = Some resp)
      by now rewrite Hs5, Hs4.
    destruct (api_try_success lag transport r 4 s5 resp Hok')
      as (s6 & -> & Hs6).
    exists s6. cbn. split; [reflexivity | lia].
  - intros lag transport url s Hf.
    unfold RateLimitedImageFetcher.fetch_image.
    change (seq 0 RateLimitedImageFetcher.max_retries)
      with (seq 0 2 ++ [2%nat]).
    destruct (fetch_attempts_skip_failures lag transport url 2 0 [2%nat] s
                ltac:(lia)) as (s2 & -> & Hs2).
    { intros i Hi. apply Hf. lia. }
    cbn [RateLimitedImageFetcher.attempts]. unfold bind at 1.
    unfold RateLimitedImageFetcher.attempt_once, bind at 1.
    destruct (rate_limit_sent lag RateLimitedImageFetcher.min_interval s2)
      as (s3 & -> & Hs3).
    destruct (Hf 2%nat ltac:(lia)) as [msg Hmsg].
    rewrite <- Hs2, <- Hs3 in Hmsg.
    destruct (fetch_try_failure lag transport url 2 s3 msg ltac:(lia) Hmsg)
      as (s4 & -> & Hs4).
    exists s4. cbn. split; [reflexivity | lia].
  - intros lag transport url s content Hf Hok.
    unfold RateLimitedImageFetcher.fetch_image.
    change (seq 0 RateLimitedImageFetcher.max_retries)
      with (seq 0 2 ++ [2%nat]).
    destruct (fetch_attempts_skip_failures lag transport url 2 0 [2%nat] s
                ltac:(lia) Hf) as (s2 & -> & Hs2).
    cbn [RateLimitedImageFetcher.attempts]. unfold bind at 1.
    unfold RateLimitedImageFetcher.attempt_once, bind at 1.
    destruct (rate_limit_sent lag RateLimitedImageFetcher.min_interval s2)
      as (s3 & -> & Hs3).
    rewrite <- Hs2, <- Hs3 in Hok.
    destruct (fetch_try_success lag transport url 2 s3 content Hok)
      as (s4 & -> & Hs4).
    exists s4. cbn. split; [reflexivity | lia].
Qed.

Lemma retry_cap_witness :
  (forall i, (i < 5)%nat ->
     is_Some (api_failure
                (scripted [] (sent (fresh 0) + i)%nat sample_request)))
  /\ exists msg s',
       ReadwiseAPI._make_request prompt (scripted []) sample_request (fresh 0)
       = (Raised (RequestException msg), s')
       /\ api_failure (scripted [] (sent (fresh 0) + 4)%nat sample_request)
          = Some msg
       /\ sent s' = (sent (fresh 0) + 5)%nat.
Proof.
  assert (H : forall i, (i < 5)%nat ->
     is_Some (api_failure
                (scripted [] (sent (fresh 0) + i)%nat sample_request))).
  { intros i _. unfold scripted. cbn. destruct i; eexists; reflexivity. }
  split; [exact H|].
  exact (proj1 retry_cap prompt (scripted []) sample_request (fresh 0) H).
Defined.

End RetryCap.

Section RateLimited.

Import Eff Http Paced History.

(** C1 (as amended).  On a 429 the client waits for the number of
    seconds that [int] reads from [Retry-After] when that header is
    present, and for [base_delay * 2 ^ attempt] when it is absent.
    When [time.sleep] returns with that wait, at least that many
    seconds have passed, and the client goes on with the rest of the
    loop: the 429 has used up one of the [max_retries] runs of the loop
    body.  A run of nothing but such 429s therefore ends after exactly
    [max_retries] requests: in [_make_request] with the exception
    raised after the loop, in [fetch_image] with [None]. *)
Theorem rate_limited_retry :
  (forall B (resp : response B) default,
      retry_after resp = None ->
      int_retry_after resp default = Returned default)
  /\ (forall B (resp : response B) default header,
      retry_after resp = Some header ->
      int_retry_after resp default = py_int header)
  /\ (forall lag d s,
      sleep_returns d ->
      eval (sleep_seconds lag d) s = Returned tt
      /\ clock s + 1000 * d <= clock (exec (sleep_seconds lag d) s))
  /\ (forall lag transport r attempt rest s d,
      rate_limited ReadwiseAPI.base_delay attempt (transport (sent s) r) d ->
      ReadwiseAPI.attempts lag transport r (attempt :: rest) s
      = ReadwiseAPI.attempts lag transport r rest
          (exec (sleep_seconds lag d)
             (exec (session_request lag transport r)
                (exec (_rate_limit lag ReadwiseAPI.min_request_interval) s))))
  /\ (forall lag transport url attempt rest s d,
      rate_limited RateLimitedImageFetcher.base_delay attempt
        (transport (sent s) {| method := "GET"; url := url; params := [] |}) d ->
      RateLimitedImageFetcher.attempts lag transport url (attempt :: rest) s
      = RateLimitedImageFetcher.attempts lag transport url rest
          (exec (sleep_seconds lag d)
             (exec (RateLimitedImageFetcher.session_get lag transport url)
                (exec (_rate_limit lag RateLimitedImageFetcher.min_interval) s))))
  /\ (forall lag transport r s,
      (forall i, (i < 5)%nat ->
         exists d, rate_limited ReadwiseAPI.base_delay i
                     (transport (sent s + i)%nat r) d) ->
      exists s',
        ReadwiseAPI._make_request lag transport r s
        = (Raised (Exception "Max retries exceeded for Readwise API"), s')
        /\ sent s' = (sent s + 5)%nat)
  /\ (forall lag transport url s,
      (forall i, (i < 3)%nat ->
         exists d, rate_limited RateLimitedImageFetcher.base_delay i
                     (transport (sent s + i)%nat
                        {| method := "GET"; url := url; params := [] |}) d) ->
      exists s',
        RateLimitedImageFetcher.fetch_image lag transport url s
        = (Returned None, s')
        /\ sent s' = (sent s + 3)%nat).
Proof.
  split; [|split; [|split; [|split; [|split; [|split]]]]].
  - intros B resp default H. unfold int_retry_after. now rewrite H.
  - intros B resp default header H1. unfold int_retry_after.
    now rewrite H1.
  - intros lag d s Hd. split; [apply Hd|].
    apply sleep_returns_range in Hd.
    destruct (sleep_seconds_accepted lag d s Hd) as (E & s' & E' & _ & Hc).
    unfold exec. now rewrite E, E'.
  - intros lag transport r attempt rest s d Hd.
    cbn [ReadwiseAPI.attempts]. unfold bind at 1.
    unfold ReadwiseAPI.attempt_once, bind at 1. unfold exec at 3.
    destruct (rate_limit_sent lag ReadwiseAPI.min_request_interval s)
      as (s1 & -> & Hs1).
    rewrite <- Hs1 in Hd.
    now rewrite (api_try_rate_limited lag transport r attempt s1 d Hd).
  - intros lag transport url attempt rest s d Hd.
    cbn [RateLimitedImageFetcher.attempts]. unfold bind at 1.
    unfold RateLimitedImageFetcher.attempt_once, bind at 1. unfold exec at 3.
    destruct (rate_limit_sent lag RateLimitedImageFetcher.min_interval s)
      as (s1 & -> & Hs1).
    rewrite <- Hs1 in Hd.
    now rewrite (fetch_try_rate_limited lag transport url attempt s1 d Hd).
  - intros lag transport r s H.
    unfold ReadwiseAPI._make_request.
    change (seq 0 ReadwiseAPI.max_retries) with (seq 0 5 ++ []).
    destruct (api_attempts_skip_rate_limited lag transport r 5 0 [] s H)
      as (s' & -> & Hs').
    exists s'. split; [reflexivity | exact Hs'].
  - intros lag transport url s H.
    unfold RateLimitedImageFetcher.fetch_image.
    change (seq 0 RateLimitedImageFetcher.max_retries) with (seq 0 3 ++ []).
    destruct (fetch_attempts_skip_rate_limited lag transport url 3 0 [] s H)
      as (s' & -> & Hs').
    exists s'. split; [reflexivity | exact Hs'].
Qed.

Lemma rate_limited_retry_witness :
  let busy := scripted (repeat (too_many_requests Json.JNull) 5) in
  (forall i, (i < 5)%nat ->
     exists d, rate_limited ReadwiseAPI.base_delay i
                 (busy (sent (fresh 0) + i)%nat sample_request) d)
  /\ exists s',
       ReadwiseAPI._make_request prompt busy sample_request (fresh 0)
       = (Raised (Exception "Max retries exceeded for Readwise API"), s')
       /\ sent s' = (sent (fresh 0) + 5)%nat.
Proof.
  cbv zeta.
  assert (H : forall i, (i < 5)%nat ->
     exists d, rate_limited ReadwiseAPI.base_delay i
                 (scripted (repeat (too_many_requests Json.JNull) 5)
                    (sent (fresh 0) + i)%nat sample_request) d).
  { intros i Hi.
    do 5 (destruct i as [|i];
          [eexists; eexists; repeat split; try reflexivity;
           apply sleep_returns_range; vm_compute; split; discriminate|]).
    lia. }
  split; [exact H|].
  exact (proj1 (proj2 (proj2 (proj2 (proj2 (proj2 rate_limited_retry)))))
           prompt _ sample_request (fresh 0) H).
Defined.

(** C1 as stated fails: a 429 does use up an attempt.  Four time-outs
    followed by a 200 end in that 200, at the fifth attempt; with one
    429 in front, the four time-outs exhaust [_make_request], which
    re-raises the last of them and never sends the request that would
    have got the 200. *)
Lemma rate_limited_attempt_is_spent :
  eval (ReadwiseAPI._make_request prompt
          (scripted [timed_out; timed_out; timed_out; timed_out;
                     ok Json.JNull]) sample_request) (fresh 0)
  = Returned {| status_code := 200; retry_after := None; body := Json.JNull |}
  /\ eval (ReadwiseAPI._make_request prompt
             (scripted [too_many_requests Json.JNull;
                        timed_out; timed_out; timed_out; timed_out;
                        ok Json.JNull]) sample_request) (fresh 0)
     = Raised (RequestException "timed out")
  /\ sent (exec (ReadwiseAPI._make_request prompt
                   (scripted [too_many_requests Json.JNull;
                              timed_out; timed_out; timed_out; timed_out;
                              ok Json.JNull]) sample_request) (fresh 0))
     = 5%nat
  /\ ~ budget_kept_after_429.
Proof.
  split; [vm_compute; reflexivity|].
  split; [vm_compute; reflexivity|].
  split; [vm_compute; reflexivity|].
  intros H.
  specialize (H prompt
                [timed_out; timed_out; timed_out; timed_out; ok Json.JNull]
                {| status_code := 429; retry_after := None;
                   body := Json.JNull |}
                sample_request 0 eq_refl eq_refl).
  vm_compute in H. discriminate H.
Qed.

End RateLimited.

(* ===================================================================== *)
(** * [ReadwiseAPI.get_documents] *)
(* ===================================================================== *)

Section GetDocuments.

Import Json Eff Http Paced History Listing.

Lemma reliable_answers lag server : answers lag (reliable server) server.
Proof.
  intros r s. exists {| status_code := 200; retry_after := None;
                        body := server r |}.
  enough (exists s',
    ReadwiseAPI._make_request lag (reliable server) r s
    = (Returned {| status_code := 200; retry_after := None;
                   body := server r |}, s')) as [s' ->] by eauto.
  unfold ReadwiseAPI._make_request.
  change (seq 0 ReadwiseAPI.max_retries) with (0%nat :: seq 1 4).
  cbn [ReadwiseAPI.attempts].
  unfold bind at 1. unfold ReadwiseAPI.attempt_once, bind at 1.
  destruct (rate_limit_sent lag ReadwiseAPI.min_request_interval s)
    as (s1 & -> & _).
  destruct (api_try_success lag (reliable server) r 0 s1
              {| status_code := 200; retry_after := None; body := server r |}
              eq_refl) as (s2 & -> & _).
  now exists s2.
Qed.

Lemma existsb_map {A C} (f : C -> bool) (g : A -> C) l :
  existsb f (map g l) = existsb (fun x => f (g x)) l.
Proof. induction l as [|x l IH]; simpl; [reflexivity | now rewrite IH]. Qed.

(** The test of [get_documents] on a document that is an object. *)
Lemma tag_in_carries tag members :
  ReadwiseAPI.tag_in tag
    (ReadwiseAPI.tag_list
       (match lookup "tags" members with
        | Some v => v
        | None => JObject []
        end))
  = carries_tag tag (JObject members).
Proof.
  unfold carries_tag. destruct (lookup "tags" members) as [[]|];
    try reflexivity.
  unfold ReadwiseAPI.tag_list, ReadwiseAPI.tag_in.
  rewrite existsb_map. reflexivity.
Qed.

Lemma keep_tagged_objects tag docs all_documents :
  forallb is_object docs = true ->
  ReadwiseAPI.keep_tagged tag docs all_documents
  = Returned (all_documents
              ++ filter (fun doc => carries_tag tag doc = true) docs).
Proof.
  revert all_documents.
  induction docs as [|doc docs IH]; intros acc H.
  - cbn. now rewrite app_nil_r.
  - cbn [forallb] in H. apply andb_prop in H as [Hd Hr].
    destruct doc; try discriminate Hd.
    cbn [ReadwiseAPI.keep_tagged Json.dict_get].
    rewrite tag_in_carries, (IH _ Hr), filter_cons.
    destruct (carries_tag tag (JObject members)) eqn:E.
    + rewrite decide_True by reflexivity. now rewrite <- app_assoc.
    + rewrite decide_False by discriminate. reflexivity.
Qed.

(** What [get_documents] reads of a well-formed page. *)
Lemma page_read tag data all_documents :
  is_Some (page_documents data) ->
  exists docs,
    Json.dict_get data "results" (JArray []) = Returned (JArray docs)
    /\ ReadwiseAPI.keep_tagged tag docs all_documents
       = Returned (all_documents ++ tagged tag data)
    /\ Json.dict_get data "nextPageCursor" JNull
       = Returned (next_cursor data).
Proof.
  intros [docs Hd]. unfold tagged. rewrite Hd.
  unfold page_documents in Hd. destruct data; try discriminate Hd.
  cbn [Json.dict_get next_cursor].
  destruct (lookup "results" members) as [[]|]; try discriminate Hd.
  - destruct (forallb is_object items) eqn:Hall; [|discriminate Hd].
    injection Hd as <-. exists items.
    split; [reflexivity|]. split; [now apply keep_tagged_objects|].
    reflexivity.
  - injection Hd as <-. exists []. split; [reflexivity|].
    split; [|reflexivity]. cbn. now rewrite app_nil_r.
Qed.

Lemma fetch_pages_step lag transport server fuel location tag cursor
    all_documents s :
  answers lag transport server ->
  is_Some (page_documents
             (server (ReadwiseAPI.list_request location cursor))) ->
  exists s',
    ReadwiseAPI.fetch_pages lag transport (S fuel) location tag
      cursor all_documents s
    = (let data := server (ReadwiseAPI.list_request location cursor) in
       let found := all_documents ++ tagged tag data in
       if negb (truthy (next_cursor data)) then ret (Some found)
       else ReadwiseAPI.fetch_pages lag transport fuel location tag
              (next_cursor data) found) s'.
Proof.
  intros Hans Hwf. cbn [ReadwiseAPI.fetch_pages]. unfold bind at 1.
  destruct (Hans (ReadwiseAPI.list_request location cursor) s)
    as (resp & s' & -> & Hbody).
  exists s'. rewrite Hbody.
  destruct (page_read tag _ all_documents Hwf) as (docs & E1 & E2 & E3).
  unfold bind, lift. rewrite E1. cbn [Json.iterate].
  rewrite E2, E3. reflexivity.
Qed.

Lemma fetch_pages_chain lag transport server location tag cursor pages :
  answers lag transport server ->
  page_chain server location cursor pages ->
  forall fuel all_documents s,
    (length pages <= fuel)%nat ->
    Forall (fun data => is_Some (page_documents data)) pages ->
    exists s',
      ReadwiseAPI.fetch_pages lag transport fuel location tag
        cursor all_documents s
      = (Returned (Some (all_documents ++ concat (map (tagged tag) pages))),
         s').
Proof.
  intros Hans.
  induction 1 as [cursor Hend|cursor pages Hnext Hchain IH];
    intros fuel acc s Hfuel Hwf.
  - destruct fuel as [|fuel]; [cbn in Hfuel; lia|].
    apply Forall_cons in Hwf as [Hwf _].
    destruct (fetch_pages_step lag transport server fuel location tag cursor
                acc s Hans Hwf) as (s' & ->).
    cbv zeta. rewrite Hend. exists s'. cbn. now rewrite app_nil_r.
  - destruct fuel as [|fuel]; [cbn in Hfuel; lia|].
    apply Forall_cons in Hwf as [Hwf Hrest].
    destruct (fetch_pages_step lag transport server fuel location tag cursor
                acc s Hans Hwf) as (s' & ->).
    cbv zeta. rewrite Hnext. cbn [negb].
    destruct (IH fuel (acc ++ tagged tag
                         (server (ReadwiseAPI.list_request location cursor)))
                s' ltac:(cbn in Hfuel; lia) Hrest) as (s'' & ->).
    exists s''. cbn. now rewrite <- app_assoc.
Qed.

Lemma fetch_locations_chains lag transport server fuel tag locations chains :
  answers lag transport server ->
  Forall2 (fun location pages => page_chain server location JNull pages)
    locations chains ->
  Forall (fun pages =>
            (length pages <= fuel)%nat
            /\ Forall (fun data => is_Some (page_documents data)) pages)
    chains ->
  forall all_documents s,
    exists s',
      ReadwiseAPI.fetch_locations lag transport fuel locations tag
        all_documents s
      = (Returned
           (Some (all_documents
                  ++ concat (map (fun pages => concat (map (tagged tag) pages))
                               chains))), s').
Proof.
  intros Hans.
  induction 1 as [|location pages locations chains Hchain _ IH];
    intros Hwf acc s.
  - exists s. cbn. now rewrite app_nil_r.
  - apply Forall_cons in Hwf as [[Hfuel Hpages] Hrest].
    cbn [ReadwiseAPI.fetch_locations]. unfold bind at 1.
    destruct (fetch_pages_chain lag transport server location tag JNull pages
                Hans Hchain fuel acc s Hfuel Hpages) as (s' & ->).
    destruct (IH Hrest (acc ++ concat (map (tagged tag) pages)) s')
      as (s'' & ->).
    exists s''. cbn. now rewrite <- app_assoc.
Qed.

(** C8.  When every request gets its page from the server (at once or
    after retries), the pages are well formed and the chain of cursors
    ends within [fuel] pages at every location, [get_documents] returns the tagged documents of the
    pages of the first location in page order, then those of the second
    location, and so on, nothing added and nothing merged.  A document
    is tagged when its [tags] is a mapping with the tag among its keys
    or a sequence with the tag among its items; any other [tags] matches
    nothing.  In the scenario (a first page with cursor [abc] and two
    tagged documents, a second page without cursor and one) exactly the
    three tagged documents are returned in page order, and listing the
    location twice returns them twice. *)
Theorem get_documents_listing :
  (forall lag transport server fuel locations tag chains s,
      answers lag transport server ->
      Forall2 (fun location pages => page_chain server location JNull pages)
        locations chains ->
      Forall (fun pages =>
                (length pages <= fuel)%nat
                /\ Forall (fun data => is_Some (page_documents data)) pages)
        chains ->
      exists s',
        ReadwiseAPI.get_documents lag transport fuel locations tag s
        = (Returned
             (Some (concat (map (fun pages => concat (map (tagged tag) pages))
                              chains))), s'))
  /\ (forall tag members tags,
        lookup "tags" members = Some (JObject tags) ->
        carries_tag tag (JObject members) = true <-> In tag (map fst tags))
  /\ (forall tag members tags,
        lookup "tags" members = Some (JArray tags) ->
        carries_tag tag (JObject members) = true <-> In (JString tag) tags)
  /\ (forall tag members,
        (forall tags, lookup "tags" members <> Some (JObject tags)) ->
        (forall tags, lookup "tags" members <> Some (JArray tags)) ->
        carries_tag tag (JObject members) = false)
  /\ eval (ReadwiseAPI.get_documents prompt (reliable two_pages) 2
             ["new"] "remarkable") (fresh 0)
     = Returned (Some [doc_a; doc_b; doc_c])
  /\ eval (ReadwiseAPI.get_documents prompt (reliable two_pages) 2
             ["new"; "new"] "remarkable") (fresh 0)
     = Returned (Some [doc_a; doc_b; doc_c; doc_a; doc_b; doc_c]).
Proof.
  split; [|split; [|split; [|split; [|split]]]].
  - intros lag transport server fuel locations tag chains s Hans Hchains Hwf.
    unfold ReadwiseAPI.get_documents.
    destruct (fetch_locations_chains lag transport server fuel tag locations
                chains Hans Hchains Hwf [] s) as (s' & ->).
    now exists s'.
  - intros tag members tags H. unfold carries_tag. rewrite H.
    rewrite existsb_exists. split.
    + intros ([k v] & Hin & Heq). apply String.eqb_eq in Heq. subst tag.
      apply in_map_iff. now exists (k, v).
    + intros Hin. apply in_map_iff in Hin as ([k v] & <- & Hin).
      exists (k, v). split; [exact Hin | apply String.eqb_refl].
  - intros tag members tags H. unfold carries_tag. rewrite H.
    rewrite existsb_exists. split.
    + intros (j & Hin & Heq). destruct j; try discriminate Heq.
      apply String.eqb_eq in Heq. now subst.
    + intros Hin. exists (JString tag). split; [exact Hin|].
      apply String.eqb_refl.
  - intros tag members H1 H2. unfold carries_tag.
    destruct (lookup "tags" members) as [[]|]; try reflexivity.
    + now contradiction (H2 items).
    + now contradiction (H1 members0).
  - vm_compute. reflexivity.
  - vm_compute. reflexivity.
Qed.

Lemma get_documents_listing_witness :
  answers prompt (reliable two_pages) two_pages
  /\ Forall2 (fun location pages => page_chain two_pages location JNull pages)
    ["new"] [[page_1; page_2]]
  /\ Forall (fun pages =>
               (length pages <= 2)%nat
               /\ Forall (fun data => is_Some (page_documents data)) pages)
       [[page_1; page_2]]
  /\ exists s',
       ReadwiseAPI.get_documents prompt (reliable two_pages) 2 ["new"]
         "remarkable" (fresh 0)
       = (Returned (Some (tagged "remarkable" page_1
                          ++ tagged "remarkable" page_2 ++ [] ++ [])), s').
Proof.
  assert (H1 : Forall2
                 (fun location pages => page_chain two_pages location JNull pages)
                 ["new"] [[page_1; page_2]]).
  { constructor; [|constructor].
    refine (chain_next two_pages "new" JNull [page_2] eq_refl _).
    exact (chain_end two_pages "new" (JString "abc") eq_refl). }
  assert (H2 : Forall (fun pages =>
               (length pages <= 2)%nat
               /\ Forall (fun data => is_Some (page_documents data)) pages)
       [[page_1; page_2]]).
  { repeat constructor; eexists; reflexivity. }
  split; [apply reliable_answers|]. split; [exact H1|]. split; [exact H2|].
  exact (proj1 get_documents_listing prompt (reliable two_pages) two_pages
           2%nat ["new"] "remarkable" [[page_1; page_2]] (fresh 0)
           (reliable_answers prompt two_pages) H1 H2).
Defined.

End GetDocuments.

(* ===================================================================== *)
(** * [ReadwiseRemarkableSync]: the ledger follows the uploads *)
(* ===================================================================== *)

Section LedgerFollowsUploads.

Import Json Eff ReadwiseRemarkableSync Run.

Variable lag_api : nat -> Paced.beat.
Variable transport_api : nat -> Http.request -> Http.reply json.
Variable lag_img : nat -> Paced.beat.
Variable transport_img :
  nat -> Http.request -> Http.reply RateLimitedImageFetcher.stream.
Variable find_all_img : string -> list DocumentConverter.img.
Variable write_fails : string -> bool.
Variable rmapi : nat -> list string -> RemarkableUploader.run_result.
Variable download_ok : nat -> json -> bool.
Variable timestamp : nat -> string.
Variable fuel : nat.
Variable locations : list string.
Variable tag : string.

Lemma untouched_refl w : untouched w w.
Proof. repeat split. Qed.

Lemma untouched_trans w1 w2 w3 :
  untouched w1 w2 -> untouched w2 w3 -> untouched w1 w3.
Proof.
  intros (A1 & A2 & A3) (B1 & B2 & B3).
  repeat split; congruence.
Qed.

Lemma on_converter_untouched {A} (m : M DocumentConverter.converter A) w :
  untouched w (snd (on_converter m w)).
Proof.
  unfold on_converter, zoom. destruct (m (converter w)). repeat split.
Qed.

Lemma on_readwise_untouched {A} (m : M Paced.paced A) w :
  untouched w (snd (on_readwise m w)).
Proof.
  unfold on_readwise, zoom. destruct (m (readwise w)). repeat split.
Qed.

Lemma download_pdf_untouched source_url w :
  untouched w (snd (download_pdf download_ok source_url w)).
Proof.
  unfold download_pdf. destruct (download_ok _ _); repeat split.
Qed.

(** An upload either puts the file on the tablet and returns [True], or
    leaves the tablet as it was and returns [False] or raises. *)
Lemma upload_file_spec name w :
  let r := on_uploader (RemarkableUploader.upload_file rmapi name) w in
  tracker (snd r) = tracker w
  /\ RemarkableUploader.folder (uploader (snd r))
     = RemarkableUploader.folder (uploader w)
  /\ ((fst r = Returned true
       /\ rmapi (RemarkableUploader.runs (uploader w))
            ["put"; name; RemarkableUploader.folder (uploader w)]
          = RemarkableUploader.Exit0
       /\ RemarkableUploader.device (uploader (snd r))
          = RemarkableUploader.device (uploader w)
            ++ [(RemarkableUploader.folder (uploader w), name)])
      \/ (fst r <> Returned true
          /\ rmapi (RemarkableUploader.runs (uploader w))
               ["put"; name; RemarkableUploader.folder (uploader w)]
             <> RemarkableUploader.Exit0
          /\ RemarkableUploader.device (uploader (snd r))
             = RemarkableUploader.device (uploader w))).
Proof.
  cbv zeta. unfold on_uploader, zoom, RemarkableUploader.upload_file,
    try_except, bind, RemarkableUploader.run_put, ret.
  destruct (rmapi _ _) eqn:E; cbn.
  - repeat split. left. repeat split.
  - repeat split. right. repeat split; discriminate.
  - repeat split. right. repeat split; discriminate.
Qed.

(** Writing the entry changes the ledger only. *)
Lemma mark_exported_spec doc_id title w :
  let r := mark_exported timestamp doc_id title w in
  uploader (snd r) = uploader w
  /\ exists ts,
       tracker (snd r)
       = exec (ExportTracker.mark_exported_any ts doc_id title) (tracker w).
Proof.
  cbv zeta. unfold mark_exported, on_tracker, zoom, bind, get, exec.
  match goal with
  | |- context [ExportTracker.mark_exported_any ?ts doc_id title (tracker w)] =>
      destruct (ExportTracker.mark_exported_any ts doc_id title (tracker w))
        as [o t'] eqn:E;
      cbn; split; [reflexivity|]; exists ts; now rewrite E
  end.
Qed.

(** The last two steps of both branches: upload, then mark on
    success. *)
Lemma upload_then_mark doc name doc_id title w0 w :
  tracker w = tracker w0 -> uploader w = uploader w0 ->
  subscript doc "id" = Returned doc_id ->
  let w' :=
    snd ((let* upload_success :=
            on_uploader (RemarkableUploader.upload_file rmapi name) in
          if upload_success then mark_exported timestamp doc_id title
          else ret tt)%eff w) in
  tracker w' = tracker w0 \/ exported_after_upload rmapi doc w0 w'.
Proof.
  intros Ht Hu Hid. cbv zeta. unfold bind.
  destruct (upload_file_spec name w) as (U1 & U2 & U3).
  destruct (on_uploader (RemarkableUploader.upload_file rmapi name) w)
    as [[ok|e] w1]; cbn [fst snd] in *; [|left; congruence].
  destruct ok; [|left; cbn; congruence].
  destruct U3 as [(_ & Hrun & Hdev)|(Hne & _)]; [|congruence].
  destruct (mark_exported_spec doc_id title w1) as (M1 & ts & M2).
  right. exists name, doc_id, title, ts.
  rewrite M1, M2, <- Hu, <- Ht, <- U1. repeat split; congruence.
Qed.

(** Marking needs a successful upload just before. *)
Lemma upload_failure_keeps_ledger name doc_id title w :
  rmapi (RemarkableUploader.runs (uploader w))
    ["put"; name; RemarkableUploader.folder (uploader w)]
  <> RemarkableUploader.Exit0 ->
  let w' :=
    snd ((let* upload_success :=
            on_uploader (RemarkableUploader.upload_file rmapi name) in
          if upload_success then mark_exported timestamp doc_id title
          else ret tt)%eff w) in
  untouched w w'.
Proof.
  intros Hrun. cbv zeta. unfold bind.
  destruct (upload_file_spec name w) as (U1 & U2 & U3).
  destruct U3 as [(_ & Hok & _)|(Hne & _ & Hdev)]; [congruence|].
  destruct (on_uploader (RemarkableUploader.upload_file rmapi name) w)
    as [[ok|e] w1]; cbn [fst snd] in *; [|now repeat split].
  destruct ok; [congruence|]. now repeat split.
Qed.

#[local] Abbreviation process_document :=
  (_process_document lag_img transport_img find_all_img write_fails rmapi
     download_ok timestamp).

(** Peel the pure read at the head of the computation in [E]; when it
    raises, the state is the initial one. *)
Ltac read_field E :=
  match type of E with
  | context [bind (lift ?o) _ _] =>
      unfold bind at 1 in E; unfold lift at 1 in E;
      let x := fresh "x" in
      destruct o as [x|?] eqn:?;
      [|injection E as <- <-; now left]
  end.

Lemma process_document_ledger doc w :
  let w' := exec (process_document doc) w in
  tracker w' = tracker w \/ exported_after_upload rmapi doc w w'.
Proof.
  cbv zeta. unfold exec.
  destruct (process_document doc w) as [r w'] eqn:E. cbn [snd].
  unfold _process_document in E.
  do 5 read_field E.
  destruct (is_pdf x2).
  - (* a PDF *)
    read_field E.
    destruct (negb (truthy x4)); [injection E as <- <-; now left|].
    unfold try_except in E. unfold bind at 1 in E.
    pose proof (download_pdf_untouched x4 w) as (D1 & _ & _).
    assert (Du : uploader (snd (download_pdf download_ok x4 w)) = uploader w).
    { unfold download_pdf. now destruct (download_ok _ _). }
    destruct (download_pdf download_ok x4 w) as [[[]|e] w1];
      cbn [fst snd] in *;
      [|cbn in E; injection E as <- <-; left; exact D1].
    pose proof (upload_then_mark doc
                  (DocumentConverter.clean_filename x3 +:+ ".pdf")
                  x x3 w w1 D1 Du Heqo) as H.
    cbv zeta in H.
    match type of H with
    | context [snd ?m] => destruct m as [[[]|e] w2]
    end; cbn [fst snd] in *; cbn in E; injection E as <- <-; exact H.
  - (* an article *)
    read_field E.
    destruct (negb (truthy x4)); [injection E as <- <-; now left|].
    unfold bind at 1 in E. unfold try_except in E.
    match type of E with
    | context [bind (lift (expect_str x4)) ?k w] => set (convert := k) in E
    end.
    assert (Hc : tracker (snd (bind (lift (expect_str x4)) convert w))
                 = tracker w
                 /\ uploader (snd (bind (lift (expect_str x4)) convert w))
                    = uploader w).
    { unfold bind, lift. destruct (expect_str x4) as [html|e];
        [|now split].
      subst convert. cbv beta. unfold bind.
      match goal with
      | |- context [on_converter ?m w] =>
          pose proof (on_converter_untouched m w) as (C1 & _);
          assert (C2 : uploader (snd (on_converter m w)) = uploader w)
            by (unfold on_converter, zoom; now destruct (m (converter w)));
          destruct (on_converter m w) as [[p|e] w1]
      end; cbn [fst snd] in *; now split. }
    destruct (bind (lift (expect_str x4)) convert w) as [[converted|e] w1];
      cbn [fst snd] in *; destruct Hc as [C1 C2].
    + destruct converted; cbn [negb] in E;
        [|injection E as <- <-; left; exact C1].
      pose proof (upload_then_mark doc
                    (DocumentConverter.clean_filename x3 +:+ ".epub")
                    x x3 w w1 C1 C2 Heqo) as H.
      cbv zeta in H. rewrite E in H. exact H.
    + cbn in E. injection E as <- <-. left. exact C1.
Qed.

Lemma sapp_same (c e : string) : c +:+ e = c -> e = "".
Proof.
  induction c as [|x r IH]; [auto|]. rewrite sapp_cons.
  intros [= H]. auto.
Qed.

(** Every call of [mark_exported] shows in the ledger file. *)
Lemma mark_exported_shows ts doc_id title t :
  exec (ExportTracker.mark_exported ts doc_id title) t <> t.
Proof.
  intros H. apply (f_equal ExportTracker.tracker_file) in H.
  rewrite exec_mark_exported in H. cbn [ExportTracker.tracker_file] in H.
  assert (Hne : forall rest : string, ts +:+ " - " +:+ rest <> "")
    by (intros rest; destruct ts; discriminate).
  destruct (ExportTracker.tracker_file t) as [|c|c tl rd];
    cbn [ExportTracker.append] in H; [discriminate| |];
    injection H as H; apply sapp_same in H; now apply Hne in H.
Qed.

(** The same for any identifier that can be written out. *)
Lemma mark_exported_any_shows ts doc_id title t shown :
  Json.py_str doc_id = Returned shown ->
  exec (ExportTracker.mark_exported_any ts doc_id title) t <> t.
Proof.
  intros Hs.
  assert (Hfile : forall entry : string,
             entry <> "" ->
             ExportTracker.append (ExportTracker.tracker_file t) entry
             <> ExportTracker.tracker_file t).
  { intros entry Hne H.
    destruct (ExportTracker.tracker_file t) as [|c|c tl rd];
      cbn [ExportTracker.append] in H; [discriminate| |];
      injection H as H; now apply sapp_same in H. }
  assert (Hne : forall rest : string, ts +:+ " - " +:+ rest <> "")
    by (intros rest; destruct ts; discriminate).
  destruct doc_id; try apply mark_exported_shows;
    unfold exec, ExportTracker.mark_exported_any, bind, lift;
    rewrite Hs; cbn; intros H;
    apply (f_equal ExportTracker.tracker_file) in H;
    cbn [ExportTracker.tracker_file] in H;
    exact (Hfile _ (Hne _) H).
Qed.

(** What a call of [mark_exported] leaves in the set of strings. *)
Lemma mark_exported_any_docs ts doc_id title t s :
  s ∈ ExportTracker.exported_docs
        (exec (ExportTracker.mark_exported_any ts doc_id title) t) ->
  doc_id = JString s \/ s ∈ ExportTracker.exported_docs t.
Proof.
  destruct doc_id;
    try (unfold exec, ExportTracker.mark_exported_any, bind, lift;
         destruct (Json.py_str _); cbn; now right).
  unfold ExportTracker.mark_exported_any.
  rewrite exec_mark_exported. cbn [ExportTracker.exported_docs].
  intros H. apply elem_of_union in H as [H|H]; [|now right].
  apply elem_of_singleton in H as ->. now left.
Qed.

(** ** What stops a document before the upload *)

Lemma stop_without_source_url doc w i t ts c u :
  subscript doc "id" = Returned i ->
  subscript doc "title" = Returned t -> expect_str t = Returned ts ->
  Json.dict_get doc "category" (JString "article") = Returned c ->
  is_pdf c = true ->
  Json.dict_get doc "source_url" JNull = Returned u ->
  truthy u = false ->
  process_document doc w = (Returned tt, w).
Proof.
  intros Hi Ht Hts Hc Hp Hu Hf.
  destruct doc; try discriminate Hi.
  unfold _process_document, bind, lift.
  rewrite Hi, Ht, Hts, Hc, Hp, Hu, Hf. reflexivity.
Qed.

Lemma stop_at_download doc w i t ts c u :
  subscript doc "id" = Returned i ->
  subscript doc "title" = Returned t -> expect_str t = Returned ts ->
  Json.dict_get doc "category" (JString "article") = Returned c ->
  is_pdf c = true ->
  Json.dict_get doc "source_url" JNull = Returned u ->
  truthy u = true ->
  download_ok (downloads w) u = false ->
  untouched w (exec (process_document doc) w).
Proof.
  intros Hi Ht Hts Hc Hp Hu Hf Hd.
  destruct doc; try discriminate Hi.
  unfold exec, _process_document, bind, lift.
  rewrite Hi, Ht, Hts, Hc, Hp, Hu, Hf. cbn [negb].
  unfold try_except, download_pdf. rewrite Hd. cbn. repeat split.
Qed.

Lemma stop_without_content doc w i t ts c h :
  subscript doc "id" = Returned i ->
  subscript doc "title" = Returned t -> expect_str t = Returned ts ->
  Json.dict_get doc "category" (JString "article") = Returned c ->
  is_pdf c = false ->
  Json.dict_get doc "html_content" (JString "") = Returned h ->
  truthy h = false ->
  process_document doc w = (Returned tt, w).
Proof.
  intros Hi Ht Hts Hc Hp Hh Hf.
  destruct doc; try discriminate Hi.
  unfold _process_document, bind, lift.
  rewrite Hi, Ht, Hts, Hc, Hp, Hh, Hf. reflexivity.
Qed.

Lemma stop_at_conversion doc w i t ts a c h html e :
  subscript doc "id" = Returned i ->
  subscript doc "title" = Returned t -> expect_str t = Returned ts ->
  Json.dict_get doc "author" (JString "Unknown") = Returned a ->
  Json.dict_get doc "category" (JString "article") = Returned c ->
  is_pdf c = false ->
  Json.dict_get doc "html_content" (JString "") = Returned h ->
  truthy h = true -> expect_str h = Returned html ->
  eval (on_converter
          (DocumentConverter.html_to_epub lag_img transport_img find_all_img
             write_fails html ts (author_of a)
             (Some (temp (DocumentConverter.clean_filename ts +:+ ".epub")))))
    w = Raised e ->
  untouched w (exec (process_document doc) w).
Proof.
  intros Hi Ht Hts Ha Hc Hp Hh Hf Hhtml Hconv.
  unfold exec, _process_document, bind, lift.
  rewrite Hi, Ht, Hts, Ha, Hc, Hp, Hh, Hf, Hhtml. cbn [negb].
  unfold try_except, eval in *.
  match goal with
  | |- context [on_converter ?m w] =>
      pose proof (on_converter_untouched m w) as Hu;
      destruct (on_converter m w) as [[p|e'] w1]
  end; cbn [fst snd] in *; [discriminate Hconv|].
  cbn. exact Hu.
Qed.

(** ** A whole run *)

#[local] Abbreviation process_every :=
  (process_all lag_img transport_img find_all_img write_fails rmapi
     download_ok timestamp).

#[local] Abbreviation run_sync :=
  (sync lag_api transport_api lag_img transport_img find_all_img write_fails
     rmapi download_ok timestamp fuel locations tag).

Lemma try_swallow {S} (m : M S unit) s :
  try_except m is_Exception (fun e => ret tt) s = (Returned tt, snd (m s)).
Proof. unfold try_except. now destruct (m s) as [[[]|e] s']. Qed.

(** One turn of the loop over the new documents. *)
Lemma process_all_snoc before doc w0 :
  let w1 := exec (process_every before) w0 in
  let w2 := exec (process_every (before ++ [doc])) w0 in
  w2 = w1 \/ w2 = exec (process_document doc) w1.
Proof.
  cbv zeta. unfold exec.
  assert (E : process_every (before ++ [doc]) w0
              = (process_every before >> process_every [doc])%eff w0)
    by apply for_each_app.
  rewrite E. unfold bind.
  destruct (process_every before w0) as [[[]|e] w1]; cbn [snd]; [|now left].
  destruct (subscript doc "title") as [t|e] eqn:Ht.
  - right. unfold process_all. cbn [for_each]. unfold bind, lift.
    now rewrite Ht, try_swallow.
  - left. unfold process_all. cbn [for_each]. unfold bind, lift.
    now rewrite Ht.
Qed.

Lemma process_all_step before doc w0 :
  let w1 := exec (process_every before) w0 in
  let w2 := exec (process_every (before ++ [doc])) w0 in
  tracker w2 = tracker w1
  \/ (w2 = exec (process_document doc) w1
      /\ exported_after_upload rmapi doc w1 w2).
Proof.
  cbv zeta.
  destruct (process_all_snoc before doc w0) as [->| ->]; [now left|].
  destruct (process_document_ledger doc (exec (process_every before) w0))
    as [H|H]; [now left | now right].
Qed.

Lemma process_all_ledger todo w0 doc_id :
  doc_id ∈ ExportTracker.exported_docs (tracker (exec (process_every todo) w0)) ->
  doc_id ∈ ExportTracker.exported_docs (tracker w0)
  \/ exists before doc after,
       todo = before ++ doc :: after
       /\ subscript doc "id" = Returned (JString doc_id)
       /\ exported_after_upload rmapi doc
            (exec (process_every before) w0)
            (exec (process_document doc) (exec (process_every before) w0)).
Proof.
  induction todo as [|doc todo IH] using rev_ind; [now left|].
  intros Hin.
  assert (Hold :
    doc_id ∈ ExportTracker.exported_docs (tracker (exec (process_every todo) w0))
    -> doc_id ∈ ExportTracker.exported_docs (tracker w0)
       \/ exists before d after,
            todo ++ [doc] = before ++ d :: after
            /\ subscript d "id" = Returned (JString doc_id)
            /\ exported_after_upload rmapi d
                 (exec (process_every before) w0)
                 (exec (process_document d) (exec (process_every before) w0))).
  { intros H. destruct (IH H) as [?|(b & d & a & -> & Hd & He)]; [now left|].
    right. exists b, d, (a ++ [doc]).
    split; [now rewrite <- app_assoc|]. now split. }
  destruct (process_all_step todo doc w0) as [E|[E Hexp]].
  - apply Hold. now rewrite <- E.
  - pose proof Hexp as (name & id & title & ts & _ & _ & _ & Hid & Ht).
    rewrite Ht in Hin.
    apply mark_exported_any_docs in Hin as [-> | Hin]; [|now apply Hold].
    right. exists todo, doc, []. split; [reflexivity|]. split; [exact Hid|].
    now rewrite <- E.
Qed.

Lemma new_documents_pure documents w :
  snd (new_documents documents w) = w.
Proof.
  induction documents as [|doc rest IH]; [reflexivity|].
  cbn [new_documents]. unfold bind, lift, get, ret.
  destruct (subscript doc "id"); [|reflexivity].
  destruct (ExportTracker.is_exported_any a (tracker w)); [|reflexivity].
  destruct (new_documents rest w) as [[others|e] w']; cbn in *; now subst.
Qed.

Lemma new_documents_sublist documents w todo :
  fst (new_documents documents w) = Returned todo ->
  forall doc, doc ∈ todo -> doc ∈ documents.
Proof.
  revert todo. induction documents as [|d rest IH]; intros todo.
  - cbn. intros [= <-] doc H. exact H.
  - cbn [new_documents]. unfold bind, lift, get, ret.
    destruct (subscript d "id"); [|discriminate].
    destruct (ExportTracker.is_exported_any a (tracker w)) as [exported|];
      [|discriminate].
    destruct (new_documents rest w) as [[others|e] w'] eqn:E;
      cbn in *; [|discriminate].
    intros [= <-] doc Hin.
    destruct exported.
    + apply list_elem_of_further. now apply (IH others).
    + apply elem_of_cons in Hin as [->|Hin]; [apply list_elem_of_here|].
      apply list_elem_of_further. now apply (IH others).
Qed.

Lemma cleanup_keeps_tracker w :
  tracker (exec _cleanup_temp_files w) = tracker w.
Proof. reflexivity. Qed.

#[local] Abbreviation listing_of :=
  (on_readwise
     (ReadwiseAPI.get_documents lag_api transport_api fuel locations tag)).

(** A run of [sync] changes the ledger through the loop over the new
    documents only. *)
Lemma sync_ledger w :
  let w' := exec run_sync w in
  tracker w' = tracker w
  \/ exists documents todo,
       eval listing_of w = Returned (Some documents)
       /\ new_documents documents (exec listing_of w) 
          = (Returned todo, exec listing_of w)
       /\ tracker (exec listing_of w) = tracker w
       /\ tracker w' = tracker (exec (process_every todo) (exec listing_of w)).
Proof.
  cbv zeta. unfold eval, exec, sync. cbv zeta.
  match goal with
  | |- context [let (_, _) := ?body w in _] =>
      destruct (body w) as [r w'] eqn:E
  end.
  cbn [snd].
  change (snd (_cleanup_temp_files w')) with (exec _cleanup_temp_files w').
  rewrite cleanup_keeps_tracker.
  unfold bind at 1 in E.
  match type of E with
  | context [on_readwise ?m w] =>
      pose proof (on_readwise_untouched m w) as (Hr & _);
      destruct (on_readwise m w) as [[fetched|e] w0]
  end; cbn [fst snd] in *;
    [|injection E as <- <-; now left].
  destruct fetched as [documents|];
    [|injection E as <- <-; now left].
  destruct (negb (truthy (JArray documents)));
    [injection E as <- <-; now left|].
  unfold bind at 1 in E.
  pose proof (new_documents_pure documents w0) as Hpure.
  destruct (new_documents documents w0) as [[todo|e] w0'] eqn:En;
    cbn [fst snd] in *; subst w0';
    [|injection E as <- <-; now left].
  destruct (negb (truthy (JArray todo)));
    [injection E as <- <-; now left|].
  unfold bind at 1 in E.
  assert (Hw' : w' = snd (process_every todo w0)).
  { destruct (process_every todo w0) as [[[]|e] w2];
      now injection E as <- <-. }
  subst w'. right. exists documents, todo. repeat split; auto.
Qed.

(** C4.  Processing a document either leaves the ledger as it is, or
    puts one file on the tablet through a run of [rmapi] that exits
    with status zero and then calls [mark_exported], once, for that
    document; and a call of [mark_exported] that writes its entry
    always shows in the ledger.  So the ledger is unchanged when the
    upload does not succeed, and when the document is stopped earlier:
    without a source URL, by a failed download, without content, or by
    a failed conversion.  A run of [sync] changes the ledger in the
    loop over the new documents only, which are taken from the listing
    of this run; every turn of that loop leaves the ledger as it is or
    is the processing of its document, from the state the run is in,
    with the upload before the entry; and every identifier new in the
    set belongs to a new document of the run that was processed that
    way. *)
Theorem ledger_follows_uploads :
  (forall doc w,
      let w' := exec (process_document doc) w in
      tracker w' = tracker w \/ exported_after_upload rmapi doc w w')
  /\ (forall ts doc_id title t shown,
        Json.py_str doc_id = Returned shown ->
        exec (ExportTracker.mark_exported_any ts doc_id title) t <> t)
  /\ (forall doc w,
        (forall name,
            rmapi (RemarkableUploader.runs (uploader w))
              ["put"; name; RemarkableUploader.folder (uploader w)]
            <> RemarkableUploader.Exit0) ->
        tracker (exec (process_document doc) w) = tracker w)
  /\ (forall doc w title author category source_url,
        reads doc title author category -> is_pdf category = true ->
        Json.dict_get doc "source_url" JNull = Returned source_url ->
        truthy source_url = false
        \/ download_ok (downloads w) source_url = false ->
        untouched w (exec (process_document doc) w))
  /\ (forall doc w title author category html_content,
        reads doc title author category -> is_pdf category = false ->
        Json.dict_get doc "html_content" (JString "")
        = Returned html_content ->
        truthy html_content = false
        \/ (exists html e,
              expect_str html_content = Returned html
              /\ eval (on_converter
                         (DocumentConverter.html_to_epub lag_img transport_img
                            find_all_img write_fails html title
                            (author_of author)
                            (Some (temp (DocumentConverter.clean_filename title
                                         +:+ ".epub"))))) w
                 = Raised e) ->
        untouched w (exec (process_document doc) w))
  /\ (forall w,
        let w0 := exec listing_of w in
        let w' := exec run_sync w in
        tracker w' = tracker w
        \/ exists documents todo,
             eval listing_of w = Returned (Some documents)
             /\ new_documents documents w0 = (Returned todo, w0)
             /\ tracker w0 = tracker w
             /\ tracker w' = tracker (exec (process_every todo) w0))
  /\ (forall before doc w0,
        let w1 := exec (process_every before) w0 in
        let w2 := exec (process_every (before ++ [doc])) w0 in
        tracker w2 = tracker w1
        \/ (w2 = exec (process_document doc) w1
            /\ exported_after_upload rmapi doc w1 w2))
  /\ (forall w doc_id,
        let w0 := exec listing_of w in
        doc_id ∈ ExportTracker.exported_docs (tracker (exec run_sync w)) ->
        doc_id ∈ ExportTracker.exported_docs (tracker w)
        \/ exists documents todo before doc after,
             eval listing_of w = Returned (Some documents)
             /\ new_documents documents w0 = (Returned todo, w0)
             /\ todo = before ++ doc :: after
             /\ subscript doc "id" = Returned (JString doc_id)
             /\ exported_after_upload rmapi doc
                  (exec (process_every before) w0)
                  (exec (process_document doc)
                     (exec (process_every before) w0))).
Proof.
  split; [|split; [|split; [|split; [|split; [|split; [|split]]]]]].
  - exact process_document_ledger.
  - exact mark_exported_any_shows.
  - intros doc w Hfail.
    destruct (process_document_ledger doc w)
      as [H|(name & ? & ? & ? & Hrun & _)]; [exact H|].
    now contradiction (Hfail name).
  - intros doc w title author category source_url
      ([i Hi] & Ht & _ & Hc) Hp Hu [Hf|Hd].
    + unfold exec.
      rewrite (stop_without_source_url doc w i (JString title) title category
                 source_url Hi Ht eq_refl Hc Hp Hu Hf).
      apply untouched_refl.
    + destruct (truthy source_url) eqn:Hf.
      * exact (stop_at_download doc w i (JString title) title category
                 source_url Hi Ht eq_refl Hc Hp Hu Hf Hd).
      * unfold exec.
        rewrite (stop_without_source_url doc w i (JString title) title
                   category source_url Hi Ht eq_refl Hc Hp Hu Hf).
        apply untouched_refl.
  - intros doc w title author category html_content
      ([i Hi] & Ht & Ha & Hc) Hp Hh [Hf|(html & e & Hs & Hconv)].
    + unfold exec.
      rewrite (stop_without_content doc w i (JString title) title category
                 html_content Hi Ht eq_refl Hc Hp Hh Hf).
      apply untouched_refl.
    + destruct (truthy html_content) eqn:Hf.
      * exact (stop_at_conversion doc w i (JString title) title author
                 category html_content html e Hi Ht eq_refl Ha Hc Hp Hh Hf
                 Hs Hconv).
      * unfold exec.
        rewrite (stop_without_content doc w i (JString title) title category
                   html_content Hi Ht eq_refl Hc Hp Hh Hf).
        apply untouched_refl.
  - exact sync_ledger.
  - exact process_all_step.
  - intros w doc_id w0 Hin.
    destruct (sync_ledger w) as [E|(documents & todo & Hl & Hn & Hw0 & E)].
    + left. now rewrite <- E.
    + rewrite E in Hin.
      destruct (process_all_ledger todo _ doc_id Hin)
        as [Hold|(before & doc & after & Ht & Hid & Hexp)].
      * left. now rewrite <- Hw0.
      * right. exists documents, todo, before, doc, after. auto.
Qed.

End LedgerFollowsUploads.

Lemma ledger_follows_uploads_witness :
  let rmapi : nat -> list string -> RemarkableUploader.run_result :=
    fun _ _ => RemarkableUploader.ExitNonzero in
  (forall name,
      rmapi (RemarkableUploader.runs
               (ReadwiseRemarkableSync.uploader Run.initial))
        ["put"; name;
         RemarkableUploader.folder
           (ReadwiseRemarkableSync.uploader Run.initial)]
      <> RemarkableUploader.Exit0)
  /\ ReadwiseRemarkableSync.tracker
       (Eff.exec
          (ReadwiseRemarkableSync._process_document History.prompt
             (History.scripted []) Run.article_imgs (fun _ => false) rmapi
             (fun _ _ => true) Run.at_noon Run.article)
          Run.initial)
     = ReadwiseRemarkableSync.tracker Run.initial.
Proof.
  cbv zeta.
  assert (H : forall name : string,
             RemarkableUploader.ExitNonzero <> RemarkableUploader.Exit0)
    by discriminate.
  split; [exact H|].
  exact (proj1 (proj2 (proj2
           (ledger_follows_uploads History.prompt (History.scripted [])
              History.prompt (History.scripted []) Run.article_imgs
              (fun _ => false)
              (fun _ _ => RemarkableUploader.ExitNonzero)
              (fun _ _ => true) Run.at_noon 0%nat [] "")))
           Run.article Run.initial H).
Defined.

(* ===================================================================== *)
(** * Image fetching inside the conversion *)
(* ===================================================================== *)

Section ImageFetching.

Import Eff Http Paced History DocumentConverter.

(** C5, at a 429 whose [Retry-After] is an HTTP date.  [int] rejects
    the header with a [ValueError], which is not a [RequestException]:
    [fetch_image] raises it instead of returning [None], [html_to_epub]
    raises it too and writes no file, and the document is neither
    uploaded nor marked.  A negative [Retry-After] does the same through
    [time.sleep]. *)
Theorem fetch_image_raises_on_dated_retry_after :
  let busy := scripted [retry_at_date (RateLimitedImageFetcher.Chunks [])] in
  let fresh_converter := {| image_fetcher := fresh 0; written := [] |} in
  let convert :=
    html_to_epub prompt busy Run.article_imgs (fun _ => false)
      "<p><img src=https://example.com/figure.png></p>" "An article" None
      (Some "temp/An article.epub") in
  let process :=
    ReadwiseRemarkableSync._process_document prompt busy Run.article_imgs
      (fun _ => false) (fun _ _ => RemarkableUploader.Exit0)
      (fun _ _ => true) Run.at_noon Run.article in
  eval (RateLimitedImageFetcher.fetch_image prompt busy sample_image) (fresh 0)
  = Raised (ValueError "invalid literal for int() with base 10")
  /\ eval convert fresh_converter
     = Raised (ValueError "invalid literal for int() with base 10")
  /\ written (exec convert fresh_converter) = []
  /\ RemarkableUploader.device
       (ReadwiseRemarkableSync.uploader (exec process Run.initial)) = []
  /\ ReadwiseRemarkableSync.tracker (exec process Run.initial)
     = ReadwiseRemarkableSync.tracker Run.initial
  /\ eval (RateLimitedImageFetcher.fetch_image prompt
             (scripted [retry_in_the_past (RateLimitedImageFetcher.Chunks [])])
             sample_image) (fresh 0)
     = Raised (ValueError "sleep length must be non-negative").
Proof. vm_compute. repeat split; reflexivity. Qed.

(** Where the claim holds: when no 429 carries a wait that trips the
    client, [fetch_image] returns, whatever else the network does. *)
Lemma fetch_attempts_return lag transport url todo :
  (forall k attempt,
      waits_well RateLimitedImageFetcher.base_delay attempt
        (transport k {| method := "GET"; url := url; params := [] |})) ->
  Forall (fun attempt => (attempt <= 32)%nat) todo ->
  forall s,
    exists r s',
      RateLimitedImageFetcher.attempts lag transport url todo s
      = (Returned r, s').
Proof.
  intros Hw Hall. induction Hall as [|attempt rest Ha _ IH]; intros s.
  - now exists None, s.
  - cbn [RateLimitedImageFetcher.attempts]. unfold bind at 1.
    unfold RateLimitedImageFetcher.attempt_once, bind at 1.
    destruct (rate_limit_sent lag RateLimitedImageFetcher.min_interval s)
      as (s1 & -> & _).
    destruct (backoff_slept lag attempt Ha) as [Hsec Hsleep].
    assert (Htry : exists x s2,
      RateLimitedImageFetcher.try_fetch lag transport url attempt s1
      = (Returned x, s2)).
    { specialize (Hw (sent s1) attempt).
      unfold waits_well, RateLimitedImageFetcher.base_delay in Hw.
      unfold RateLimitedImageFetcher.try_fetch,
        RateLimitedImageFetcher.base_delay. rewrite Hsec.
      unfold try_except, bind,
        RateLimitedImageFetcher.session_get,
        RateLimitedImageFetcher.read_content, session_request, lift,
        raise_for_status, raise, ret, time_sleep.
      destruct (transport (sent s1) _) as [msg|resp]; cbn.
      - destruct (attempt =? _)%nat;
          cbn; [eexists _, _; reflexivity|].
        rewrite Hsleep. eexists _, _; reflexivity.
      - destruct (Z.eqb_spec (status_code resp) 429) as [H429|_].
        + destruct (Hw resp eq_refl H429) as (d & -> & Hd). cbn.
          apply sleep_returns_range in Hd.
          rewrite (sleep_seconds_eq lag d Hd). unfold time_sleep.
          destruct (Z.ltb_spec (1000 * d) 0); [lia|].
          eexists _, _; reflexivity.
        + destruct (status_code resp =? 403); [eexists _, _; reflexivity|].
          destruct (is_error_status (status_code resp)); cbn.
          * destruct (attempt =? _)%nat;
              cbn; [eexists _, _; reflexivity|].
            rewrite Hsleep. eexists _, _; reflexivity.
          * destruct (body resp); cbn; [eexists _, _; reflexivity|].
            destruct (attempt =? _)%nat;
              cbn; [eexists _, _; reflexivity|].
            rewrite Hsleep. eexists _, _; reflexivity. }
    destruct Htry as (x & s2 & ->).
    destruct x as [|result]; [apply IH | now exists result, s2].
Qed.

Lemma fetch_image_returns lag transport url s :
  (forall k attempt,
      waits_well RateLimitedImageFetcher.base_delay attempt
        (transport k {| method := "GET"; url := url; params := [] |})) ->
  exists r s',
    RateLimitedImageFetcher.fetch_image lag transport url s = (Returned r, s').
Proof.
  intros Hw. apply fetch_attempts_return; [exact Hw|].
  repeat constructor; lia.
Qed.

(** An image whose fetch returns nothing keeps its element as it is,
    and the loop goes on with the elements after it. *)
Lemma embed_images_keeps_failed lag transport i rest n images s s' :
  is_remote i = Some (default "" (src i)) ->
  RateLimitedImageFetcher.fetch_image lag transport (default "" (src i)) s
  = (Returned None, s') ->
  embed_images lag transport (i :: rest) n images s
  = (let* done := embed_images lag transport rest n images in
     ret (i :: fst done, snd done))%eff s'.
Proof.
  intros Hr Hf. cbn [embed_images]. rewrite Hr.
  unfold bind at 1. now rewrite Hf.
Qed.

Lemma embed_images_all_failed lag transport imgs n images s :
  (forall url s, exists s',
      RateLimitedImageFetcher.fetch_image lag transport url s
      = (Returned None, s')) ->
  exists s',
    embed_images lag transport imgs n images s = (Returned (imgs, images), s').
Proof.
  intros Hnone. revert s. induction imgs as [|i rest IH]; intros s.
  - now exists s.
  - cbn [embed_images]. destruct (is_remote i) as [url|].
    + unfold bind at 1. destruct (Hnone url s) as (s1 & ->).
      unfold bind. destruct (IH s1) as (s2 & ->). now exists s2.
    + unfold bind. destruct (IH s) as (s2 & ->). now exists s2.
Qed.

(** When every fetch comes back empty-handed, the conversion still
    writes the book, with every [img] element as it was and no image
    embedded. *)
Lemma html_to_epub_degrades lag transport find_all_img write_fails
    html title author path c :
  (forall url s, exists s',
      RateLimitedImageFetcher.fetch_image lag transport url s
      = (Returned None, s')) ->
  Py.nonempty html = true -> write_fails path = false ->
  (forall j, author <> Some (Other j)) ->
  exists c' b,
    html_to_epub lag transport find_all_img write_fails html title author
      (Some path) c
    = (Returned path, c')
    /\ written c' = written c ++ [(path, b)]
    /\ chapter_imgs b = Some (find_all_img html)
    /\ book_images b = [].
Proof.
  intros Hnone Hhtml Hwrite Hauthor. unfold html_to_epub. rewrite Hhtml.
  unfold bind at 1. unfold bind at 1. unfold on_fetcher, zoom.
  destruct (embed_images_all_failed lag transport (find_all_img html) 0 []
              (image_fetcher c) Hnone) as (f' & ->).
  cbn [ret fst snd]. unfold bind, write_epub, format_byline.
  rewrite Hwrite.
  destruct author as [[a|j]|]; [|now contradiction (Hauthor j)|];
    unfold modify, ret; cbn;
    (eexists _, _; split; [reflexivity|]; cbn; repeat split).
Qed.

End ImageFetching.

(* ===================================================================== *)
(** * More about [DocumentConverter.clean_filename] *)
(* ===================================================================== *)

Section CleanFilenameAgain.

Import Py Shape DocumentConverter.

Lemma remove_class_clean cls s :
  all_chars (fun c => negb (cls c)) s = true -> remove_class cls s = s.
Proof.
  induction s as [|c r IH]; simpl; [reflexivity|].
  intros H. apply andb_prop in H as [Hc Hr].
  apply negb_true_iff in Hc. rewrite Hc. now rewrite IH.
Qed.

Lemma collapse_ws_single_spaced b s :
  single_spaced b s = true -> collapse_ws b s = s.
Proof.
  revert b. induction s as [|c r IH]; intros b; simpl; [reflexivity|].
  destruct (isspace c).
  - intros H. apply andb_prop in H as [H Hr]. apply andb_prop in H as [Hb Hc].
    destruct b; [discriminate|]. apply Ascii.eqb_eq in Hc. subst c.
    now rewrite (IH true Hr).
  - intros H. now rewrite (IH false H).
Qed.

(** X1.  Cleaning a cleaned name changes nothing: a file name produced
    by [clean_filename] is its own cleaned form. *)
Theorem clean_filename_idempotent (title : string) :
  clean_filename (clean_filename title) = clean_filename title.
Proof.
  set (cleaned := strip (collapse_ws false (remove_class invalid_char title))).
  assert (E : clean_filename title
              = if nonempty cleaned then cleaned else "Untitled")
    by reflexivity.
  rewrite E. destruct (nonempty cleaned) eqn:Hne; [|reflexivity].
  unfold clean_filename.
  assert (H1 : remove_class invalid_char cleaned = cleaned).
  { apply remove_class_clean.
    apply all_chars_rstrip, all_chars_lstrip, all_chars_collapse_ws;
      [reflexivity | apply all_chars_remove_class]. }
  assert (H2 : collapse_ws false cleaned = cleaned).
  { apply collapse_ws_single_spaced.
    apply single_spaced_rstrip, single_spaced_lstrip,
      single_spaced_collapse_ws. }
  assert (H3 : strip cleaned = cleaned) by apply strip_idem.
  now rewrite H1, H2, H3, Hne.
Qed.

End CleanFilenameAgain.

(* ===================================================================== *)
(** * More about [DocumentConverter._determine_image_extension] *)
(* ===================================================================== *)

Section ImageExtensionAgain.

Import Py Shape DocumentConverter.

Lemma image_extension_known url content :
  In (_determine_image_extension url content)
     ["png"; "jpg"; "gif"; "webp"; "svg"; "bmp"].
Proof.
  unfold _determine_image_extension.
  destruct (bytes_startswith magic_png content); [simpl; tauto|].
  destruct (bytes_startswith magic_jpeg content); [simpl; tauto|].
  destruct (bytes_startswith magic_gif content); [simpl; tauto|].
  destruct (_ && _); [simpl; tauto|].
  destruct (_ || _); [simpl; tauto|].
  destruct (contains_char "." url); [|simpl; tauto].
  set (url_ext := lower _).
  destruct (existsb (String.eqb url_ext) known_extensions) eqn:E;
    [|simpl; tauto].
  apply existsb_exists in E as (x & Hx & Heq).
  apply String.eqb_eq in Heq. subst x.
  simpl in Hx.
  destruct Hx as [<-|[<-|[<-|[<-|[<-|[<-|[]]]]]]]; simpl; tauto.
Qed.

(** X2.  Whatever the address and the bytes, the extension is one of
    [png], [jpg], [gif], [webp], [svg] and [bmp]; in particular it is
    never [jpeg], and never something read off the address unchecked. *)
Theorem determine_image_extension_range url content :
  In (_determine_image_extension url content)
     ["png"; "jpg"; "gif"; "webp"; "svg"; "bmp"].
Proof. exact (image_extension_known url content). Qed.

Lemma first_piece_split_prefix sep e q :
  contains_char sep e = false ->
  first_piece (split sep (e +:+ String sep q)) = e.
Proof.
  induction e as [|c r IH]; simpl.
  - intros _. now rewrite Ascii.eqb_refl.
  - destruct (Ascii.eqb c sep) eqn:E; simpl; [discriminate|].
    intros H. specialize (IH H). unfold first_piece in *.
    destruct (split sep (r +:+ String sep q)) as [|piece pieces];
      simpl in *; [now subst | now subst].
Qed.

Lemma first_piece_split_none sep e :
  contains_char sep e = false -> first_piece (split sep e) = e.
Proof. intros H. now rewrite (split_no_sep sep e H). Qed.

Lemma lower_char_keeps_marks x :
  Ascii.eqb (lower_char x) "." = Ascii.eqb x "."
  /\ Ascii.eqb (lower_char x) "?" = Ascii.eqb x "?".
Proof. destruct x as [[] [] [] [] [] [] [] []]; vm_compute; now split. Qed.

Lemma contains_mark_lower e :
  contains_char "." (lower e) = contains_char "." e
  /\ contains_char "?" (lower e) = contains_char "?" e.
Proof.
  induction e as [|c r [IH1 IH2]]; simpl; [now split|].
  destruct (lower_char_keeps_marks c) as [-> ->]. now rewrite IH1, IH2.
Qed.

(** The address is consulted through the text after its last dot, cut
    at the first question mark and lowered. *)
Lemma url_extension_read p t content :
  sniffable content = false ->
  contains_char "." t = false ->
  _determine_image_extension (p +:+ "." +:+ t) content
  = let url_ext := lower (first_piece (split "?" t)) in
    if existsb (String.eqb url_ext) known_extensions
    then (if String.eqb url_ext "jpeg" then "jpg" else url_ext)
    else "jpg".
Proof.
  intros Hs Ht.
  apply sniffable_false in Hs as (H1 & H2 & H3 & H4 & H5).
  change (p +:+ "." +:+ t) with (p +:+ String "." t).
  unfold _determine_image_extension.
  rewrite H1, H2, H3, H4, H5, contains_char_suffix.
  rewrite (last_piece_split_suffix "." p t Ht).
  cbv zeta. now destruct (existsb _ _).
Qed.

(** X3.  For bytes without a signature, the extension comes from the
    address: an allow-listed extension in any letter case, followed or
    not by a query string without dots, is returned in lower case, with
    [jpeg] turned into [jpg]; an address without any dot, or whose text
    after the last dot is not on the list (as when the query string
    holds a dot), gives [jpg]. *)
Theorem determine_image_extension_by_url :
  (forall p e content,
      sniffable content = false ->
      In (lower e) ["png"; "gif"; "webp"; "svg"; "bmp"] ->
      _determine_image_extension (p +:+ "." +:+ e) content = lower e
      /\ forall q,
           contains_char "." q = false ->
           _determine_image_extension (p +:+ "." +:+ e +:+ "?" +:+ q) content
           = lower e)
  /\ (forall p e content,
        sniffable content = false -> lower e = "jpeg" ->
        _determine_image_extension (p +:+ "." +:+ e) content = "jpg")
  /\ (forall url content,
        sniffable content = false -> contains_char "." url = false ->
        _determine_image_extension url content = "jpg")
  /\ (forall p t content,
        sniffable content = false -> contains_char "." t = false ->
        ~ In (lower (first_piece (split "?" t))) known_extensions ->
        _determine_image_extension (p +:+ "." +:+ t) content = "jpg").
Proof.
  split; [|split; [|split]].
  - intros p e content Hs He.
    assert (Hmarks : contains_char "." e = false
                     /\ contains_char "?" e = false).
    { destruct (contains_mark_lower e) as [<- <-].
      simpl in He.
      destruct He as [<-|[<-|[<-|[<-|[<-|[]]]]]]; now split. }
    destruct Hmarks as [Hdot Hq].
    assert (Hpick : (let url_ext := lower e in
                     if existsb (String.eqb url_ext) known_extensions
                     then (if String.eqb url_ext "jpeg" then "jpg" else url_ext)
                     else "jpg") = lower e).
    { cbv zeta. simpl in He.
      destruct He as [<-|[<-|[<-|[<-|[<-|[]]]]]]; reflexivity. }
    split.
    + rewrite (url_extension_read p e content Hs Hdot).
      now rewrite (first_piece_split_none "?" e Hq).
    + intros q Hqd.
      rewrite (url_extension_read p (e +:+ "?" +:+ q) content Hs).
      * change (e +:+ "?" +:+ q) with (e +:+ String "?" q).
        now rewrite (first_piece_split_prefix "?" e q Hq).
      * now rewrite contains_char_app, Hdot.
  - intros p e content Hs He.
    assert (Hmarks : contains_char "." e = false
                     /\ contains_char "?" e = false).
    { destruct (contains_mark_lower e) as [<- <-]. now rewrite He. }
    destruct Hmarks as [Hdot Hq].
    rewrite (url_extension_read p e content Hs Hdot).
    now rewrite (first_piece_split_none "?" e Hq), He.
  - intros url content Hs Hdot.
    apply sniffable_false in Hs as (H1 & H2 & H3 & H4 & H5).
    unfold _determine_image_extension.
    now rewrite H1, H2, H3, H4, H5, Hdot.
  - intros p t content Hs Hdot Hno.
    rewrite (url_extension_read p t content Hs Hdot). cbv zeta.
    destruct (existsb _ known_extensions) eqn:E; [|reflexivity].
    exfalso. apply Hno.
    apply existsb_exists in E as (x & Hx & Heq).
    apply String.eqb_eq in Heq. now subst x.
Qed.

Lemma determine_image_extension_by_url_witness :
  sniffable (String.list_byte_of_string "plain") = false
  /\ _determine_image_extension ("https://example.com/a" +:+ "." +:+ "PNG")
       (String.list_byte_of_string "plain") = "png"
  /\ _determine_image_extension
       ("https://example.com/a" +:+ "." +:+ "PNG" +:+ "?" +:+ "w=640")
       (String.list_byte_of_string "plain") = "png"
  /\ _determine_image_extension
       ("https://example.com/a" +:+ "." +:+ "png?v=1" +:+ "." +:+ "2")
       (String.list_byte_of_string "plain") = "jpg".
Proof.
  assert (Hs : sniffable (String.list_byte_of_string "plain") = false)
    by reflexivity.
  split; [exact Hs|].
  destruct (proj1 determine_image_extension_by_url "https://example.com/a"
              "PNG" (String.list_byte_of_string "plain") Hs)
    as [H1 H2]; [simpl; tauto|].
  split; [exact H1|]. split; [exact (H2 "w=640" eq_refl)|].
  refine (proj2 (proj2 (proj2 determine_image_extension_by_url))
            "https://example.com/a.png?v=1" "2" _ Hs eq_refl _).
  vm_compute. intuition discriminate.
Defined.

Lemma bytes_startswith_take needle rest k :
  (length needle <= k)%nat ->
  bytes_startswith needle (take k (needle ++ rest)) = true.
Proof.
  revert k. induction needle as [|b needle IH]; intros k Hk.
  - now destruct (take k rest).
  - destruct k as [|k]; [simpl in Hk; lia|].
    simpl. rewrite (Byte.byte_dec_lb (eq_refl b)). apply IH. simpl in Hk. lia.
Qed.

Lemma bytes_contains_cons needle b hay :
  bytes_contains needle (b :: hay)
  = bytes_startswith needle (b :: hay) || bytes_contains needle hay.
Proof. reflexivity. Qed.

Lemma bytes_contains_take needle pre rest k :
  (length pre + length needle <= k)%nat ->
  bytes_contains needle (take k (pre ++ needle ++ rest)) = true.
Proof.
  revert k. induction pre as [|b pre IH]; intros k Hk.
  - simpl in *.
    pose proof (bytes_startswith_take needle rest k Hk) as H.
    destruct (take k (needle ++ rest)); simpl; now rewrite H.
  - destruct k as [|k]; [simpl in Hk; lia|].
    change (take (S k) ((b :: pre) ++ needle ++ rest))
      with (b :: take k (pre ++ needle ++ rest)).
    rewrite bytes_contains_cons, IH by (simpl in Hk; lia).
    apply orb_true_r.
Qed.

(** X4.  The other signatures also win over the address: bytes that
    begin with [GIF] are [gif]; bytes that begin with [RIFF] and hold
    [WEBP] within their first twelve bytes, that is after at most four
    more bytes, are [webp]; and bytes with none of the signatures
    before it that hold [<svg] within their first hundred bytes, as
    after an XML prologue, are [svg]. *)
Theorem determine_image_extension_other_signatures :
  (forall url rest,
      _determine_image_extension url (magic_gif ++ rest) = "gif")
  /\ (forall url pre rest,
        (length pre <= 4)%nat ->
        _determine_image_extension url
          (magic_riff ++ pre ++ magic_webp ++ rest) = "webp")
  /\ (forall url pre rest,
        let content := pre ++ magic_svg ++ rest in
        (length pre + 4 <= 100)%nat ->
        bytes_startswith magic_png content = false ->
        bytes_startswith magic_jpeg content = false ->
        bytes_startswith magic_gif content = false ->
        bytes_startswith magic_riff content = false ->
        _determine_image_extension url content = "svg").
Proof.
  split; [|split].
  - intros url rest. reflexivity.
  - intros url pre rest Hpre.
    unfold _determine_image_extension.
    change (bytes_startswith magic_png
              (magic_riff ++ pre ++ magic_webp ++ rest))
      with false.
    change (bytes_startswith magic_jpeg
              (magic_riff ++ pre ++ magic_webp ++ rest))
      with false.
    change (bytes_startswith magic_gif
              (magic_riff ++ pre ++ magic_webp ++ rest))
      with false.
    change (bytes_startswith magic_riff
              (magic_riff ++ pre ++ magic_webp ++ rest))
      with true.
    cbv iota.
    change (magic_riff ++ pre ++ magic_webp ++ rest)
      with ((magic_riff ++ pre) ++ magic_webp ++ rest).
    rewrite (bytes_contains_take magic_webp (magic_riff ++ pre) rest 12)
      by (rewrite length_app; simpl; lia).
    reflexivity.
  - intros url pre rest content Hlen H1 H2 H3 H4.
    unfold _determine_image_extension. rewrite H1, H2, H3, H4.
    cbn [andb]. unfold content.
    rewrite (bytes_contains_take magic_svg pre rest 100) by exact Hlen.
    now rewrite orb_true_r.
Qed.

Lemma determine_image_extension_other_signatures_witness :
  let prologue := String.list_byte_of_string "<?xml version=1.0?>" in
  let content :=
    prologue ++ magic_svg ++ String.list_byte_of_string " width=10/>" in
  ((length (@nil byte) <= 4)%nat
   /\ _determine_image_extension "https://example.com/logo.png"
        (String.list_byte_of_string "RIFFWEBP") = "webp")
  /\ (length prologue + 4 <= 100)%nat
  /\ _determine_image_extension "https://example.com/logo.png" content = "svg".
Proof.
  cbv zeta.
  assert (H0 : (length (@nil byte) <= 4)%nat) by (simpl; lia).
  assert (H : (length (String.list_byte_of_string "<?xml version=1.0?>") + 4
               <= 100)%nat) by (vm_compute; lia).
  split; [split; [exact H0|]|split; [exact H|]].
  - exact (proj1 (proj2 determine_image_extension_other_signatures)
             "https://example.com/logo.png" [] [] H0).
  - exact (proj2 (proj2 determine_image_extension_other_signatures)
             "https://example.com/logo.png"
             (String.list_byte_of_string "<?xml version=1.0?>")
             (String.list_byte_of_string " width=10/>")
             H eq_refl eq_refl eq_refl eq_refl).
Defined.

End ImageExtensionAgain.

(* ===================================================================== *)
(** * What one call of a paced client sends, and what it hands back *)
(* ===================================================================== *)

(** Follow every branch of a computation that has been unfolded down to
    the primitives, keeping the equation of each case. *)
Ltac each_branch :=
  repeat (cbn;
          match goal with
          | |- context [match ?x with _ => _ end] =>
              lazymatch x with
              | context [match _ with _ => _ end] => fail
              | _ => destruct x eqn:?
              end
          end);
  cbn.

Section RetryBounds.

Import Eff Http Paced History.

Lemma api_attempts_sent lag transport r todo s :
  let s' := exec (ReadwiseAPI.attempts lag transport r todo) s in
  (sent s <= sent s' <= sent s + length todo)%nat
  /\ (todo <> [] -> sent s < sent s')%nat.
Proof.
  cbv zeta. revert s.
  induction todo as [|attempt rest IH]; intros s.
  - cbn. split; [lia | congruence].
  - destruct (api_attempt_history lag transport r attempt s)
      as (t & _ & _ & _ & E).
    unfold exec in *. cbn [ReadwiseAPI.attempts length]. unfold bind.
    destruct (ReadwiseAPI.attempt_once lag transport r attempt s)
      as [[[|resp]|e] s1]; cbn [snd] in *;
      destruct (IH s1) as [[? ?] _]; unfold ret; cbn [snd];
      (split; [lia | intros _; lia]).
Qed.

Lemma fetcher_attempts_sent lag transport url todo s :
  let s' := exec (RateLimitedImageFetcher.attempts lag transport url todo) s in
  (sent s <= sent s' <= sent s + length todo)%nat
  /\ (todo <> [] -> sent s < sent s')%nat.
Proof.
  cbv zeta. revert s.
  induction todo as [|attempt rest IH]; intros s.
  - cbn. split; [lia | congruence].
  - destruct (fetcher_attempt_history lag transport url attempt s)
      as (t & _ & _ & _ & E).
    unfold exec in *. cbn [RateLimitedImageFetcher.attempts length].
    unfold bind.
    destruct (RateLimitedImageFetcher.attempt_once lag transport url attempt s)
      as [[[|resp]|e] s1]; cbn [snd] in *;
      destruct (IH s1) as [[? ?] _]; unfold ret; cbn [snd];
      (split; [lia | intros _; lia]).
Qed.

(** X5.  One call of [_make_request] sends at least one request and at
    most five, and one call of [fetch_image] at least one and at most
    three: whatever the network answers, however long anything takes,
    and whether the call returns or raises. *)
Theorem request_budget :
  (forall lag transport r s,
      let s' := exec (ReadwiseAPI._make_request lag transport r) s in
      (sent s < sent s' <= sent s + 5)%nat)
  /\ (forall lag transport url s,
      let s' :=
        exec (RateLimitedImageFetcher.fetch_image lag transport url) s in
      (sent s < sent s' <= sent s + 3)%nat).
Proof.
  split.
  - intros lag transport r s.
    destruct (api_attempts_sent lag transport r
                (seq 0 ReadwiseAPI.max_retries) s) as [[_ H2] H1].
    cbv zeta. unfold ReadwiseAPI._make_request.
    split; [apply H1; discriminate | exact H2].
  - intros lag transport url s.
    destruct (fetcher_attempts_sent lag transport url
                (seq 0 RateLimitedImageFetcher.max_retries) s) as [[_ H2] H1].
    cbv zeta. unfold RateLimitedImageFetcher.fetch_image.
    split; [apply H1; discriminate | exact H2].
Qed.

Lemma api_try_returns lag transport r attempt s resp s' :
  ReadwiseAPI.try_request lag transport r attempt s
  = (Returned (Return resp), s') ->
  transport (sent s) r = Responds resp
  /\ (status_code resp =? 429) = false
  /\ is_error_status (status_code resp) = false
  /\ sent s' = S (sent s).
Proof.
  unfold ReadwiseAPI.try_request, try_except, bind, session_request, lift,
    raise_for_status, int_retry_after, raise, ret, sleep_seconds, time_sleep,
    tick.
  each_branch; intros E; simplify_eq; auto.
Qed.

Lemma fetcher_try_returns lag transport url attempt s content s' :
  RateLimitedImageFetcher.try_fetch lag transport url attempt s
  = (Returned (Return (Some content)), s') ->
  exists resp,
    transport (sent s) {| method := "GET"; url := url; params := [] |}
    = Responds resp
    /\ body resp = RateLimitedImageFetcher.Chunks content
    /\ (status_code resp =? 429) = false
    /\ (status_code resp =? 403) = false
    /\ is_error_status (status_code resp) = false
    /\ sent s' = S (sent s).
Proof.
  unfold RateLimitedImageFetcher.try_fetch, try_except, bind,
    RateLimitedImageFetcher.session_get,
    RateLimitedImageFetcher.read_content, session_request, lift,
    raise_for_status, int_retry_after, raise, ret, sleep_seconds, time_sleep,
    tick.
  each_branch; intros E; simplify_eq; eauto 10.
Qed.

Lemma api_attempts_return lag transport r todo :
  forall s resp s',
    ReadwiseAPI.attempts lag transport r todo s = (Returned resp, s') ->
    transport (sent s' - 1)%nat r = Responds resp
    /\ (status_code resp =? 429) = false
    /\ is_error_status (status_code resp) = false.
Proof.
  induction todo as [|attempt rest IH]; intros s resp s' E.
  - discriminate.
  - cbn [ReadwiseAPI.attempts] in E. unfold bind at 1 in E.
    unfold ReadwiseAPI.attempt_once, bind at 1 in E.
    destruct (rate_limit_sent lag ReadwiseAPI.min_request_interval s)
      as (s1 & E1 & Hs1).
    rewrite E1 in E.
    destruct (ReadwiseAPI.try_request lag transport r attempt s1)
      as [[[|resp1]|e] s2] eqn:E2.
    + eapply IH; eauto.
    + unfold ret in E. simplify_eq.
      destruct (api_try_returns _ _ _ _ _ _ _ E2) as (H1 & H2 & H3 & H4).
      rewrite H4, Hs1 in *.
      replace (S (sent s) - 1)%nat with (sent s) by lia. auto.
    + discriminate.
Qed.

Lemma fetcher_attempts_some lag transport url todo :
  forall s content s',
    RateLimitedImageFetcher.attempts lag transport url todo s
    = (Returned (Some content), s') ->
    exists resp,
      transport (sent s' - 1)%nat
        {| method := "GET"; url := url; params := [] |}
      = Responds resp
      /\ body resp = RateLimitedImageFetcher.Chunks content
      /\ (status_code resp =? 429) = false
      /\ (status_code resp =? 403) = false
      /\ is_error_status (status_code resp) = false.
Proof.
  induction todo as [|attempt rest IH]; intros s content s' E.
  - discriminate.
  - cbn [RateLimitedImageFetcher.attempts] in E. unfold bind at 1 in E.
    unfold RateLimitedImageFetcher.attempt_once, bind at 1 in E.
    destruct (rate_limit_sent lag RateLimitedImageFetcher.min_interval s)
      as (s1 & E1 & Hs1).
    rewrite E1 in E.
    destruct (RateLimitedImageFetcher.try_fetch lag transport url attempt s1)
      as [[[|result]|e] s2] eqn:E2.
    + eapply IH; eauto.
    + unfold ret in E. simplify_eq.
      destruct (fetcher_try_returns _ _ _ _ _ _ _ E2)
        as (resp & H1 & H2 & H3 & H4 & H5 & H6).
      rewrite H6, Hs1 in *.
      replace (S (sent s) - 1)%nat with (sent s) by lia. eauto 10.
    + discriminate.
Qed.

(** X6.  What [_make_request] returns is the reply to the last request
    it sent, and that reply is neither a 429 nor a 4xx or 5xx: no
    error page is ever handed to the caller as a response. *)
Theorem make_request_returns_last_reply lag transport r s resp s' :
  ReadwiseAPI._make_request lag transport r s = (Returned resp, s') ->
  transport (sent s' - 1)%nat r = Responds resp
  /\ status_code resp <> 429
  /\ is_error_status (status_code resp) = false.
Proof.
  intros E.
  destruct (api_attempts_return _ _ _ _ _ _ _ E) as (H1 & H2 & H3).
  repeat split; auto. now apply Z.eqb_neq.
Qed.

Lemma make_request_returns_last_reply_witness :
  let transport := scripted [timed_out; ok (Json.JString "page")] in
  let run := ReadwiseAPI._make_request prompt transport sample_request in
  run (fresh 0) = (Returned (Build_response _ 200 None (Json.JString "page")),
                   exec run (fresh 0))
  /\ transport (sent (exec run (fresh 0)) - 1)%nat sample_request
     = ok (Json.JString "page").
Proof.
  cbv zeta.
  assert (E : ReadwiseAPI._make_request prompt
                (scripted [timed_out; ok (Json.JString "page")])
                sample_request (fresh 0)
              = (Returned (Build_response _ 200 None (Json.JString "page")),
                 exec (ReadwiseAPI._make_request prompt
                         (scripted [timed_out; ok (Json.JString "page")])
                         sample_request) (fresh 0)))
    by (vm_compute; reflexivity).
  split; [exact E|].
  exact (proj1 (make_request_returns_last_reply _ _ _ _ _ _ E)).
Defined.

(** X7.  The bytes that [fetch_image] returns are the whole body of
    the reply to the last request it sent, and that reply is not a
    429, not a 403 and not a 4xx or 5xx: the body of an error page is
    never handed on as an image. *)
Theorem fetch_image_returns_last_body lag transport url s content s' :
  RateLimitedImageFetcher.fetch_image lag transport url s
  = (Returned (Some content), s') ->
  exists resp,
    transport (sent s' - 1)%nat {| method := "GET"; url := url; params := [] |}
    = Responds resp
    /\ body resp = RateLimitedImageFetcher.Chunks content
    /\ status_code resp <> 429 /\ status_code resp <> 403
    /\ is_error_status (status_code resp) = false.
Proof.
  intros E.
  destruct (fetcher_attempts_some _ _ _ _ _ _ _ E)
    as (resp & H1 & H2 & H3 & H4 & H5).
  exists resp. repeat split; auto; now apply Z.eqb_neq.
Qed.

Lemma fetch_image_returns_last_body_witness :
  let png := DocumentConverter.magic_png in
  let transport :=
    scripted [too_many_requests (RateLimitedImageFetcher.Chunks []);
              ok (RateLimitedImageFetcher.Chunks png)] in
  let run := RateLimitedImageFetcher.fetch_image prompt transport sample_image in
  run (fresh 0) = (Returned (Some png), exec run (fresh 0))
  /\ exists resp,
      transport (sent (exec run (fresh 0)) - 1)%nat
        {| method := "GET"; url := sample_image; params := [] |}
      = Responds resp
      /\ body resp = RateLimitedImageFetcher.Chunks png.
Proof.
  cbv zeta.
  assert (E : RateLimitedImageFetcher.fetch_image prompt
                (scripted
                   [too_many_requests (RateLimitedImageFetcher.Chunks []);
                    ok (RateLimitedImageFetcher.Chunks
                          DocumentConverter.magic_png)])
                sample_image (fresh 0)
              = (Returned (Some DocumentConverter.magic_png),
                 exec (RateLimitedImageFetcher.fetch_image prompt
                         (scripted
                            [too_many_requests
                               (RateLimitedImageFetcher.Chunks []);
                             ok (RateLimitedImageFetcher.Chunks
                                   DocumentConverter.magic_png)])
                         sample_image) (fresh 0)))
    by (vm_compute; reflexivity).
  split; [exact E|].
  destruct (fetch_image_returns_last_body _ _ _ _ _ _ E)
    as (resp & H1 & H2 & _).
  exists resp. split; [exact H1 | exact H2].
Defined.

End RetryBounds.

(* ===================================================================== *)
(** * The request rate *)
(* ===================================================================== *)

Section Quota.

Import Eff Http Paced History.




(** X9.  A 403 is final for an image: when the reply to the first
    request of [fetch_image] is a 403, the call returns [None] with
    that one request sent, and it ends in the state right after the
    request: there is no retry and no wait. *)
Theorem fetch_image_forbidden lag transport url s resp :
  transport (sent s) {| method := "GET"; url := url; params := [] |}
  = Responds resp ->
  status_code resp = 403 ->
  exists s',
    RateLimitedImageFetcher.fetch_image lag transport url s
    = (Returned None, s')
    /\ sent s' = S (sent s)
    /\ s' = exec (RateLimitedImageFetcher.session_get lag transport url)
              (exec (_rate_limit lag RateLimitedImageFetcher.min_interval) s).
Proof.
  intros Hr Hst.
  unfold RateLimitedImageFetcher.fetch_image.
  change (seq 0 RateLimitedImageFetcher.max_retries)
    with (0%nat :: seq 1 2).
  cbn [RateLimitedImageFetcher.attempts]. unfold bind at 1.
  unfold RateLimitedImageFetcher.attempt_once, bind at 1. unfold exec.
  destruct (rate_limit_sent lag RateLimitedImageFetcher.min_interval s)
    as (s1 & -> & Hs1).
  cbn [snd].
  unfold RateLimitedImageFetcher.try_fetch, try_except, bind,
    RateLimitedImageFetcher.session_get, session_request.
  rewrite <- Hs1 in Hr. rewrite Hr, Hst. cbn.
  eexists. split; [reflexivity|]. split; [cbn; now rewrite Hs1 | reflexivity].
Qed.

Lemma fetch_image_forbidden_witness :
  let transport :=
    scripted [Responds {| status_code := 403; retry_after := None;
                          body := RateLimitedImageFetcher.Chunks [] |};
              ok (RateLimitedImageFetcher.Chunks DocumentConverter.magic_png)] in
  exists s',
    RateLimitedImageFetcher.fetch_image prompt transport sample_image (fresh 0)
    = (Returned None, s')
    /\ sent s' = 1%nat.
Proof.
  cbv zeta.
  destruct (fetch_image_forbidden prompt
              (scripted
                 [Responds {| status_code := 403; retry_after := None;
                              body := RateLimitedImageFetcher.Chunks [] |};
                  ok (RateLimitedImageFetcher.Chunks
                        DocumentConverter.magic_png)])
              sample_image (fresh 0) _ eq_refl eq_refl) as (s' & E & Hs & _).
  exists s'. split; [exact E | exact Hs].
Defined.

End Quota.

(* ===================================================================== *)
(** * How long the retries take *)
(* ===================================================================== *)

Section Backoff.

Import Eff Http Paced History.

Lemma rate_limit_clock {B} (lag : nat -> Paced.beat)
    (transport : nat -> request -> reply B) min_interval s :
  exists s1,
    _rate_limit lag min_interval s = (Returned tt, s1)
    /\ sent s1 = sent s /\ clock s <= clock s1.
Proof.
  destruct (rate_limit_spec lag min_interval s) as (c & t & k & E & Hc & _).
  eexists. split; [exact E|]. split; [reflexivity | exact Hc].
Qed.

Lemma pow2_pos k : 0 < 2 ^ Z.of_nat k.
Proof. apply Z.pow_pos_nonneg; lia. Qed.

Lemma api_failed_attempt_clock lag transport r attempt s msg :
  api_failure (transport (sent s) r) = Some msg ->
  (attempt < 4)%nat ->
  exists s',
    ReadwiseAPI.attempt_once lag transport r attempt s
    = (Returned Continue, s')
    /\ sent s' = S (sent s)
    /\ clock s + 2000 * 2 ^ Z.of_nat attempt <= clock s'.
Proof.
  intros Hf Ha.
  pose proof (pow2_pos attempt) as Hp.
  unfold ReadwiseAPI.attempt_once, bind.
  destruct (rate_limit_clock lag transport ReadwiseAPI.min_request_interval s)
    as (s1 & -> & Hs1 & Hc1).
  rewrite <- Hs1 in Hf.
  destruct (backoff_slept lag attempt ltac:(lia)) as [Hsec _].
  unfold ReadwiseAPI.try_request, ReadwiseAPI.base_delay. rewrite Hsec.
  unfold try_except, bind, session_request,
    raise_for_status, raise, ret, time_sleep, tick.
  change (ReadwiseAPI.max_retries - 1)%nat with 4%nat.
  replace (attempt =? 4)%nat with false by (symmetry; apply Nat.eqb_neq; lia).
  destruct (Z.ltb_spec (1000 * (2 * 2 ^ Z.of_nat attempt)) 0); [lia|].
  unfold api_failure in Hf.
  destruct (transport (sent s1) r) as [m|resp]; cbn.
  - eexists. split; [reflexivity|]. cbn. split; lia.
  - destruct (status_code resp =? 429); [discriminate|].
    destruct (is_error_status (status_code resp)); [|discriminate]. cbn.
    eexists. split; [reflexivity|]. cbn. split; lia.
Qed.

Lemma fetch_failed_attempt_clock lag transport url attempt s msg :
  fetch_failure
    (transport (sent s) {| method := "GET"; url := url; params := [] |})
  = Some msg ->
  (attempt < 2)%nat ->
  exists s',
    RateLimitedImageFetcher.attempt_once lag transport url attempt s
    = (Returned Continue, s')
    /\ sent s' = S (sent s)
    /\ clock s + 2000 * 2 ^ Z.of_nat attempt <= clock s'.
Proof.
  intros Hf Ha.
  pose proof (pow2_pos attempt) as Hp.
  unfold RateLimitedImageFetcher.attempt_once, bind.
  destruct (rate_limit_clock lag transport RateLimitedImageFetcher.min_interval s)
    as (s1 & -> & Hs1 & Hc1).
  rewrite <- Hs1 in Hf.
  destruct (backoff_slept lag attempt ltac:(lia)) as [Hsec _].
  unfold RateLimitedImageFetcher.try_fetch,
    RateLimitedImageFetcher.base_delay. rewrite Hsec.
  unfold try_except, bind,
    RateLimitedImageFetcher.session_get,
    RateLimitedImageFetcher.read_content, session_request,
    raise_for_status, raise, ret, time_sleep, tick.
  change (RateLimitedImageFetcher.max_retries - 1)%nat with 2%nat.
  replace (attempt =? 2)%nat with false by (symmetry; apply Nat.eqb_neq; lia).
  destruct (Z.ltb_spec (1000 * (2 * 2 ^ Z.of_nat attempt)) 0); [lia|].
  unfold fetch_failure in Hf.
  destruct (transport (sent s1) _) as [m|resp]; cbn.
  - eexists. split; [reflexivity|]. cbn. split; lia.
  - destruct (status_code resp =? 429); [discriminate|].
    destruct (status_code resp =? 403); [discriminate|].
    destruct (is_error_status (status_code resp)); cbn.
    + eexists. split; [reflexivity|]. cbn. split; lia.
    + destruct (body resp); [discriminate|]. cbn.
      eexists. split; [reflexivity|]. cbn. split; lia.
Qed.

Lemma api_attempt_clock lag transport r attempt s :
  clock s <= clock (exec (ReadwiseAPI.attempt_once lag transport r attempt) s).
Proof.
  unfold exec, ReadwiseAPI.attempt_once, bind.
  destruct (rate_limit_clock lag transport ReadwiseAPI.min_request_interval s)
    as (s1 & -> & _ & Hc1).
  revert Hc1. generalize (clock s). intros c Hc1.
  unfold ReadwiseAPI.try_request, try_except, bind, session_request, lift,
    raise_for_status, int_retry_after, raise, ret, sleep_seconds, time_sleep,
    tick.
  each_branch; lia.
Qed.

Lemma fetcher_attempt_clock lag transport url attempt s :
  clock s
  <= clock (exec (RateLimitedImageFetcher.attempt_once lag transport url
                    attempt) s).
Proof.
  unfold exec, RateLimitedImageFetcher.attempt_once, bind.
  destruct (rate_limit_clock lag transport RateLimitedImageFetcher.min_interval s)
    as (s1 & -> & _ & Hc1).
  revert Hc1. generalize (clock s). intros c Hc1.
  unfold RateLimitedImageFetcher.try_fetch, try_except, bind,
    RateLimitedImageFetcher.session_get,
    RateLimitedImageFetcher.read_content, session_request, lift,
    raise_for_status, int_retry_after, raise, ret, sleep_seconds, time_sleep,
    tick.
  each_branch; lia.
Qed.

Lemma api_attempts_backoff lag transport r n :
  forall a todo s,
    (a + n <= 4)%nat ->
    (forall i, (i < n)%nat ->
               is_Some (api_failure (transport (sent s + i)%nat r))) ->
    exists s',
      ReadwiseAPI.attempts lag transport r (seq a n ++ todo) s
      = ReadwiseAPI.attempts lag transport r todo s'
      /\ sent s' = (sent s + n)%nat
      /\ clock s + 2000 * (2 ^ Z.of_nat (a + n) - 2 ^ Z.of_nat a) <= clock s'.
Proof.
  induction n as [|n IH]; intros a todo s Ha Hf.
  - exists s. rewrite !Nat.add_0_r. split; [reflexivity|]. split; lia.
  - cbn [seq app ReadwiseAPI.attempts]. unfold bind at 1.
    destruct (Hf 0%nat ltac:(lia)) as [msg Hmsg].
    rewrite Nat.add_0_r in Hmsg.
    destruct (api_failed_attempt_clock lag transport r a s msg Hmsg
                ltac:(lia)) as (s1 & -> & Hs1 & Hc1).
    destruct (IH (S a) todo s1 ltac:(lia)) as (s' & -> & Hs' & Hc').
    { intros i Hi. replace (sent s1 + i)%nat with (sent s + S i)%nat by lia.
      apply Hf. lia. }
    exists s'. split; [reflexivity|]. split; [lia|].
    replace (S a + n)%nat with (a + S n)%nat in Hc' by lia.
    replace (Z.of_nat (S a)) with (Z.succ (Z.of_nat a)) in Hc' by lia.
    rewrite Z.pow_succ_r in Hc' by lia. lia.
Qed.

Lemma fetch_attempts_backoff lag transport url n :
  forall a todo s,
    (a + n <= 2)%nat ->
    (forall i, (i < n)%nat ->
       is_Some (fetch_failure
                  (transport (sent s + i)%nat
                     {| method := "GET"; url := url; params := [] |}))) ->
    exists s',
      RateLimitedImageFetcher.attempts lag transport url (seq a n ++ todo) s
      = RateLimitedImageFetcher.attempts lag transport url todo s'
      /\ sent s' = (sent s + n)%nat
      /\ clock s + 2000 * (2 ^ Z.of_nat (a + n) - 2 ^ Z.of_nat a) <= clock s'.
Proof.
  induction n as [|n IH]; intros a todo s Ha Hf.
  - exists s. rewrite !Nat.add_0_r. split; [reflexivity|]. split; lia.
  - cbn [seq app RateLimitedImageFetcher.attempts]. unfold bind at 1.
    destruct (Hf 0%nat ltac:(lia)) as [msg Hmsg].
    rewrite Nat.add_0_r in Hmsg.
    destruct (fetch_failed_attempt_clock lag transport url a s msg Hmsg
                ltac:(lia)) as (s1 & -> & Hs1 & Hc1).
    destruct (IH (S a) todo s1 ltac:(lia)) as (s' & -> & Hs' & Hc').
    { intros i Hi. replace (sent s1 + i)%nat with (sent s + S i)%nat by lia.
      apply Hf. lia. }
    exists s'. split; [reflexivity|]. split; [lia|].
    replace (S a + n)%nat with (a + S n)%nat in Hc' by lia.
    replace (Z.of_nat (S a)) with (Z.succ (Z.of_nat a)) in Hc' by lia.
    rewrite Z.pow_succ_r in Hc' by lia. lia.
Qed.

(** X10.  The backoff doubles.  A call of [_make_request] whose five
    replies are all failures takes at least 30 seconds (2 + 4 + 8 + 16
    of waiting), and a call of [fetch_image] whose three replies are
    all failures at least 6 seconds (2 + 4).  In general, when the
    first [n] replies (at most four) to the loop of [_make_request]
    are failures, at least [2000 * (2 ^ n - 1)] ms have passed when
    the loop goes on with the attempts that are left. *)
Theorem backoff_doubles :
  (forall lag transport r s,
      (forall i, (i < 5)%nat ->
                 is_Some (api_failure (transport (sent s + i)%nat r))) ->
      clock s + 30000
      <= clock (exec (ReadwiseAPI._make_request lag transport r) s))
  /\ (forall lag transport url s,
      (forall i, (i < 3)%nat ->
         is_Some (fetch_failure
                    (transport (sent s + i)%nat
                       {| method := "GET"; url := url; params := [] |}))) ->
      clock s + 6000
      <= clock (exec (RateLimitedImageFetcher.fetch_image lag transport url) s))
  /\ (forall lag transport r n todo s,
      (n <= 4)%nat ->
      (forall i, (i < n)%nat ->
                 is_Some (api_failure (transport (sent s + i)%nat r))) ->
      exists s',
        ReadwiseAPI.attempts lag transport r (seq 0 n ++ todo) s
        = ReadwiseAPI.attempts lag transport r todo s'
        /\ clock s + 2000 * (2 ^ Z.of_nat n - 1) <= clock s').
Proof.
  split; [|split].
  - intros lag transport r s Hf.
    unfold ReadwiseAPI._make_request, exec.
    change (seq 0 ReadwiseAPI.max_retries) with (seq 0 4 ++ [4%nat]).
    destruct (api_attempts_backoff lag transport r 4 0 [4%nat] s ltac:(lia))
      as (s1 & -> & Hs1 & Hc1).
    { intros i Hi. apply Hf. lia. }
    change (2 ^ Z.of_nat (0 + 4)) with 16 in Hc1.
    change (2 ^ Z.of_nat 0) with 1 in Hc1.
    pose proof (api_attempt_clock lag transport r 4 s1) as Hc2.
    unfold exec in Hc2. cbn [ReadwiseAPI.attempts]. unfold bind.
    destruct (ReadwiseAPI.attempt_once lag transport r 4 s1)
      as [[[|resp]|e] s2]; cbn [snd] in *; unfold raise, ret; cbn [snd]; lia.
  - intros lag transport url s Hf.
    unfold RateLimitedImageFetcher.fetch_image, exec.
    change (seq 0 RateLimitedImageFetcher.max_retries)
      with (seq 0 2 ++ [2%nat]).
    destruct (fetch_attempts_backoff lag transport url 2 0 [2%nat] s
                ltac:(lia)) as (s1 & -> & Hs1 & Hc1).
    { intros i Hi. apply Hf. lia. }
    change (2 ^ Z.of_nat (0 + 2)) with 4 in Hc1.
    change (2 ^ Z.of_nat 0) with 1 in Hc1.
    pose proof (fetcher_attempt_clock lag transport url 2 s1) as Hc2.
    unfold exec in Hc2. cbn [RateLimitedImageFetcher.attempts]. unfold bind.
    destruct (RateLimitedImageFetcher.attempt_once lag transport url 2 s1)
      as [[[|resp]|e] s2]; cbn [snd] in *; unfold raise, ret; cbn [snd]; lia.
  - intros lag transport r n todo s Hn Hf.
    destruct (api_attempts_backoff lag transport r n 0 todo s ltac:(lia) Hf)
      as (s' & E & _ & Hc).
    exists s'. split; [exact E|].
    change (2 ^ Z.of_nat 0) with 1 in Hc. exact Hc.
Qed.

Lemma backoff_doubles_witness :
  let s' :=
    exec (ReadwiseAPI._make_request prompt (scripted []) sample_request)
      (fresh 0) in
  clock (fresh 0) + 30000 <= clock s' /\ clock s' = 34200.
Proof.
  cbv zeta. split; [|vm_compute; reflexivity].
  apply (proj1 backoff_doubles prompt (scripted []) sample_request (fresh 0)).
  intros i _. unfold scripted. destruct i; cbn; eauto.
Defined.

End Backoff.

(* ===================================================================== *)
(** * The listing: pages without end, pages out of shape, one document *)
(* ===================================================================== *)

Section ListingEdges.

Import Json Eff Http Paced History Listing.

Lemma make_request_sends lag transport r s resp s' :
  ReadwiseAPI._make_request lag transport r s = (Returned resp, s') ->
  (sent s < sent s')%nat.
Proof.
  intros E.
  destruct (api_attempts_sent lag transport r
              (seq 0 ReadwiseAPI.max_retries) s) as [_ H].
  unfold exec in H. unfold ReadwiseAPI._make_request in E.
  rewrite E in H. apply H. discriminate.
Qed.

Lemma fetch_pages_never_ends lag transport server location tag fuel :
  answers lag transport server ->
  (forall r, is_Some (page_documents (server r))) ->
  (forall r, truthy (next_cursor (server r)) = true) ->
  forall cursor all_documents s,
    exists s',
      ReadwiseAPI.fetch_pages lag transport fuel location tag cursor
        all_documents s
      = (Returned None, s')
      /\ (sent s + fuel <= sent s')%nat.
Proof.
  intros Hans Hwf Hnext.
  induction fuel as [|fuel IH]; intros cursor acc s.
  - exists s. split; [reflexivity | lia].
  - cbn [ReadwiseAPI.fetch_pages]. unfold bind at 1.
    destruct (Hans (ReadwiseAPI.list_request location cursor) s)
      as (resp & s1 & E & Hbody).
    rewrite E. apply make_request_sends in E. rewrite Hbody.
    destruct (page_read tag _ acc (Hwf (ReadwiseAPI.list_request location cursor)))
      as (docs & E1 & E2 & E3).
    unfold bind, lift. rewrite E1. cbn [iterate]. rewrite E2, E3, Hnext.
    cbn [negb].
    destruct (IH (next_cursor (server (ReadwiseAPI.list_request location cursor)))
                (acc ++ tagged tag
                          (server (ReadwiseAPI.list_request location cursor)))
                s1) as (s' & -> & Hs').
    exists s'. split; [reflexivity | lia].
Qed.

(** X11.  [get_documents] has no cap on the number of pages.  When
    every page of the server is well formed and hands on a truthy
    cursor, the [while True] loop of the first location is still
    running after any number of turns: for every bound [fuel] the
    loop has not ended within [fuel] pages, and has sent at least
    [fuel] requests. *)
Theorem get_documents_has_no_page_cap
    lag transport server location rest tag fuel s :
  answers lag transport server ->
  (forall r, is_Some (page_documents (server r))) ->
  (forall r, truthy (next_cursor (server r)) = true) ->
  let run :=
    ReadwiseAPI.get_documents lag transport fuel (location :: rest) tag in
  eval run s = Returned None
  /\ (sent s + fuel <= sent (exec run s))%nat.
Proof.
  intros Hans Hwf Hnext. cbv zeta.
  unfold eval, exec, ReadwiseAPI.get_documents.
  cbn [ReadwiseAPI.fetch_locations]. unfold bind.
  destruct (fetch_pages_never_ends lag transport server location tag fuel
              Hans Hwf Hnext JNull [] s) as (s' & -> & Hs').
  cbn. split; [reflexivity | exact Hs'].
Qed.

Lemma get_documents_has_no_page_cap_witness :
  let run :=
    ReadwiseAPI.get_documents prompt (reliable looping) 7 ["new"] "remarkable" in
  eval run (fresh 0) = Returned None
  /\ (sent (fresh 0) + 7 <= sent (exec run (fresh 0)))%nat.
Proof.
  cbv zeta.
  apply (get_documents_has_no_page_cap prompt (reliable looping) looping
           "new" [] "remarkable" 7 (fresh 0)).
  - apply reliable_answers.
  - intros r. vm_compute. eauto.
  - intros r. reflexivity.
Defined.

Lemma keep_tagged_stray tag docs :
  forallb is_object docs = false ->
  forall all_documents,
    ReadwiseAPI.keep_tagged tag docs all_documents
    = Raised (AttributeError "object has no attribute get").
Proof.
  induction docs as [|doc docs IH]; intros H acc; [discriminate|].
  cbn [forallb] in H. cbn [ReadwiseAPI.keep_tagged].
  destruct doc; cbn [is_object dict_get] in *; try reflexivity.
  now apply IH.
Qed.

(** X12.  A page out of shape costs the whole listing.  In the loop
    of [get_documents] over the pages of a location, at any cursor and
    whatever documents have been collected so far: when the body of
    the page is not an object, or its [results] holds an item that is
    not an object, the loop raises an [AttributeError]; when [results]
    is [null], a number or a boolean, it raises a [TypeError].  What
    the loop raises on the first page of the first location,
    [get_documents] raises; no document is returned. *)
Theorem get_documents_malformed_page
    lag transport server location tag fuel cursor all_documents s :
  answers lag transport server ->
  let data := server (ReadwiseAPI.list_request location cursor) in
  let run :=
    ReadwiseAPI.fetch_pages lag transport (S fuel) location tag cursor
      all_documents in
  (is_object data = false ->
   eval run s = Raised (AttributeError "object has no attribute get"))
  /\ (forall members docs,
        data = JObject members ->
        lookup "results" members = Some (JArray docs) ->
        forallb is_object docs = false ->
        eval run s = Raised (AttributeError "object has no attribute get"))
  /\ (forall members v,
        data = JObject members ->
        lookup "results" members = Some v ->
        match v with JNull | JBool _ | JNumber _ => True | _ => False end ->
        eval run s = Raised (TypeError "object is not iterable"))
  /\ (forall rest e,
        cursor = JNull -> all_documents = [] ->
        eval run s = Raised e ->
        eval (ReadwiseAPI.get_documents lag transport (S fuel)
                (location :: rest) tag) s
        = Raised e).
Proof.
  intros Hans. cbv zeta. unfold eval.
  split; [|split; [|split]];
    [| | |intros rest e -> -> He;
          unfold ReadwiseAPI.get_documents;
          cbn [ReadwiseAPI.fetch_locations]; unfold bind at 1;
          destruct (ReadwiseAPI.fetch_pages lag transport (S fuel) location
                      tag JNull [] s) as [[fetched|e'] s'];
          [discriminate He | exact He]];
    cbn [ReadwiseAPI.fetch_pages];
    destruct (Hans (ReadwiseAPI.list_request location cursor) s)
      as (resp & s1 & E & Hbody).
  - intros Hd. unfold bind at 1. rewrite E, Hbody. unfold bind, lift.
    destruct (server _); try discriminate Hd; reflexivity.
  - intros members docs Hdata Hres Hstray.
    unfold bind at 1. rewrite E, Hbody, Hdata. unfold bind, lift.
    cbn [dict_get]. rewrite Hres. cbn [iterate].
    now rewrite (keep_tagged_stray tag docs Hstray).
  - intros members v Hdata Hres Hv.
    unfold bind at 1. rewrite E, Hbody, Hdata. unfold bind, lift.
    cbn [dict_get]. rewrite Hres.
    destruct v; try contradiction; reflexivity.
Qed.

Lemma get_documents_malformed_page_witness :
  eval (ReadwiseAPI.get_documents prompt (reliable (fun _ => page_with_stray))
          3 ["new"] "remarkable") (fresh 0)
  = Raised (AttributeError "object has no attribute get")
  /\ eval (ReadwiseAPI.fetch_pages prompt (reliable (fun _ => page_with_stray))
             3 "new" "remarkable" JNull [doc_c]) (fresh 0)
     = Raised (AttributeError "object has no attribute get").
Proof.
  split; [vm_compute; reflexivity|].
  apply (proj1 (proj2 (get_documents_malformed_page prompt
                         (reliable (fun _ => page_with_stray))
                         (fun _ => page_with_stray)
                         "new" "remarkable" 2 JNull [doc_c] (fresh 0)
                         (reliable_answers _ _)))
           _ [doc_a; JString "stray"] eq_refl eq_refl eq_refl).
Defined.

(** X13.  [get_document_content] reads the first result only.  When
    the answer has no [results], or a falsy one (an empty list,
    [null]), it returns the empty string; when [results] is a list
    that begins with an object, it returns what that object holds at
    [html_content] (which need not be a string), and the empty string
    when it holds nothing there. *)
Theorem get_document_content_reads_first_result
    lag transport server doc_id s members :
  answers lag transport server ->
  server (ReadwiseAPI.content_request doc_id) = JObject members ->
  let run := ReadwiseAPI.get_document_content lag transport doc_id in
  (match lookup "results" members with
   | Some v => truthy v = false
   | None => True
   end ->
   eval run s = Returned (JString ""))
  /\ (forall first others,
        lookup "results" members = Some (JArray (JObject first :: others)) ->
        eval run s
        = Returned (match lookup "html_content" first with
                    | Some v => v
                    | None => JString ""
                    end)).
Proof.
  intros Hans Hdata. cbv zeta.
  unfold eval, ReadwiseAPI.get_document_content.
  destruct (Hans (ReadwiseAPI.content_request doc_id) s)
    as (resp & s1 & E & Hbody).
  split.
  - unfold bind at 1. rewrite E, Hbody, Hdata. unfold bind, lift.
    cbn [dict_get].
    destruct (lookup "results" members) as [v|].
    + intros ->. reflexivity.
    + intros _. reflexivity.
  - intros first others Hres.
    unfold bind at 1. rewrite E, Hbody, Hdata. unfold bind, lift.
    cbn [dict_get]. rewrite Hres. reflexivity.
Qed.

Lemma get_document_content_reads_first_result_witness :
  eval (ReadwiseAPI.get_document_content prompt
          (reliable (fun _ => one_document)) "doc1") (fresh 0)
  = Returned (JString "<p>text</p>")
  /\ eval (ReadwiseAPI.get_document_content prompt
             (reliable (fun _ => JObject [("results", JArray [])])) "doc1")
       (fresh 0)
     = Returned (JString "").
Proof.
  split.
  - exact (proj2 (get_document_content_reads_first_result prompt
                    (reliable (fun _ => one_document))
                    (fun _ => one_document) "doc1" (fresh 0) _
                    (reliable_answers _ _) eq_refl) _ _ eq_refl).
  - exact (proj1 (get_document_content_reads_first_result prompt
                    (reliable (fun _ => JObject [("results", JArray [])]))
                    (fun _ => JObject [("results", JArray [])]) "doc1"
                    (fresh 0) _ (reliable_answers _ _) eq_refl) eq_refl).
Defined.

End ListingEdges.

(* ===================================================================== *)
(** * The ledger across restarts *)
(* ===================================================================== *)

Section LedgerMirror.

Import Py Shape Eff ExportTracker.

Lemma complete_lines_app_LF s : complete_lines (s +:+ String LF "") = true.
Proof.
  induction s as [|c r IH]; [reflexivity|].
  destruct r as [|d r]; [reflexivity|].
  change (String c (String d r) +:+ String LF "")
    with (String c (String d (r +:+ String LF ""))).
  rewrite complete_lines_tail. exact IH.
Qed.

Lemma for_each_load_line_others lines t :
  exported_others (exec (for_each lines load_line) t) = exported_others t.
Proof.
  revert t. induction lines as [|line lines IH]; intros t; [reflexivity|].
  unfold exec in *. cbn [for_each]. unfold bind at 1.
  destruct (load_line_spec line t) as [E|(g & _ & _ & E)]; rewrite E;
    now rewrite IH.
Qed.

Lemma init_others file : exported_others (snd (__init__ file)) = ∅.
Proof.
  unfold __init__, load_exported_docs, bind, get, try_except, for_each_line.
  destruct file as [|c|c tl rd]; cbn [tracker_file file_exists negb];
    [reflexivity| |].
  - pose proof (for_each_load_line_others (file_lines c)
                  {| tracker_file := Text c; exported_docs := ∅;
                     exported_others := ∅ |}) as H.
    unfold exec in H.
    now destruct (for_each (file_lines c) load_line _) as [[[]|e] t'].
  - pose proof (for_each_load_line_others (take (rd tl) (file_lines c))
                  {| tracker_file := Undecodable c tl rd; exported_docs := ∅;
                     exported_others := ∅ |}) as H.
    unfold exec, bind in *.
    now destruct (for_each (take (rd tl) (file_lines c)) load_line _)
      as [[[]|e] t'].
Qed.

Lemma init_appendable file :
  appendable file = true ->
  fst (__init__ file) = Returned tt
  /\ tracker_file (snd (__init__ file)) = file.
Proof.
  destruct file as [|c|c tl]; intros H; [split; reflexivity| |discriminate].
  rewrite init_text.
  destruct (for_each_load_line (file_lines c)
              {| tracker_file := Text c; exported_docs := ∅;
       exported_others := ∅ |})
    as (t' & -> & Hf & _).
  split; [reflexivity | exact Hf].
Qed.

Lemma mark_exported_appendable ts doc_id title t :
  appendable (tracker_file t) = true ->
  appendable (tracker_file (exec (mark_exported ts doc_id title) t)) = true.
Proof.
  intros H. rewrite exec_mark_exported. cbn [tracker_file].
  replace (ts +:+ " - " +:+ title +:+ " (" +:+ doc_id +:+ ")"
           +:+ String LF "")
    with ((ts +:+ " - " +:+ title +:+ " (" +:+ doc_id +:+ ")")
          +:+ String LF "") by now rewrite !sapp_assoc.
  destruct (tracker_file t) as [|c|c tl]; [| |discriminate]; cbn [append
    appendable].
  - apply complete_lines_app_LF.
  - rewrite <- sapp_assoc. apply complete_lines_app_LF.
Qed.

Lemma mirror_step ts doc_id title t :
  appendable (tracker_file t) = true ->
  __init__ (tracker_file t) = (Returned tt, t) ->
  recordable (ts, doc_id, title) = true ->
  let t1 := exec (mark_exported ts doc_id title) t in
  appendable (tracker_file t1) = true
  /\ __init__ (tracker_file t1) = (Returned tt, t1).
Proof.
  intros Happ Hinit Hrec. cbv zeta.
  pose proof (mark_exported_appendable ts doc_id title t Happ) as Happ1.
  split; [exact Happ1|].
  unfold recordable in Hrec.
  apply andb_prop in Hrec as [Hrec Hl2].
  apply andb_prop in Hrec as [Hrec Hrp].
  apply andb_prop in Hrec as [Hrec Hne].
  apply andb_prop in Hrec as [Hrec Hcl].
  apply andb_prop in Hrec as [Hts Hl1].
  assert (Hid : doc_id <> "") by (intros ->; discriminate).
  apply negb_true_iff in Hrp.
  pose proof (mark_exported_roundtrip (tracker_file t) ts title doc_id
                Happ Hts Hl1 Hcl Hid Hrp Hl2) as Hrt.
  cbv zeta in Hrt. rewrite Hinit in Hrt. cbn [snd] in Hrt.
  destruct Hrt as (_ & Hret & Hdocs & _).
  destruct (init_appendable _ Happ1) as [_ Hfile].
  pose proof (init_others
                (tracker_file (exec (mark_exported ts doc_id title) t))) as Ho2.
  assert (Ho1 : exported_others (exec (mark_exported ts doc_id title) t) = ∅).
  { rewrite exec_mark_exported. cbn [exported_others].
    rewrite <- (init_others (tracker_file t)). now rewrite Hinit. }
  destruct (__init__ (tracker_file (exec (mark_exported ts doc_id title) t)))
    as [r t2].
  cbn [fst snd] in *. subst r. f_equal.
  destruct t2 as [f2 d2 o2].
  destruct (exec (mark_exported ts doc_id title) t) as [f1 d1 o1].
  cbn in *. congruence.
Qed.

Lemma mirror_steps records :
  forall t,
    appendable (tracker_file t) = true ->
    __init__ (tracker_file t) = (Returned tt, t) ->
    forallb recordable records = true ->
    let t' := exec (mark_all records) t in
    __init__ (tracker_file t') = (Returned tt, t')
    /\ exported_docs t'
       = exported_docs t ∪ list_to_set (map (fun r => r.1.2) records).
Proof.
  induction records as [|[[ts doc_id] title] records IH];
    intros t Happ Hinit Hall; cbv zeta.
  - split; [exact Hinit|]. cbn. now rewrite (right_id_L ∅ (∪)).
  - cbn [forallb] in Hall. apply andb_prop in Hall as [Hrec Hall].
    destruct (mirror_step ts doc_id title t Happ Hinit Hrec) as [Happ1 Hinit1].
    assert (E : exec (mark_all ((ts, doc_id, title) :: records)) t
                = exec (mark_all records)
                    (exec (mark_exported ts doc_id title) t))
      by reflexivity.
    rewrite E.
    destruct (IH _ Happ1 Hinit1 Hall) as [H1 H2].
    split; [exact H1|].
    rewrite H2, exec_mark_exported. cbn.
    now rewrite (comm_L (∪) {[doc_id]} (exported_docs t)), (assoc_L (∪)).
Qed.

(** X14.  The ledger mirrors the set.  Start a tracker over a ledger
    whose last line is ended (or over no ledger), and call
    [mark_exported] any number of times with records that the ledger
    can hold.  Then a fresh tracker over the file as it now is loads
    without error and is the very tracker in memory: same file, same
    set; and the set is the loaded one plus the identifiers marked. *)
Theorem ledger_mirrors_exports file records :
  appendable file = true ->
  forallb recordable records = true ->
  let t0 := snd (__init__ file) in
  let t := exec (mark_all records) t0 in
  __init__ (tracker_file t) = (Returned tt, t)
  /\ exported_docs t
     = exported_docs t0 ∪ list_to_set (map (fun r => r.1.2) records).
Proof.
  intros Happ Hall.
  destruct (init_appendable file Happ) as [Hret Hfile].
  apply mirror_steps; [now rewrite Hfile | | exact Hall].
  rewrite Hfile. destruct (__init__ file) as [r t0].
  cbn [fst snd] in *. now subst r.
Qed.

Lemma ledger_mirrors_exports_witness :
  let records :=
    [("2024-01-01T12:00:00+00:00", "doc1", "A title (with a note)");
     ("2024-01-02T08:30:00+00:00", "doc2", "Another title")] in
  let t := exec (mark_all records) (snd (__init__ Missing)) in
  __init__ (tracker_file t) = (Returned tt, t)
  /\ is_exported "doc1" t = true /\ is_exported "doc2" t = true.
Proof.
  cbv zeta. split; [|split; vm_compute; reflexivity].
  exact (proj1 (ledger_mirrors_exports Missing
                  [("2024-01-01T12:00:00+00:00", "doc1",
                    "A title (with a note)");
                   ("2024-01-02T08:30:00+00:00", "doc2", "Another title")]
                  eq_refl eq_refl)).
Defined.

Lemma for_each_load_line_grows lines t :
  exported_docs t ⊆ exported_docs (exec (for_each lines load_line) t).
Proof.
  revert t. induction lines as [|line lines IH]; intros t; [reflexivity|].
  unfold exec in *. cbn [for_each]. unfold bind at 1.
  destruct (load_line_spec line t) as [E|(g & _ & _ & E)]; rewrite E.
  - apply IH.
  - etransitivity; [|apply IH]. cbn [exported_docs].
    intros x Hx. now apply elem_of_union_r.
Qed.

Lemma for_each_load_line_returns lines t :
  for_each lines load_line t
  = (Returned tt, exec (for_each lines load_line) t).
Proof.
  unfold exec. now destruct (for_each_load_line lines t) as (t' & -> & _).
Qed.

(** Loading the first lines of a text gives no identifier that loading
    all of it does not give. *)
Lemma load_prefix_docs lines n t t' :
  exported_docs t = exported_docs t' ->
  exported_docs (exec (for_each (take n lines) load_line) t)
  ⊆ exported_docs (exec (for_each lines load_line) t').
Proof.
  intros E.
  rewrite (for_each_load_line_docs (take n lines) t t' E).
  rewrite <- (take_drop n lines) at 2.
  unfold exec at 2. rewrite for_each_app. unfold bind.
  rewrite for_each_load_line_returns.
  apply for_each_load_line_grows.
Qed.

Lemma init_undecodable decoded tail reads :
  __init__ (Undecodable decoded tail reads)
  = (Returned tt,
     exec (for_each (take (reads tail) (file_lines decoded)) load_line)
       {| tracker_file := Undecodable decoded tail reads;
          exported_docs := ∅; exported_others := ∅ |}).
Proof.
  unfold __init__, load_exported_docs, bind, get, try_except,
    for_each_line.
  cbn [tracker_file file_exists negb]. unfold bind.
  now rewrite for_each_load_line_returns.
Qed.

(** X15.  A ledger that cannot be decoded forgets.  When the file
    holds bytes that are not UTF-8, the tracker still starts (the
    error is swallowed), and [mark_exported] still adds the identifier
    to the set in memory and its entry to the file.  But the entry is
    written behind the bytes at which reading stops: a fresh tracker
    over the file starts too, and holds no identifier but those on the
    lines before these bytes, so that an identifier which is on none
    of them is lost. *)
Theorem undecodable_ledger_forgets decoded tail reads ts doc_id title :
  let file := Undecodable decoded tail reads in
  let t0 := snd (__init__ file) in
  let t1 := exec (mark_exported ts doc_id title) t0 in
  let t2 := snd (__init__ (tracker_file t1)) in
  fst (__init__ file) = Returned tt
  /\ is_exported doc_id t1 = true
  /\ tracker_file t1
     = Undecodable decoded
         (tail +:+ ts +:+ " - " +:+ title +:+ " (" +:+ doc_id +:+ ")"
          +:+ String LF "") reads
  /\ fst (__init__ (tracker_file t1)) = Returned tt
  /\ exported_docs t2 ⊆ exported_docs (snd (__init__ (Text decoded)))
  /\ (is_exported doc_id (snd (__init__ (Text decoded))) = false ->
      is_exported doc_id t2 = false).
Proof.
  cbv zeta. rewrite init_undecodable. cbn [fst snd].
  assert (Hfile :
    tracker_file
      (exec (mark_exported ts doc_id title)
         (exec (for_each (take (reads tail) (file_lines decoded)) load_line)
            {| tracker_file := Undecodable decoded tail reads;
               exported_docs := ∅; exported_others := ∅ |}))
    = Undecodable decoded
        (tail +:+ ts +:+ " - " +:+ title +:+ " (" +:+ doc_id +:+ ")"
         +:+ String LF "") reads).
  { rewrite exec_mark_exported. cbn [tracker_file].
    destruct (for_each_load_line
                (take (reads tail) (file_lines decoded))
                {| tracker_file := Undecodable decoded tail reads;
                   exported_docs := ∅; exported_others := ∅ |})
      as (t' & E & Hf & _).
    unfold exec. rewrite E. cbn [snd]. rewrite Hf. reflexivity. }
  rewrite Hfile, init_undecodable, init_text. cbn [fst snd].
  assert (Hsub :
    exported_docs
      (exec (for_each
               (take (reads (tail +:+ ts +:+ " - " +:+ title +:+ " ("
                             +:+ doc_id +:+ ")" +:+ String LF ""))
                  (file_lines decoded)) load_line)
         {| tracker_file :=
              Undecodable decoded
                (tail +:+ ts +:+ " - " +:+ title +:+ " (" +:+ doc_id +:+ ")"
                 +:+ String LF "") reads;
            exported_docs := ∅; exported_others := ∅ |})
    ⊆ exported_docs
        (snd (for_each (file_lines decoded) load_line
                {| tracker_file := Text decoded; exported_docs := ∅;
                   exported_others := ∅ |})))
    by (apply load_prefix_docs; reflexivity).
  split; [reflexivity|]. split.
  { rewrite exec_mark_exported. unfold is_exported. cbn [exported_docs].
    apply bool_decide_eq_true_2, elem_of_union_l, elem_of_singleton.
    reflexivity. }
  split; [reflexivity|]. split; [reflexivity|]. split; [exact Hsub|].
  unfold is_exported. intros Hno.
  apply bool_decide_eq_false_1 in Hno. apply bool_decide_eq_false_2.
  intros Hin. apply Hno. now apply Hsub.
Qed.

Lemma undecodable_ledger_forgets_witness :
  let before :=
    "2024-01-01T00:00:00+00:00 - First (doc1)" +:+ String LF "" in
  let t0 := snd (__init__ (Undecodable before "" (fun tail =>
                   match tail with "" => 1%nat | _ => 0%nat end))) in
  let t1 :=
    exec (mark_exported "2024-01-02T00:00:00+00:00" "doc2" "Second") t0 in
  let t2 := snd (__init__ (tracker_file t1)) in
  is_exported "doc2" (snd (__init__ (Text before))) = false
  /\ is_exported "doc1" t0 = true
  /\ is_exported "doc2" t1 = true
  /\ is_exported "doc2" t2 = false
  /\ is_exported "doc1" t2 = false.
Proof.
  cbv zeta.
  assert (H : is_exported "doc2"
                (snd (__init__
                        (Text ("2024-01-01T00:00:00+00:00 - First (doc1)"
                               +:+ String LF "")))) = false)
    by (vm_compute; reflexivity).
  split; [exact H|]. split; [vm_compute; reflexivity|].
  split; [vm_compute; reflexivity|].
  split; [|vm_compute; reflexivity].
  exact (proj2 (proj2 (proj2 (proj2 (proj2
           (undecodable_ledger_forgets
              ("2024-01-01T00:00:00+00:00 - First (doc1)" +:+ String LF "")
              "" (fun tail => match tail with "" => 1%nat | _ => 0%nat end)
              "2024-01-02T00:00:00+00:00" "doc2" "Second"))))) H).
Defined.

End LedgerMirror.

(* ===================================================================== *)
(** * One document, from conversion to ledger *)
(* ===================================================================== *)

Section DocumentOutcomes.

Import Json Eff ReadwiseRemarkableSync Run.

Variable lag_img : nat -> Paced.beat.
Variable transport_img :
  nat -> Http.request -> Http.reply RateLimitedImageFetcher.stream.
Variable find_all_img : string -> list DocumentConverter.img.
Variable write_fails : string -> bool.
Variable rmapi : nat -> list string -> RemarkableUploader.run_result.
Variable download_ok : nat -> json -> bool.
Variable timestamp : nat -> string.

#[local] Abbreviation process_one :=
  (_process_document lag_img transport_img find_all_img write_fails rmapi
     download_ok timestamp).

(** X16.  An article whose conversion goes through ends as the run of
    [rmapi put] ends.  On exit status zero the file, named after the
    cleaned title, is on the tablet and the document is marked, in the
    set and in the ledger file; on a non-zero exit status the call
    returns with tablet and ledger as they were; and when [rmapi]
    cannot be started the error leaves [_process_document], again
    with tablet and ledger as they were. *)
Theorem article_upload_outcomes doc w doc_id title author category html p :
  subscript doc "id" = Returned (JString doc_id) ->
  subscript doc "title" = Returned (JString title) ->
  dict_get doc "author" (JString "Unknown") = Returned author ->
  dict_get doc "category" (JString "article") = Returned category ->
  is_pdf category = false ->
  dict_get doc "html_content" (JString "") = Returned (JString html) ->
  Py.nonempty html = true ->
  let name := DocumentConverter.clean_filename title +:+ ".epub" in
  eval (on_converter
          (DocumentConverter.html_to_epub lag_img transport_img find_all_img
             write_fails html title (author_of author) (Some (temp name)))) w
  = Returned p ->
  let w' := exec (process_one doc) w in
  match rmapi (RemarkableUploader.runs (uploader w))
          ["put"; name; RemarkableUploader.folder (uploader w)] with
  | RemarkableUploader.Exit0 =>
      eval (process_one doc) w = Returned tt
      /\ RemarkableUploader.device (uploader w')
         = RemarkableUploader.device (uploader w)
           ++ [(RemarkableUploader.folder (uploader w), name)]
      /\ tracker w'
         = exec (ExportTracker.mark_exported
                   (timestamp (size (ExportTracker.exported_docs (tracker w))))
                   doc_id title) (tracker w)
      /\ ExportTracker.is_exported doc_id (tracker w') = true
  | RemarkableUploader.ExitNonzero =>
      eval (process_one doc) w = Returned tt /\ untouched w w'
  | RemarkableUploader.NotRun =>
      eval (process_one doc) w = Raised (OSError "No such file or directory")
      /\ untouched w w'
  end.
Proof.
  intros Hid Ht Ha Hc Hp Hh Hne name Hconv w'. subst w'.
  unfold eval, exec, _process_document, bind, lift in *.
  rewrite Hid, Ht, Ha, Hc. cbn [expect_str]. rewrite Hp, Hh.
  cbn [truthy]. rewrite Hne. cbn [negb expect_str].
  unfold try_except. fold name.
  unfold on_converter, zoom in *.
  destruct (DocumentConverter.html_to_epub lag_img transport_img find_all_img
              write_fails html title (author_of author) (Some (temp name))
              (converter w)) as [[p'|e] c1]; [|discriminate Hconv].
  unfold on_uploader, zoom, RemarkableUploader.upload_file, try_except, bind,
    RemarkableUploader.run_put, ret.
  cbn -[DocumentConverter.clean_filename String.append].
  destruct (rmapi (RemarkableUploader.runs (uploader w))
              ["put"; name; RemarkableUploader.folder (uploader w)]);
    cbn -[DocumentConverter.clean_filename String.append].
  - repeat split.
    apply bool_decide_eq_true_2, elem_of_union_l, elem_of_singleton.
    reflexivity.
  - repeat split.
  - repeat split.
Qed.

End DocumentOutcomes.

Lemma article_upload_outcomes_witness :
  let served :=
    History.scripted
      [History.ok
         (RateLimitedImageFetcher.Chunks DocumentConverter.magic_png)] in
  let process :=
    ReadwiseRemarkableSync._process_document History.prompt served
      Run.article_imgs (fun _ => false)
      (fun _ _ => RemarkableUploader.Exit0) (fun _ _ => true) Run.at_noon
      Run.article in
  Eff.eval process Run.initial = Eff.Returned tt
  /\ RemarkableUploader.device
       (ReadwiseRemarkableSync.uploader (Eff.exec process Run.initial))
     = [("Readwise", "An article.epub")]
  /\ ExportTracker.is_exported "doc1"
       (ReadwiseRemarkableSync.tracker (Eff.exec process Run.initial)) = true.
Proof.
  cbv zeta.
  pose proof (article_upload_outcomes History.prompt
                (History.scripted
                   [History.ok
                      (RateLimitedImageFetcher.Chunks
                         DocumentConverter.magic_png)])
                Run.article_imgs (fun _ => false)
                (fun _ _ => RemarkableUploader.Exit0) (fun _ _ => true)
                Run.at_noon Run.article Run.initial
                "doc1" "An article" (Json.JString "Unknown")
                (Json.JString "article")
                "<p><img src=https://example.com/figure.png></p>"
                "temp/An article.epub"
                eq_refl eq_refl eq_refl eq_refl eq_refl eq_refl eq_refl
                eq_refl) as H.
  cbv zeta in H. cbv iota in H.
  destruct H as (H1 & H2 & _ & H4).
  split; [exact H1|]. split; [exact H2 | exact H4].
Defined.

Section PdfOutcomes.

Import Json Eff ReadwiseRemarkableSync Run.

Variable lag_img : nat -> Paced.beat.
Variable transport_img :
  nat -> Http.request -> Http.reply RateLimitedImageFetcher.stream.
Variable find_all_img : string -> list DocumentConverter.img.
Variable write_fails : string -> bool.
Variable rmapi : nat -> list string -> RemarkableUploader.run_result.
Variable download_ok : nat -> json -> bool.
Variable timestamp : nat -> string.

#[local] Abbreviation process_pdf :=
  (_process_document lag_img transport_img find_all_img write_fails rmapi
     download_ok timestamp).

(** X17.  A PDF is uploaded as it is downloaded.  For a document of
    category [pdf] with a source URL whose download goes through,
    [_process_document] always returns, and the converter is left
    alone: no EPUB is written and no image fetched.  On exit status
    zero of [rmapi put] the file, named after the cleaned title with
    the extension [pdf], is on the tablet and the document is marked;
    otherwise, also when [rmapi] cannot be started, tablet and ledger
    are as they were. *)
Theorem pdf_upload_outcomes doc w doc_id title author category source_url :
  subscript doc "id" = Returned (JString doc_id) ->
  subscript doc "title" = Returned (JString title) ->
  dict_get doc "author" (JString "Unknown") = Returned author ->
  dict_get doc "category" (JString "article") = Returned category ->
  is_pdf category = true ->
  dict_get doc "source_url" JNull = Returned source_url ->
  truthy source_url = true ->
  download_ok (downloads w) source_url = true ->
  let name := DocumentConverter.clean_filename title +:+ ".pdf" in
  let w' := exec (process_pdf doc) w in
  eval (process_pdf doc) w = Returned tt
  /\ converter w' = converter w
  /\ match rmapi (RemarkableUploader.runs (uploader w))
             ["put"; name; RemarkableUploader.folder (uploader w)] with
     | RemarkableUploader.Exit0 =>
         RemarkableUploader.device (uploader w')
         = RemarkableUploader.device (uploader w)
           ++ [(RemarkableUploader.folder (uploader w), name)]
         /\ tracker w'
            = exec (ExportTracker.mark_exported
                      (timestamp
                         (size (ExportTracker.exported_docs (tracker w))))
                      doc_id title) (tracker w)
         /\ ExportTracker.is_exported doc_id (tracker w') = true
     | _ => untouched w w'
     end.
Proof.
  intros Hid Ht Ha Hc Hp Hu Htr Hd name w'. subst w'.
  unfold eval, exec, _process_document, bind, lift.
  rewrite Hid, Ht, Ha, Hc. cbn [expect_str]. rewrite Hp, Hu, Htr.
  cbn [negb]. fold name.
  unfold try_except, download_pdf. rewrite Hd.
  unfold on_uploader, zoom, RemarkableUploader.upload_file, try_except, bind,
    RemarkableUploader.run_put, ret.
  cbn -[DocumentConverter.clean_filename String.append].
  destruct (rmapi (RemarkableUploader.runs (uploader w))
              ["put"; name; RemarkableUploader.folder (uploader w)]);
    cbn -[DocumentConverter.clean_filename String.append].
  - repeat split.
    apply bool_decide_eq_true_2, elem_of_union_l, elem_of_singleton.
    reflexivity.
  - repeat split.
  - repeat split.
Qed.

End PdfOutcomes.

Lemma pdf_upload_outcomes_witness :
  let paper :=
    Json.JObject [("id", Json.JString "doc2"); ("title", Json.JString "A paper");
                  ("category", Json.JString "pdf");
                  ("source_url", Json.JString "https://example.com/paper.pdf")] in
  let process :=
    ReadwiseRemarkableSync._process_document History.prompt
      (History.scripted []) Run.article_imgs (fun _ => false)
      (fun _ _ => RemarkableUploader.NotRun) (fun _ _ => true) Run.at_noon
      paper in
  Eff.eval process Run.initial = Eff.Returned tt
  /\ Run.untouched Run.initial (Eff.exec process Run.initial).
Proof.
  cbv zeta.
  pose proof (pdf_upload_outcomes History.prompt (History.scripted [])
                Run.article_imgs (fun _ => false)
                (fun _ _ => RemarkableUploader.NotRun) (fun _ _ => true)
                Run.at_noon
                (Json.JObject
                   [("id", Json.JString "doc2");
                    ("title", Json.JString "A paper");
                    ("category", Json.JString "pdf");
                    ("source_url",
                     Json.JString "https://example.com/paper.pdf")])
                Run.initial "doc2" "A paper" (Json.JString "Unknown")
                (Json.JString "pdf")
                (Json.JString "https://example.com/paper.pdf")
                eq_refl eq_refl eq_refl eq_refl eq_refl eq_refl eq_refl
                eq_refl) as H.
  cbv zeta in H. cbv beta iota in H.
  destruct H as (H1 & _ & H3).
  split; [exact H1 | exact H3].
Defined.

(* ===================================================================== *)
(** * A run of [sync]: what is skipped, and what stops it *)
(* ===================================================================== *)

Section SyncEdges.

Import Json Eff ReadwiseRemarkableSync Run.

Variable lag_api : nat -> Paced.beat.
Variable transport_api : nat -> Http.request -> Http.reply json.
Variable lag_img : nat -> Paced.beat.
Variable transport_img :
  nat -> Http.request -> Http.reply RateLimitedImageFetcher.stream.
Variable find_all_img : string -> list DocumentConverter.img.
Variable write_fails : string -> bool.
Variable rmapi : nat -> list string -> RemarkableUploader.run_result.
Variable download_ok : nat -> json -> bool.
Variable timestamp : nat -> string.
Variable fuel : nat.
Variable locations : list string.
Variable tag : string.

#[local] Abbreviation process_doc :=
  (_process_document lag_img transport_img find_all_img write_fails rmapi
     download_ok timestamp).

#[local] Abbreviation process_each :=
  (process_all lag_img transport_img find_all_img write_fails rmapi
     download_ok timestamp).

#[local] Abbreviation listing :=
  (on_readwise
     (ReadwiseAPI.get_documents lag_api transport_api fuel locations tag)).

#[local] Abbreviation whole_sync :=
  (sync lag_api transport_api lag_img transport_img find_all_img write_fails
     rmapi download_ok timestamp fuel locations tag).

Lemma new_documents_run documents w :
  Forall identified documents ->
  new_documents documents w
  = (Returned (filter (fun doc => already_exported w doc = false) documents),
     w).
Proof.
  induction 1 as [|doc rest [doc_id Hid] _ IH]; [reflexivity|].
  cbn [new_documents]. unfold bind, lift, get, ret.
  rewrite Hid. cbn [ExportTracker.is_exported_any]. rewrite IH.
  rewrite filter_cons.
  assert (Hx : already_exported w doc
               = ExportTracker.is_exported doc_id (tracker w))
    by (unfold already_exported; now rewrite Hid).
  rewrite Hx.
  destruct (ExportTracker.is_exported doc_id (tracker w)).
  - now rewrite decide_False by discriminate.
  - now rewrite decide_True by reflexivity.
Qed.

(** X18.  The documents that [sync] goes on with are the listed ones
    whose identifier the tracker does not hold, in the order of the
    listing and as often as they are listed; making the list changes
    nothing. *)
Theorem new_documents_filters documents w :
  Forall identified documents ->
  eval (new_documents documents) w
  = Returned (filter (fun doc => already_exported w doc = false) documents)
  /\ exec (new_documents documents) w = w.
Proof.
  intros H. unfold eval, exec. now rewrite (new_documents_run documents w H).
Qed.

Lemma listing_frame w :
  let w0 := snd (listing w) in
  tracker w0 = tracker w /\ uploader w0 = uploader w
  /\ converter w0 = converter w /\ downloads w0 = downloads w.
Proof.
  cbv zeta. unfold on_readwise, zoom.
  destruct (ReadwiseAPI.get_documents _ _ _ _ _ _). repeat split.
Qed.

(** X19.  A run with nothing new does nothing.  When every listed
    document has its identifier in the tracker, [sync] returns
    without a run of [rmapi], without a download, and with ledger,
    tablet and converter as they were, apart from the clean-up of the
    temporary files. *)
Theorem sync_skips_exported w documents :
  eval listing w = Returned (Some documents) ->
  Forall (fun doc => identified doc /\ already_exported w doc = true)
    documents ->
  let w' := exec whole_sync w in
  eval whole_sync w = Returned (Some tt)
  /\ tracker w' = tracker w
  /\ uploader w' = uploader w
  /\ downloads w' = downloads w
  /\ DocumentConverter.image_fetcher (converter w')
     = DocumentConverter.image_fetcher (converter w)
  /\ DocumentConverter.written (converter w') = [].
Proof.
  intros Hlist Hall. cbv zeta.
  destruct (listing_frame w) as (F1 & F2 & F3 & F4).
  unfold eval in Hlist.
  destruct (listing w) as [[fetched|e] w0] eqn:El; cbn [fst snd] in *;
    [|discriminate Hlist].
  injection Hlist as ->.
  assert (Hid : Forall identified documents)
    by (eapply Forall_impl; [exact Hall | now intros doc [? _]]).
  assert (Hnone :
    filter (fun doc => already_exported w0 doc = false) documents = []).
  { clear Hid El. induction Hall as [|doc rest [_ Hexp] _ IH]; [reflexivity|].
    rewrite filter_cons, decide_False; [exact IH|].
    unfold already_exported in *. rewrite F1. now rewrite Hexp. }
  assert (E : whole_sync w
              = (Returned (Some tt), exec _cleanup_temp_files w0)).
  { unfold sync. unfold bind at 1. rewrite El.
    destruct (negb (truthy (JArray documents))); [reflexivity|].
    unfold bind. now rewrite (new_documents_run documents w0 Hid), Hnone. }
  unfold eval, exec. rewrite E. cbn. rewrite F1, F2, F3, F4. repeat split.
Qed.

(** X20.  What stops a run.  When the listing raises, [sync] raises
    the same exception; and when a listed document has nothing at
    [id], [sync] raises before any document is processed.  In both
    cases there was no run of [rmapi], ledger and tablet are as they
    were, and the temporary files are cleaned up all the same. *)
Theorem sync_stops_before_processing w :
  let w' := exec whole_sync w in
  (forall e,
      eval listing w = Raised e ->
      eval whole_sync w = Raised e
      /\ tracker w' = tracker w /\ uploader w' = uploader w
      /\ DocumentConverter.written (converter w') = [])
  /\ (forall documents doc e,
        eval listing w = Returned (Some documents) ->
        doc ∈ documents -> subscript doc "id" = Raised e ->
        (exists e', eval whole_sync w = Raised e')
        /\ tracker w' = tracker w /\ uploader w' = uploader w
        /\ DocumentConverter.written (converter w') = []).
Proof.
  cbv zeta.
  destruct (listing_frame w) as (F1 & F2 & F3 & F4).
  split.
  - intros e Hlist. unfold eval in Hlist.
    destruct (listing w) as [[fetched|e0] w0] eqn:El; cbn [fst snd] in *;
      [discriminate Hlist|].
    injection Hlist as ->.
    assert (E : whole_sync w = (Raised e, exec _cleanup_temp_files w0)).
    { unfold sync. unfold bind at 1. now rewrite El. }
    unfold eval, exec. rewrite E. cbn. rewrite F1, F2. repeat split.
  - intros documents doc e Hlist Hin Hid. unfold eval in Hlist.
    destruct (listing w) as [[fetched|e0] w0] eqn:El; cbn [fst snd] in *;
      [|discriminate Hlist].
    injection Hlist as ->.
    assert (Hraise : exists e', new_documents documents w0 = (Raised e', w0)).
    { clear F1 F2 F3 F4 El. induction documents as [|d rest IH].
      - now apply elem_of_nil in Hin.
      - cbn [new_documents]. unfold bind, lift, get, ret.
        apply elem_of_cons in Hin as [<-|Hin].
        + rewrite Hid. now exists e.
        + destruct (subscript d "id") as [i|e1]; [|now exists e1].
          destruct (ExportTracker.is_exported_any i (tracker w0))
            as [exported|e1]; [|now exists e1].
          destruct (IH Hin) as (e' & ->). now exists e'. }
    destruct Hraise as (e' & Hraise).
    assert (Hne : truthy (JArray documents) = true).
    { destruct documents; [now apply elem_of_nil in Hin | reflexivity]. }
    assert (E : whole_sync w = (Raised e', exec _cleanup_temp_files w0)).
    { unfold sync. unfold bind at 1. rewrite El, Hne. cbn [negb].
      unfold bind. now rewrite Hraise. }
    unfold eval, exec. rewrite E. cbn. rewrite F1, F2. repeat split.
    now exists e'.
Qed.

Lemma process_each_step doc rest w t :
  subscript doc "title" = Returned t ->
  process_each (doc :: rest) w
  = process_each rest (exec (process_doc doc) w).
Proof.
  intros Ht. unfold process_all. cbn [for_each].
  unfold bind at 1. unfold bind at 1, lift at 1. rewrite Ht.
  now rewrite try_swallow.
Qed.

(** X21.  One document cannot stop the others.  In the loop of [sync]
    over the new documents, a document with a title is processed and,
    whether that returns or raises, the loop goes on with the next one
    from the state this left; so when every document has a title the
    loop returns.  A document without a title raises out of the loop
    before it is processed, and nothing after it is processed. *)
Theorem process_all_isolates_failures :
  (forall doc rest w t,
      subscript doc "title" = Returned t ->
      process_each (doc :: rest) w
      = process_each rest (exec (process_doc doc) w))
  /\ (forall docs w,
        Forall (fun doc => exists t, subscript doc "title" = Returned t) docs ->
        eval (process_each docs) w = Returned tt)
  /\ (forall doc rest w e,
        subscript doc "title" = Raised e ->
        process_each (doc :: rest) w = (Raised e, w)).
Proof.
  split; [|split].
  - exact process_each_step.
  - intros docs w H. revert w.
    induction H as [|doc rest [t Ht] _ IH]; intros w; [reflexivity|].
    unfold eval in *. rewrite (process_each_step doc rest w t Ht). apply IH.
  - intros doc rest w e He. unfold process_all. cbn [for_each].
    unfold bind at 1. unfold bind at 1, lift at 1. now rewrite He.
Qed.

End SyncEdges.

Lemma new_documents_filters_witness :
  Forall Run.identified [Listing.doc_a; Listing.doc_x; Listing.doc_a]
  /\ Eff.eval
       (ReadwiseRemarkableSync.new_documents
          [Listing.doc_a; Listing.doc_x; Listing.doc_a]) Run.caught_up
     = Eff.Returned [Listing.doc_x].
Proof.
  assert (H : Forall Run.identified
                [Listing.doc_a; Listing.doc_x; Listing.doc_a])
    by (repeat constructor; eexists; reflexivity).
  split; [exact H|].
  rewrite (proj1 (new_documents_filters _ Run.caught_up H)).
  vm_compute. reflexivity.
Defined.

Lemma sync_stops_before_processing_witness :
  let nameless :=
    Json.JObject [("title", Json.JString "No id");
                  ("tags", Json.JArray [Json.JString "remarkable"])] in
  let page :=
    Json.JObject [("results", Json.JArray [Listing.doc_a; nameless])] in
  let run :=
    ReadwiseRemarkableSync.sync History.prompt
      (Listing.reliable (fun _ => page)) History.prompt (History.scripted [])
      Run.article_imgs (fun _ => false) (fun _ _ => RemarkableUploader.Exit0)
      (fun _ _ => true) Run.at_noon 3 ["new"] "remarkable" in
  (exists e', Eff.eval run Run.initial = Eff.Raised e')
  /\ ReadwiseRemarkableSync.uploader (Eff.exec run Run.initial)
     = ReadwiseRemarkableSync.uploader Run.initial.
Proof.
  cbv zeta.
  set (nameless :=
         Json.JObject [("title", Json.JString "No id");
                       ("tags", Json.JArray [Json.JString "remarkable"])]).
  pose proof (proj2 (sync_stops_before_processing History.prompt
                       (Listing.reliable
                          (fun _ =>
                             Json.JObject
                               [("results",
                                 Json.JArray [Listing.doc_a; nameless])]))
                       History.prompt (History.scripted []) Run.article_imgs
                       (fun _ => false)
                       (fun _ _ => RemarkableUploader.Exit0)
                       (fun _ _ => true) Run.at_noon 3 ["new"] "remarkable"
                       Run.initial)
                [Listing.doc_a; nameless] nameless (Eff.KeyError "id")
                ltac:(vm_compute; reflexivity)
                ltac:(apply list_elem_of_further, list_elem_of_here)
                eq_refl) as (H1 & _ & H3 & _).
  split; [exact H1 | exact H3].
Defined.

Lemma sync_skips_exported_witness :
  let run :=
    ReadwiseRemarkableSync.sync History.prompt
      (Listing.reliable Listing.two_pages) History.prompt (History.scripted [])
      Run.article_imgs (fun _ => false) (fun _ _ => RemarkableUploader.Exit0)
      (fun _ _ => true) Run.at_noon 5 ["new"] "remarkable" in
  Eff.eval run Run.caught_up = Eff.Returned (Some tt)
  /\ ReadwiseRemarkableSync.uploader (Eff.exec run Run.caught_up)
     = ReadwiseRemarkableSync.uploader Run.caught_up.
Proof.
  cbv zeta.
  assert (Hall : Forall (fun doc => Run.identified doc
                                    /\ Run.already_exported Run.caught_up doc
                                       = true)
                   [Listing.doc_a; Listing.doc_b; Listing.doc_c]).
  { repeat constructor; try (eexists; reflexivity); vm_compute; reflexivity. }
  pose proof (sync_skips_exported History.prompt
                (Listing.reliable Listing.two_pages) History.prompt
                (History.scripted []) Run.article_imgs (fun _ => false)
                (fun _ _ => RemarkableUploader.Exit0) (fun _ _ => true)
                Run.at_noon 5 ["new"] "remarkable" Run.caught_up
                [Listing.doc_a; Listing.doc_b; Listing.doc_c]
                ltac:(vm_compute; reflexivity) Hall) as H.
  cbv zeta in H. destruct H as (H1 & _ & H3 & _).
  split; [exact H1 | exact H3].
Defined.

Lemma process_all_isolates_failures_witness :
  let process :=
    ReadwiseRemarkableSync.process_all History.prompt (History.scripted [])
      Run.article_imgs (fun _ => true) (fun _ _ => RemarkableUploader.Exit0)
      (fun _ _ => true) Run.at_noon in
  Eff.eval (process [Run.article; Run.article]) Run.initial = Eff.Returned tt
  /\ process [Listing.doc_a; Run.article] Run.initial
     = (Eff.Raised (Eff.KeyError "title"), Run.initial).
Proof.
  cbv zeta. split.
  - apply (proj1 (proj2 (process_all_isolates_failures History.prompt
                           (History.scripted []) Run.article_imgs
                           (fun _ => true)
                           (fun _ _ => RemarkableUploader.Exit0)
                           (fun _ _ => true) Run.at_noon))).
    repeat constructor; eexists; reflexivity.
  - apply (proj2 (proj2 (process_all_isolates_failures History.prompt
                           (History.scripted []) Run.article_imgs
                           (fun _ => true)
                           (fun _ _ => RemarkableUploader.Exit0)
                           (fun _ _ => true) Run.at_noon))).
    reflexivity.
Defined.

(* ===================================================================== *)
(** * Images in the book *)
(* ===================================================================== *)

Section EmbeddedImages.

Import Eff Http Paced History DocumentConverter Shape.

Lemma placed_later added extra i i' :
  placed added i i' -> placed (extra :: added) i i'.
Proof.
  intros [->|(Hr & name & content & -> & Hin)]; [now left|].
  right. split; [exact Hr|]. exists name, content.
  split; [reflexivity | now apply list_elem_of_further].
Qed.

Lemma embed_images_run lag transport imgs :
  forall n images s imgs' images' s',
    embed_images lag transport imgs n images s
    = (Returned (imgs', images'), s') ->
    exists added,
      images' = images ++ added
      /\ Forall2 (placed added) imgs imgs'
      /\ (forall j name content,
            added !! j = Some (name, content) ->
            embedded_name (n + j) name /\ content <> []).
Proof.
  induction imgs as [|i rest IH]; intros n images s imgs' images' s' E.
  - injection E as <- <- <-. exists []. rewrite app_nil_r.
    split; [reflexivity|]. split; [constructor|]. intros j ? ? H.
    destruct j; discriminate H.
  - assert (Hkept : forall s1,
      (let* done := embed_images lag transport rest n images in
       ret (i :: fst done, snd done))%eff s1
      = (Returned (imgs', images'), s') ->
      exists added,
        images' = images ++ added
        /\ Forall2 (placed added) (i :: rest) imgs'
        /\ (forall j name content,
              added !! j = Some (name, content) ->
              embedded_name (n + j) name /\ content <> [])).
    { intros s1 E1. unfold bind in E1.
      destruct (embed_images lag transport rest n images s1)
        as [[[rest' images1]|e] s2] eqn:E2; [|discriminate E1].
      injection E1 as <- <- <-.
      destruct (IH _ _ _ _ _ _ E2) as (added & H1 & H2 & H3).
      exists added. split; [exact H1|]. split; [|exact H3].
      constructor; [now left | exact H2]. }
    cbn [embed_images] in E.
    destruct (is_remote i) as [url|] eqn:Er; [|now apply (Hkept s)].
    unfold bind at 1 in E.
    destruct (RateLimitedImageFetcher.fetch_image lag transport url s)
      as [[content|e] s1]; [|discriminate E].
    destruct content as [[|b bs]|];
      [now apply (Hkept s1) | | now apply (Hkept s1)].
    unfold bind in E.
    destruct (embed_images lag transport rest (S n) _ s1)
      as [[[rest' images1]|e] s2] eqn:E2; [|discriminate E].
    injection E as <- <- <-.
    destruct (IH _ _ _ _ _ _ E2) as (added & H1 & H2 & H3).
    cbn [fst snd].
    set (name := "img_" +:+ str_of_nat n +:+ "." +:+
                 _determine_image_extension url (b :: bs)) in *.
    exists ((name, b :: bs) :: added).
    split; [now rewrite H1, <- app_assoc|]. split.
    + constructor.
      * right. split; [now rewrite Er|].
        exists name, (b :: bs). split; [reflexivity | apply list_elem_of_here].
      * eapply Forall2_impl; [exact H2|]. intros x y. apply placed_later.
    + intros [|j] nm c Hj.
      * injection Hj as <- <-. rewrite Nat.add_0_r. split; [|discriminate].
        exists (_determine_image_extension url (b :: bs)).
        split; [reflexivity | apply image_extension_known].
      * replace (n + S j)%nat with (S n + j)%nat by lia. now apply H3.
Qed.

(** X22.  No image is lost and no reference dangles.  When the loop
    of [html_to_epub] over the [img] elements returns, the images of
    the book are those it had, followed by the ones added; every
    element is as it was or, if it was a remote image, points at one
    of the images added; and the images added are not empty and are
    named [img_n], [img_(n+1)], ... in the order in which they were
    added, from the counter [n] that the loop starts with (0 in
    [html_to_epub]), each with one of the six known extensions.
    Elements that are not remote images cost no request and change
    nothing. *)
Theorem embed_images_places lag transport imgs n images s imgs' images' :
  eval (embed_images lag transport imgs n images) s
  = Returned (imgs', images') ->
  (exists added,
      images' = images ++ added
      /\ Forall2 (placed added) imgs imgs'
      /\ (forall j name content,
            added !! j = Some (name, content) ->
            embedded_name (n + j) name /\ content <> []))
  /\ (Forall (fun i => is_remote i = None) imgs ->
      embed_images lag transport imgs n images s
      = (Returned (imgs, images), s)).
Proof.
  intros E. unfold eval in E. split.
  - destruct (embed_images lag transport imgs n images s) as [r s'] eqn:E1.
    cbn [fst] in E. subst r. exact (embed_images_run _ _ _ _ _ _ _ _ _ E1).
  - clear E. induction 1 as [|i rest Hi _ IH]; [reflexivity|].
    cbn [embed_images]. rewrite Hi. unfold bind. now rewrite IH.
Qed.

Lemma embed_images_places_witness :
  let figure := {| src := Some sample_image; style := None |} in
  let cover := {| src := Some "cover.png"; style := None |} in
  let served :=
    scripted [ok (RateLimitedImageFetcher.Chunks magic_gif)] in
  exists added,
    eval (embed_images prompt served [cover; figure; figure] 0 []) (fresh 0)
    = Returned ([cover;
                 {| src := Some "img_0.gif";
                    style := Some "max-width: 100%; height: auto;" |};
                 figure], added)
    /\ Forall2 (placed added) [cover; figure; figure]
         [cover;
          {| src := Some "img_0.gif";
             style := Some "max-width: 100%; height: auto;" |};
          figure].
Proof.
  cbv zeta. exists [("img_0.gif", magic_gif)].
  assert (E : eval (embed_images prompt
                      (scripted [ok (RateLimitedImageFetcher.Chunks magic_gif)])
                      [{| src := Some "cover.png"; style := None |};
                       {| src := Some sample_image; style := None |};
                       {| src := Some sample_image; style := None |}] 0 [])
                (fresh 0)
              = Returned ([{| src := Some "cover.png"; style := None |};
                           {| src := Some "img_0.gif";
                              style := Some "max-width: 100%; height: auto;" |};
                           {| src := Some sample_image; style := None |}],
                          [("img_0.gif", magic_gif)]))
    by (vm_compute; reflexivity).
  split; [exact E|].
  destruct (proj1 (embed_images_places _ _ _ _ _ _ _ _ E))
    as (added & Ha & Hp & _).
  cbn [app] in Ha. now subst added.
Defined.

End EmbeddedImages.

(* ===================================================================== *)
(** * The configured locations *)
(* ===================================================================== *)

Section ConfiguredLocations.

Import Py Eff Shape Config.

Lemma split_piece sep p rest :
  contains_char sep p = false ->
  split sep (p +:+ String sep rest) = p :: split sep rest.
Proof.
  induction p as [|c r IH]; simpl.
  - intros _. now rewrite Ascii.eqb_refl.
  - destruct (Ascii.eqb c sep); simpl; [discriminate|].
    intros H. now rewrite (IH H).
Qed.

Lemma split_comma_separated pieces :
  pieces <> [] ->
  Forall (fun piece => contains_char "," piece = false) pieces ->
  split "," (comma_separated pieces) = pieces.
Proof.
  intros Hne H. induction H as [|p rest Hp Hrest IH]; [congruence|].
  destruct rest as [|q rest].
  - now apply split_no_sep.
  - change (comma_separated (p :: q :: rest))
      with (p +:+ String "," (comma_separated (q :: rest))).
    rewrite (split_piece _ _ _ Hp), IH; [reflexivity | discriminate].
Qed.

Lemma split_not_nil sep s : split sep s <> [].
Proof.
  destruct s as [|c r]; simpl; [discriminate|].
  destruct (Ascii.eqb c sep); [discriminate|].
  destruct (split sep r); discriminate.
Qed.

Lemma split_pieces_plain sep s :
  Forall (fun piece => all_chars (fun c => negb (Ascii.eqb c sep)) piece = true)
    (split sep s).
Proof.
  induction s as [|c r IH]; simpl; [repeat constructor|].
  destruct (Ascii.eqb c sep) eqn:E; [constructor; [reflexivity | exact IH]|].
  destruct (split sep r) as [|piece pieces]; [repeat constructor; simpl;
    now rewrite E|].
  apply Forall_cons in IH as [Hp Hrest].
  constructor; [|exact Hrest]. simpl. now rewrite E, Hp.
Qed.

Lemma plain_no_sep sep s :
  all_chars (fun c => negb (Ascii.eqb c sep)) s = true ->
  contains_char sep s = false.
Proof.
  induction s as [|c r IH]; simpl; [reflexivity|].
  intros H. apply andb_prop in H as [Hc Hr].
  apply negb_true_iff in Hc. now rewrite Hc, (IH Hr).
Qed.

(** X23.  The configured locations.  Without the option the
    locations are [new], [later] and [shortlist].  With it, they are
    the pieces of the value between its commas, each without the
    white space around it: reading never fails on a value, the list is
    never empty, no location holds a comma or has white space at
    either end, and pieces written with a comma between each two are
    read back as they were written, stripped. *)
Theorem locations_are_stripped_pieces parsed :
  (parsed "sync" "locations" = Absent ->
   locations parsed = Returned ["new"; "later"; "shortlist"])
  /\ (forall v,
        parsed "sync" "locations" = Value v ->
        exists l,
          locations parsed = Returned l
          /\ l <> []
          /\ Forall (fun location =>
                       strip location = location
                       /\ contains_char "," location = false) l)
  /\ (forall pieces,
        pieces <> [] ->
        Forall (fun piece => contains_char "," piece = false) pieces ->
        parsed "sync" "locations" = Value (comma_separated pieces) ->
        locations parsed = Returned (map strip pieces)).
Proof.
  unfold locations, config_get_fallback.
  split; [|split].
  - intros ->. reflexivity.
  - intros v ->. eexists. split; [reflexivity|]. split.
    + intros H. apply fmap_nil_inv in H. now apply split_not_nil in H.
    + apply Forall_fmap.
      eapply Forall_impl; [apply (split_pieces_plain "," v)|].
      intros piece Hp. cbn. split; [apply strip_idem|].
      apply plain_no_sep. unfold strip.
      now apply all_chars_rstrip, all_chars_lstrip.
  - intros pieces Hne Hp ->. now rewrite split_comma_separated.
Qed.

Lemma locations_are_stripped_pieces_witness :
  let parsed :=
    fun section option : string =>
      if String.eqb section "sync" && String.eqb option "locations"
      then Value (comma_separated ["new"; " later "; ""; "feed "])
      else Absent in
  locations parsed = Returned ["new"; "later"; ""; "feed"].
Proof.
  cbv zeta.
  apply (proj2 (proj2 (locations_are_stripped_pieces _))
           ["new"; " later "; ""; "feed "]).
  - discriminate.
  - repeat constructor.
  - reflexivity.
Defined.

End ConfiguredLocations.

(* ===================================================================== *)
(** * What processing a document leaves alone *)
(* ===================================================================== *)

Section DocumentFrames.

Import Json Eff ReadwiseRemarkableSync Run.

Variable lag_img : nat -> Paced.beat.
Variable transport_img :
  nat -> Http.request -> Http.reply RateLimitedImageFetcher.stream.
Variable find_all_img : string -> list DocumentConverter.img.
Variable write_fails : string -> bool.
Variable rmapi : nat -> list string -> RemarkableUploader.run_result.
Variable download_ok : nat -> json -> bool.
Variable timestamp : nat -> string.

#[local] Abbreviation process_this :=
  (_process_document lag_img transport_img find_all_img write_fails rmapi
     download_ok timestamp).

Ltac each_case :=
  repeat (cbn -[DocumentConverter.clean_filename String.append
                DocumentConverter.html_to_epub Json.py_str];
          match goal with
          | |- context [match ?x with _ => _ end] =>
              lazymatch x with
              | context [match _ with _ => _ end] => fail
              | _ => destruct x eqn:?
              end
          end);
  cbn -[DocumentConverter.clean_filename String.append
        DocumentConverter.html_to_epub Json.py_str].

(** X24.  Processing a document sends nothing to Readwise, runs
    [rmapi] at most once and puts at most one file on the tablet; a
    PDF leaves the converter alone, and any other document starts no
    download. *)
Theorem process_document_frames doc w :
  let w' := exec (process_this doc) w in
  readwise w' = readwise w
  /\ (RemarkableUploader.runs (uploader w')
      <= S (RemarkableUploader.runs (uploader w)))%nat
  /\ (length (RemarkableUploader.device (uploader w'))
      <= S (length (RemarkableUploader.device (uploader w))))%nat
  /\ (forall category,
        dict_get doc "category" (JString "article") = Returned category ->
        if is_pdf category then converter w' = converter w
        else downloads w' = downloads w).
Proof.
  cbv zeta.
  unfold exec, _process_document, bind, lift, try_except, on_uploader,
    on_converter, on_tracker, zoom, download_pdf, mark_exported,
    RemarkableUploader.upload_file, RemarkableUploader.run_put,
    ExportTracker.mark_exported_any, ExportTracker.mark_exported,
    ExportTracker.set_member, try_except, bind, lift, modify, get, ret,
    raise.
  each_case.
  all: repeat split; try lia; try (rewrite length_app; cbn; lia).
  all: intros category Hc; simplify_eq; each_case; try reflexivity;
    try congruence.
Qed.

End DocumentFrames.

(* ===================================================================== *)
(** * Retrying until a reply is good *)
(* ===================================================================== *)

Section RetryUntilSuccess.

Import Eff Http Paced History.

Lemma seq_cut k n : (k < n)%nat -> seq 0 n = seq 0 k ++ k :: seq (S k) (n - S k).
Proof.
  intros H. replace n with (k + S (n - S k))%nat at 1 by lia.
  now rewrite seq_app.
Qed.

(** X25.  The first good reply is the result.  When the replies to the
    first [k] requests of a call are failures and the next is good,
    [_make_request] ([k] at most four) returns that response and
    [fetch_image] ([k] at most two) the bytes of that body, having
    sent exactly [k + 1] requests; with [k = 0], a good first reply
    costs one request. *)
Theorem retries_until_success :
  (forall lag transport r s k resp,
      (k <= 4)%nat ->
      (forall i, (i < k)%nat ->
                 is_Some (api_failure (transport (sent s + i)%nat r))) ->
      api_success (transport (sent s + k)%nat r) = Some resp ->
      exists s',
        ReadwiseAPI._make_request lag transport r s = (Returned resp, s')
        /\ sent s' = (sent s + S k)%nat)
  /\ (forall lag transport url s k content,
      (k <= 2)%nat ->
      (forall i, (i < k)%nat ->
         is_Some (fetch_failure
                    (transport (sent s + i)%nat
                       {| method := "GET"; url := url; params := [] |}))) ->
      fetch_success
        (transport (sent s + k)%nat
           {| method := "GET"; url := url; params := [] |})
      = Some content ->
      exists s',
        RateLimitedImageFetcher.fetch_image lag transport url s
        = (Returned (Some content), s')
        /\ sent s' = (sent s + S k)%nat).
Proof.
  split.
  - intros lag transport r s k resp Hk Hf Hok.
    unfold ReadwiseAPI._make_request.
    rewrite (seq_cut k ReadwiseAPI.max_retries)
      by (unfold ReadwiseAPI.max_retries; lia).
    destruct (api_attempts_skip_failures lag transport r k 0
                (k :: seq (S k) (ReadwiseAPI.max_retries - S k)) s
                ltac:(lia) Hf) as (s1 & -> & Hs1).
    cbn [ReadwiseAPI.attempts]. unfold bind at 1.
    unfold ReadwiseAPI.attempt_once, bind at 1.
    destruct (rate_limit_sent lag ReadwiseAPI.min_request_interval s1)
      as (s2 & -> & Hs2).
    assert (Hok' : api_success (transport (sent s2) r) = Some resp)
      by now rewrite Hs2, Hs1.
    destruct (api_try_success lag transport r k s2 resp Hok')
      as (s3 & -> & Hs3).
    exists s3. cbn. split; [reflexivity | lia].
  - intros lag transport url s k content Hk Hf Hok.
    unfold RateLimitedImageFetcher.fetch_image.
    rewrite (seq_cut k RateLimitedImageFetcher.max_retries)
      by (unfold RateLimitedImageFetcher.max_retries; lia).
    destruct (fetch_attempts_skip_failures lag transport url k 0
                (k :: seq (S k) (RateLimitedImageFetcher.max_retries - S k)) s
                ltac:(lia) Hf) as (s1 & -> & Hs1).
    cbn [RateLimitedImageFetcher.attempts]. unfold bind at 1.
    unfold RateLimitedImageFetcher.attempt_once, bind at 1.
    destruct (rate_limit_sent lag RateLimitedImageFetcher.min_interval s1)
      as (s2 & -> & Hs2).
    rewrite <- Hs1, <- Hs2 in Hok.
    destruct (fetch_try_success lag transport url k s2 content Hok)
      as (s3 & -> & Hs3).
    exists s3. cbn. split; [reflexivity | lia].
Qed.

Lemma retries_until_success_witness :
  let transport :=
    scripted [timed_out;
              Responds {| status_code := 503; retry_after := None;
                          body := Json.JNull |};
              ok (Json.JString "page")] in
  exists s',
    ReadwiseAPI._make_request prompt transport sample_request (fresh 0)
    = (Returned {| status_code := 200; retry_after := None;
                   body := Json.JString "page" |}, s')
    /\ sent s' = 3%nat.
Proof.
  cbv zeta.
  apply (proj1 retries_until_success prompt _ sample_request (fresh 0) 2%nat).
  - lia.
  - intros i Hi. destruct i as [|[|i]]; [cbn; eauto | cbn; eauto | lia].
  - reflexivity.
Defined.

End RetryUntilSuccess.

(* ===================================================================== *)
(** * The book that [html_to_epub] writes *)
(* ===================================================================== *)

Section BookWritten.

Import Eff Http Paced DocumentConverter.

(** X26.  [html_to_epub] writes one file or none.  When it returns,
    it returns the path it was given (or, given none, the cleaned
    title with the extension [epub]); it has then written exactly one
    book, at that path, with the title as its title and as the heading
    of its chapter, unless the file could not be written, which the
    library passes over in silence: then nothing is written.  When it
    raises, nothing is written either.  Without content there is no
    image in the book and the image fetcher is not used. *)
Theorem html_to_epub_writes_once
    lag transport find_all_img write_fails html title author output_path c :
  let r :=
    html_to_epub lag transport find_all_img write_fails html title author
      output_path c in
  let path :=
    match output_path with
    | Some p => p
    | None => clean_filename title +:+ ".epub"
    end in
  ((fst r = Returned path
    /\ if write_fails path then written (snd r) = written c
       else exists b,
              written (snd r) = written c ++ [(path, b)]
              /\ book_title b = title /\ chapter_heading b = title
              /\ (Py.nonempty html = false ->
                  chapter_imgs b = None /\ book_images b = []))
   \/ ((exists e, fst r = Raised e) /\ written (snd r) = written c))
  /\ (Py.nonempty html = false -> image_fetcher (snd r) = image_fetcher c).
Proof.
  cbv zeta.
  unfold html_to_epub, bind, write_epub, format_byline, on_fetcher, zoom,
    modify, ret, raise, lift.
  set (path := match output_path with
               | Some p => p
               | None => clean_filename title +:+ ".epub"
               end).
  destruct (Py.nonempty html);
    [destruct (embed_images lag transport (find_all_img html) 0 []
                 (image_fetcher c)) as [[done|e] f1]|];
    destruct author as [[a|j]|]; try destruct (Json.py_str j);
    destruct (write_fails path) eqn:Hw; cbn; rewrite ?Hw;
    (split; [|try discriminate; reflexivity]);
    first [ right; split; [eexists; reflexivity | reflexivity]
          | left; split; reflexivity
          | left; split; [reflexivity|];
            eexists; split; [reflexivity|]; cbn; repeat split; discriminate
          | left; split; [reflexivity|];
            eexists; split; [reflexivity|]; cbn; repeat split ].
Qed.

Lemma html_to_epub_writes_once_witness :
  let convert failing :=
    html_to_epub History.prompt (History.scripted []) Run.article_imgs
      (fun _ => failing) "" "A title" None None
      {| image_fetcher := Paced.fresh 0; written := [] |} in
  fst (convert true) = Returned "A title.epub"
  /\ written (snd (convert true)) = []
  /\ length (written (snd (convert false))) = 1%nat.
Proof.
  cbv zeta.
  pose proof (proj1 (html_to_epub_writes_once History.prompt
                       (History.scripted []) Run.article_imgs
                       (fun _ => true) "" "A title" None None
                       {| image_fetcher := Paced.fresh 0; written := [] |}))
    as H.
  cbv zeta in H.
  destruct H as [[H1 H2]|[[e He] _]]; [|discriminate He].
  split; [exact H1|]. split; [exact H2|]. vm_compute. reflexivity.
Defined.

End BookWritten.

(* ===================================================================== *)
(** * A [Retry-After] in seconds *)
(* ===================================================================== *)

Section RetryAfterSeconds.

Import Py Shape Eff Http Paced History.

Lemma scan_uint d :
  forall acc count b,
    d <> Decimal.Nil \/ b = true ->
    scan_digits (Z.of_nat acc) count b (NilEmpty.string_of_uint d)
    = Some (Z.of_nat (Nat.of_uint_acc d acc),
            (count + String.length (NilEmpty.string_of_uint d))%nat, "").
Proof.
  induction d; intros acc count b Hd;
    try (cbn [NilEmpty.string_of_uint Nat.of_uint_acc scan_digits
              String.length];
         change (Ascii.eqb _ "_") with false; cbv iota;
         match goal with
         | |- context [digit_of ?c] =>
             let v := eval vm_compute in (digit_of c) in
             change (digit_of c) with v
         end; cbv iota;
         match goal with
         | |- scan_digits ?z _ true _
              = Some (Z.of_nat (Nat.of_uint_acc _ ?a), _, _) =>
             replace z with (Z.of_nat a)
               by (rewrite Nat.tail_mul_spec; lia)
         end;
         rewrite IHd by (now right); now rewrite Nat.add_succ_r).
  cbn. destruct Hd as [Hd | ->]; [congruence|]. now rewrite Nat.add_0_r.
Qed.

(** The decimal digits of a number begin with a digit. *)
Lemma uint_head d c r :
  NilEmpty.string_of_uint d = String c r ->
  int_space c = false /\ Ascii.eqb c "+" = false /\ Ascii.eqb c "-" = false.
Proof.
  destruct d; cbn [NilEmpty.string_of_uint]; intros [= <- _];
    repeat split; vm_compute; reflexivity.
Qed.

Lemma py_int_decimal n :
  (String.length (DocumentConverter.str_of_nat n) <= max_str_digits)%nat ->
  py_int (DocumentConverter.str_of_nat n) = Returned (Z.of_nat n).
Proof.
  unfold DocumentConverter.str_of_nat. intros Hlen.
  pose proof (scan_uint (Nat.to_uint n) 0 0 false) as Hp.
  change (Nat.of_uint_acc (Nat.to_uint n) 0)
    with (Nat.of_uint (Nat.to_uint n)) in Hp.
  rewrite DecimalNat.Unsigned.of_to in Hp.
  assert (Hnil : Nat.to_uint n <> Decimal.Nil).
  { intros E. pose proof (DecimalNat.Unsigned.of_to n) as H.
    rewrite E in H. cbn in H. subst n. discriminate E. }
  specialize (Hp (or_introl Hnil)).
  change (Z.of_nat 0) with 0 in Hp. cbn [Nat.add] in Hp.
  apply Nat.ltb_ge in Hlen.
  unfold py_int.
  destruct (NilEmpty.string_of_uint (Nat.to_uint n)) as [|c r] eqn:Es;
    [discriminate Hp|].
  destruct (uint_head _ _ _ Es) as (Hspace & Hplus & Hminus).
  cbn [skip_space]. rewrite Hspace, Hplus, Hminus, Hp, Hlen.
  cbn [skip_space]. f_equal. lia.
Qed.

(** X27.  A [Retry-After] in seconds is obeyed to the second.  When
    the header holds the decimal digits of [n], no more than 4300 of
    them, the wait read from it is [n], whatever the default; and when
    [time.sleep] returns with [n] seconds, on a 429 with that header
    the [try] statement of either client sleeps after the request, for
    [n] seconds at least, and goes on with the next turn of the
    loop. *)
Theorem retry_after_seconds n :
  (String.length (DocumentConverter.str_of_nat n) <= max_str_digits)%nat ->
  (forall B (resp : response B) default,
      retry_after resp = Some (DocumentConverter.str_of_nat n) ->
      int_retry_after resp default = Returned (Z.of_nat n))
  /\ (sleep_returns (Z.of_nat n) ->
      (forall lag transport r attempt s resp,
          transport (sent s) r = Responds resp ->
          status_code resp = 429 ->
          retry_after resp = Some (DocumentConverter.str_of_nat n) ->
          ReadwiseAPI.try_request lag transport r attempt s
          = (Returned Continue,
             exec (sleep_seconds lag (Z.of_nat n))
               (exec (session_request lag transport r) s)))
      /\ (forall lag transport url attempt s resp,
            transport (sent s) {| method := "GET"; url := url; params := [] |}
            = Responds resp ->
            status_code resp = 429 ->
            retry_after resp = Some (DocumentConverter.str_of_nat n) ->
            RateLimitedImageFetcher.try_fetch lag transport url attempt s
            = (Returned Continue,
               exec (sleep_seconds lag (Z.of_nat n))
                 (exec (RateLimitedImageFetcher.session_get lag transport url)
                    s)))
      /\ (forall lag s,
            eval (sleep_seconds lag (Z.of_nat n)) s = Returned tt
            /\ clock s + 1000 * Z.of_nat n
               <= clock (exec (sleep_seconds lag (Z.of_nat n)) s))).
Proof.
  intros Hlen.
  assert (Hint : forall B (resp : response B) default,
             retry_after resp = Some (DocumentConverter.str_of_nat n) ->
             int_retry_after resp default = Returned (Z.of_nat n)).
  { intros B resp default Hh. unfold int_retry_after.
    now rewrite Hh, py_int_decimal. }
  split; [exact Hint|]. intros Hsleep. split; [|split].
  - intros lag transport r attempt s resp Hr Hst Hh.
    apply api_try_rate_limited. exists resp.
    split; [exact Hr|]. split; [exact Hst|].
    split; [now apply Hint | exact Hsleep].
  - intros lag transport url attempt s resp Hr Hst Hh.
    apply fetch_try_rate_limited. exists resp.
    split; [exact Hr|]. split; [exact Hst|].
    split; [now apply Hint | exact Hsleep].
  - intros lag s. split; [apply Hsleep|].
    apply sleep_returns_range in Hsleep.
    destruct (sleep_seconds_accepted lag _ s Hsleep) as (E & s' & E' & _ & Hc).
    unfold exec. now rewrite E, E'.
Qed.

Lemma retry_after_seconds_witness :
  let resp :=
    {| status_code := 429; retry_after := Some "120"; body := Json.JNull |} in
  (String.length (DocumentConverter.str_of_nat 120) <= max_str_digits)%nat
  /\ int_retry_after resp 2 = Returned 120
  /\ stamps (exec (ReadwiseAPI._make_request prompt
                     (scripted [Responds resp; ok Json.JNull]) sample_request)
               (fresh 0))
     = [123100; 3100].
Proof.
  cbv zeta.
  assert (Hlen : (String.length (DocumentConverter.str_of_nat 120)
                  <= max_str_digits)%nat)
    by (vm_compute; lia).
  split; [exact Hlen|]. split; [|vm_compute; reflexivity].
  exact (proj1 (retry_after_seconds 120 Hlen)
           _ {| status_code := 429; retry_after := Some "120";
                body := Json.JNull |} 2 eq_refl).
Defined.

End RetryAfterSeconds.

(* ===================================================================== *)
(** * What the clients raise *)
(* ===================================================================== *)

Section RaisedExceptions.

Import Eff Http Paced History.










End RaisedExceptions.

(* ===================================================================== *)
(** * The ledger only grows *)
(* ===================================================================== *)

Section LedgerGrows.

Import Json Eff ReadwiseRemarkableSync Run.

Variable lag_api : nat -> Paced.beat.
Variable transport_api : nat -> Http.request -> Http.reply json.
Variable lag_img : nat -> Paced.beat.
Variable transport_img :
  nat -> Http.request -> Http.reply RateLimitedImageFetcher.stream.
Variable find_all_img : string -> list DocumentConverter.img.
Variable write_fails : string -> bool.
Variable rmapi : nat -> list string -> RemarkableUploader.run_result.
Variable download_ok : nat -> json -> bool.
Variable timestamp : nat -> string.
Variable fuel : nat.
Variable locations : list string.
Variable tag : string.

#[local] Abbreviation process_it :=
  (_process_document lag_img transport_img find_all_img write_fails rmapi
     download_ok timestamp).

#[local] Abbreviation process_them :=
  (process_all lag_img transport_img find_all_img write_fails rmapi
     download_ok timestamp).

#[local] Abbreviation the_sync :=
  (sync lag_api transport_api lag_img transport_img find_all_img write_fails
     rmapi download_ok timestamp fuel locations tag).

Lemma grown_refl t : grown t t.
Proof. split; [reflexivity | now left]. Qed.

Lemma append_append f a b :
  ExportTracker.append (ExportTracker.append f a) b
  = ExportTracker.append f (a +:+ b).
Proof.
  destruct f as [|c|c tl rd]; cbn [ExportTracker.append];
    [reflexivity | now rewrite sapp_assoc | now rewrite sapp_assoc].
Qed.

Lemma grown_trans t1 t2 t3 : grown t1 t2 -> grown t2 t3 -> grown t1 t3.
Proof.
  intros [S1 F1] [S2 F2]. split; [now transitivity
    (ExportTracker.exported_docs t2)|].
  destruct F2 as [->|[b ->]]; [exact F1|].
  destruct F1 as [->|[a ->]]; [right; now exists b|].
  right. exists (a +:+ b). apply append_append.
Qed.

Lemma grown_mark ts doc_id title t :
  grown t (exec (ExportTracker.mark_exported_any ts doc_id title) t).
Proof.
  unfold exec, ExportTracker.mark_exported_any, ExportTracker.mark_exported,
    ExportTracker.set_member, bind, lift, get, put, modify, raise, ret.
  repeat match goal with
         | |- context [match ?x with _ => _ end] =>
             lazymatch x with
             | context [match _ with _ => _ end] => fail
             | _ => destruct x
             end
         end;
    (split; cbn;
     [first [reflexivity | apply union_subseteq_r]
     | first [now left | right; eexists; reflexivity]]).
Qed.

Lemma process_document_grows doc w :
  grown (tracker w) (tracker (exec (process_it doc) w)).
Proof.
  destruct (process_document_ledger lag_img transport_img find_all_img
              write_fails rmapi download_ok timestamp doc w)
    as [->|(name & doc_id & title & ts & _ & _ & _ & _ & ->)].
  - apply grown_refl.
  - apply grown_mark.
Qed.

Lemma process_all_grows docs :
  forall w, grown (tracker w) (tracker (exec (process_them docs) w)).
Proof.
  induction docs as [|doc rest IH]; intros w; [apply grown_refl|].
  destruct (subscript doc "title") as [t|e] eqn:Ht.
  - unfold exec.
    rewrite (process_each_step lag_img transport_img find_all_img write_fails
               rmapi download_ok timestamp doc rest w t Ht).
    eapply grown_trans; [apply process_document_grows | apply IH].
  - unfold exec, process_all. cbn [for_each].
    unfold bind at 1. unfold bind at 1, lift at 1. rewrite Ht.
    apply grown_refl.
Qed.

(** X29.  The ledger only grows.  Whatever happens while a document
    is processed, and over a whole run of [sync] however it ends,
    every identifier that was in the set is still in it, and the
    ledger file is the old one with text appended, if anything: no
    entry is ever removed or rewritten. *)
Theorem ledger_only_grows :
  (forall doc w, grown (tracker w) (tracker (exec (process_it doc) w)))
  /\ (forall w, grown (tracker w) (tracker (exec the_sync w)))
  /\ (forall w doc_id,
        ExportTracker.is_exported doc_id (tracker w) = true ->
        ExportTracker.is_exported doc_id (tracker (exec the_sync w)) = true).
Proof.
  assert (Hsync : forall w, grown (tracker w) (tracker (exec the_sync w))).
  { intros w. unfold exec at 1, sync. cbv zeta.
    match goal with
    | |- context [let (_, _) := ?body w in _] =>
        destruct (body w) as [r w'] eqn:E
    end.
    cbn [snd]. rewrite cleanup_keeps_tracker.
    unfold bind at 1 in E.
    match type of E with
    | context [on_readwise ?m w] =>
        pose proof (on_readwise_untouched m w) as (Hr & _);
        destruct (on_readwise m w) as [[fetched|e] w0]
    end; cbn [fst snd] in *;
      [|injection E as <- <-; rewrite Hr; apply grown_refl].
    destruct fetched as [documents|];
      [|injection E as <- <-; rewrite Hr; apply grown_refl].
    destruct (negb (truthy (JArray documents)));
      [injection E as <- <-; rewrite Hr; apply grown_refl|].
    unfold bind at 1 in E.
    pose proof (new_documents_pure documents w0) as Hpure.
    destruct (new_documents documents w0) as [[todo|e] w0'];
      cbn [fst snd] in *; subst w0';
      [|injection E as <- <-; rewrite Hr; apply grown_refl].
    destruct (negb (truthy (JArray todo)));
      [injection E as <- <-; rewrite Hr; apply grown_refl|].
    unfold bind at 1 in E.
    assert (Hw' : w' = exec (process_them todo) w0).
    { unfold exec. destruct (process_them todo w0) as [[[]|e] w2];
        now injection E as <- <-. }
    subst w'. rewrite <- Hr. apply process_all_grows. }
  split; [exact process_document_grows|]. split; [exact Hsync|].
  intros w doc_id H. destruct (Hsync w) as [Hsub _].
  unfold ExportTracker.is_exported in *.
  apply bool_decide_eq_true_1 in H. apply bool_decide_eq_true_2. auto.
Qed.

End LedgerGrows.

Lemma ledger_only_grows_witness :
  let run :=
    ReadwiseRemarkableSync.sync History.prompt
      (Listing.reliable Listing.two_pages) History.prompt (History.scripted [])
      Run.article_imgs (fun _ => false) (fun _ _ => RemarkableUploader.Exit0)
      (fun _ _ => true) Run.at_noon 5 ["new"] "remarkable" in
  ExportTracker.is_exported "b"
    (ReadwiseRemarkableSync.tracker Run.caught_up) = true
  /\ ExportTracker.is_exported "b"
       (ReadwiseRemarkableSync.tracker (Eff.exec run Run.caught_up)) = true.
Proof.
  cbv zeta.
  assert (H : ExportTracker.is_exported "b"
                (ReadwiseRemarkableSync.tracker Run.caught_up) = true)
    by (vm_compute; reflexivity).
  split; [exact H|].
  exact (proj2 (proj2 (ledger_only_grows History.prompt
                         (Listing.reliable Listing.two_pages) History.prompt
                         (History.scripted []) Run.article_imgs
                         (fun _ => false)
                         (fun _ _ => RemarkableUploader.Exit0)
                         (fun _ _ => true) Run.at_noon 5 ["new"]
                         "remarkable"))
           Run.caught_up "b" H).
Defined.
